(** * gemmi: reading mmCIF into a Structure, and number formatting

    A shallow embedding of [include/gemmi/mmcif.hh] (the structure builder,
    the anisotropic-U loader, the chain linkage) and of
    [include/gemmi/sprintf.hpp] (the number formatter), with the properties
    the specification states about them.

    Conventions.
    - A CIF cell is the raw text of the value ([std::string]).
    - C++ control flow that leaves a function early is explicit: a computation
      returns [Ok v], [Throw e] (an exception travelling to the caller) or
      [Abort a] (a failed [assert], which ends the process and cannot be
      caught).
    - Pointers into the tree under construction ([Model*], [Chain*],
      [Residue*], [Entity*]) are positions in the owning list; [nullptr] is
      [None].
    - A [double] is the rational it stands for; a parsed number is the
      rational its text denotes, the rounding to binary64 is not modelled.
      The narrowing casts [(float)] of the anisotropic-U loader are. *)

From Stdlib Require Import ZArith QArith String Ascii.
From stdpp Require Import gmap strings list.

Local Open Scope string_scope.
Local Open Scope Z_scope.

(* ===================================================================== *)
(** * Outcomes of a C++ computation *)
(* ===================================================================== *)

(** The exceptions the builder can meet. [runtime_error] is the one caught
    on line 176 of mmcif.hh; [malformed_numeric] carries the offending text. *)
Inductive exception :=
| runtime_error
| malformed_numeric (text : string).

(** The two [assert]s of the builder pass (mmcif.hh lines 127 and 131). *)
Inductive assertion :=
| ins_code_size          (* assert(row[kInsCode].size() == 1) *)
| author_ids_consistent. (* assert(resi->auth_seq_id == auth_seq_id &&
                                   resi->ins_code == ins_code) *)

Inductive result (A : Type) :=
| Ok (a : A)
| Throw (e : exception)
| Abort (a : assertion).
Arguments Ok {A} a.
Arguments Throw {A} e.
Arguments Abort {A} a.

#[global] Instance result_ret : MRet result := λ A a, Ok a.
#[global] Instance result_bind : MBind result := λ A B f r,
  match r with
  | Ok a => f a
  | Throw e => Throw e
  | Abort a => Abort a
  end.

(** [assert(c)]: nothing when NDEBUG is defined, else stop when [c] fails. *)
Definition c_assert (NDEBUG : bool) (which : assertion) (c : bool) : result unit :=
  if NDEBUG then Ok tt else if c then Ok tt else Abort which.

(** A C++ floating value: not-a-number, an infinity, or the rational it
    stands for. *)
Inductive number :=
| NaN
| Inf (negative : bool)
| Num (q : Q).

Definition num_of_Z (z : Z) : number := Num (inject_Z z).

(** ** Narrowing to [float]

    The cast [(float) x] of a [double]: the binary32 value nearest to [x],
    ties to the even significand, and an infinity past the largest finite
    value (IEEE 754 round-to-nearest, which is what the conversion does on
    the platforms gemmi is built for). A finite binary32 value is
    [m * 2^e] with [m < 2^24] and [-149 <= e <= 104]. *)

(** [num / den] rounded to the nearest integer, ties to even. *)
Definition nearest_even (num den : Z) : Z :=
  let q := num / den in
  let r := num mod den in
  if 2 * r <? den then q
  else if den <? 2 * r then q + 1
  else if Z.even q then q else q + 1.

(** [floor (log2 (num/den))] for a positive fraction. *)
Definition floor_log2 (num den : Z) : Z :=
  let k := Z.log2 num - Z.log2 den in
  if den * 2 ^ Z.max k 0 <=? num * 2 ^ Z.max (- k) 0 then k else k - 1.

(** The binary32 value nearest to the magnitude [num/den > 0]; [None] when
    that is beyond the finite values. The exponent [e] gives 24 significant
    bits, or is the least one, -149, for a subnormal result. *)
Definition float_magnitude (num den : Z) : option Q :=
  let e := Z.max (floor_log2 num den - 23) (-149) in
  let m := nearest_even (num * 2 ^ Z.max (- e) 0) (den * 2 ^ Z.max e 0) in
  if (0 <=? e) && (2 ^ 128 <=? m * 2 ^ e) then None
  else Some (Qred (m * 2 ^ Z.max e 0 # Z.to_pos (2 ^ Z.max (- e) 0))).

(** [(float) x] *)
Definition to_float (x : number) : number :=
  match x with
  | Num q =>
      match Qnum q ?= 0 with
      | Eq => Num 0
      | Gt => match float_magnitude (Qnum q) (Zpos (Qden q)) with
              | Some v => Num v
              | None => Inf false
              end
      | Lt => match float_magnitude (- Qnum q) (Zpos (Qden q)) with
              | Some v => Num (Qred (- v))
              | None => Inf true
              end
      end
  | other => other
  end.

(* ===================================================================== *)
(** * cif.hh and numb.hh: cells, tables, blocks *)
(* ===================================================================== *)

Module Cif.

(** Modelled from the spec: cif::is_null (cif.hh is not among the sources).
    "a cell holding either of two distinguished no-value markers": the CIF
    placeholders [?] (unknown) and [.] (inapplicable). *)
Definition is_null (value : string) : bool :=
  (value =? "?")%string || (value =? ".")%string.

(** Modelled from the spec: cif::as_string. A no-value marker reads as the
    empty string ("must yield a type-appropriate default"), any other cell
    as its text. *)
Definition as_string (value : string) : string :=
  if is_null value then "" else value.

(** [s[0]] on a [std::string]: the first character, or the terminating
    NUL when the string is empty. *)
Definition char0 (s : string) : ascii :=
  match s with
  | EmptyString => "000"%char
  | String c _ => c
  end.

Definition digit_of (c : ascii) : option Z :=
  let n := Z.of_N (N_of_ascii c) in
  if (48 <=? n) && (n <=? 57) then Some (n - 48) else None.

Fixpoint parse_digits (acc : Z) (s : string) : option Z :=
  match s with
  | EmptyString => Some acc
  | String c r =>
      match digit_of c with
      | Some d => parse_digits (10 * acc + d) r
      | None => None
      end
  end.

Definition parse_unsigned (s : string) : option Z :=
  match s with
  | EmptyString => None
  | _ => parse_digits 0 s
  end.

Definition parse_int (s : string) : option Z :=
  match s with
  | String "-"%char r => Z.opp <$> parse_unsigned r
  | String "+"%char r => parse_unsigned r
  | _ => parse_unsigned s
  end.

(** The longest prefix of decimal digits, and what follows it. *)
Fixpoint span_digits (s : string) : string * string :=
  match s with
  | EmptyString => ("", "")
  | String c r =>
      match digit_of c with
      | Some _ => let '(d, rest) := span_digits r in (String c d, rest)
      | None => ("", s)
      end
  end.

(** Decimal text [[+-]digits[.digits][(e|E)[+-]digits]] to the rational it
    denotes, in lowest terms. *)
Definition parse_number (s : string) : option Q :=
  let '(neg, s1) :=
    match s with
    | String "-"%char r => (true, r)
    | String "+"%char r => (false, r)
    | _ => (false, s)
    end in
  let '(ip, s2) := span_digits s1 in
  let '(fp, s3) :=
    match s2 with
    | String "."%char r => span_digits r
    | _ => ("", s2)
    end in
  let ex :=
    match s3 with
    | EmptyString => Some 0
    | String "e"%char r | String "E"%char r => parse_int r
    | _ => None
    end in
  match parse_unsigned (ip ++ fp), ex with
  | Some m, Some e =>
      let v := (inject_Z m * Qpower (inject_Z 10) (e - Z.of_nat (String.length fp)))%Q in
      Some (Qred (if neg then Qopp v else v))
  | _, _ => None
  end.

(** Modelled from the spec: cif::as_int(s) (cif.hh is not among the
    sources). "a required numeric field fails to parse; propagates and
    aborts the whole build". *)
Definition as_int1 (s : string) : result Z :=
  match parse_int s with
  | Some n => Ok n
  | None => Throw (malformed_numeric s)
  end.

(** Modelled from the spec: cif::as_int(s, default_) (cif.hh is not among
    the sources). "sequence number (nullable)"; "unparsable position
    defaults to a -1 sentinel": the default stands in for a cell that is
    no integer, the no-value markers included. *)
Definition as_int (s : string) (default_ : Z) : result Z :=
  match parse_int s with
  | Some n => Ok n
  | None => Ok default_
  end.

(** Modelled from the spec: cif::as_number(s, default) (numb.hh is not among
    the sources). "occupancy defaults to 1.0 when null"; a cell that is not a
    number is MalformedNumeric. *)
Definition as_number (s : string) (default_ : number) : result number :=
  if is_null s then Ok default_
  else match parse_number s with
       | Some q => Ok (Num q)
       | None => Throw (malformed_numeric s)
       end.

(** Modelled from the spec: cif::as_number(s), the call without a default
    (numb.hh is not among the sources). "an absent/null component
    defaulting to 0.0"; "a required numeric field fails to parse;
    propagates and aborts the whole build". *)
Definition as_number1 (s : string) : result number :=
  as_number s (num_of_Z 0).

(** Modelled from the spec: a row of a cif::TableView (cif.hh is not among
    the sources), "read-only, column-addressed row access": the cells of
    the requested columns, in order. *)
Abbreviation Row := (list string) (only parsing).

(** Modelled from the spec: [row[k]] on a row of a table view. *)
Definition cell (row : Row) (k : nat) : string := default "" (row !! k).

(** Modelled from the spec: [row.as_str(k)], the cell read as a string. *)
Definition as_str (row : Row) (k : nat) : string := as_string (cell row k).

(** Modelled from the spec: [row.as_num(k)], the cell read as a number. *)
Definition as_num (row : Row) (k : nat) : result number := as_number1 (cell row k).

(** Modelled from the spec: cif::Block and cif::TableView. "a named
    collection of tagged tables, each addressed by a category prefix plus
    field-name suffixes. Lookups must tolerate an entirely absent table
    (treated as empty)". A tag-value pair is a table with one row. *)
Record Table := mkTable {
  tags : list string;
  values : list (list string)
}.

Record Block := mkBlock {
  name : string;
  tables : list Table
}.

(** Modelled from the spec: cif::TableView, the rows of the requested
    columns; [ok] tells whether the table and all its columns were found. *)
Record TableView := mkView {
  ok : bool;
  rows : list Row
}.

Definition no_view : TableView := {| ok := false; rows := [] |}.

Fixpoint index_of (tag : string) (l : list string) : option nat :=
  match l with
  | [] => None
  | t :: r => if (t =? tag)%string then Some 0%nat else S <$> index_of tag r
  end.

Definition has_tag (tag : string) (t : Table) : bool :=
  bool_decide (is_Some (index_of tag (tags t))).

(** Modelled from the spec: [block.find(prefix, {fields...})], the view of
    the columns [prefix + field] of the table that has the first of them;
    an absent table or column gives the empty view. *)
Definition find (b : Block) (prefix : string) (fields : list string) : TableView :=
  let names := List.map (λ f, prefix ++ f) fields in
  match names with
  | [] => no_view
  | first :: _ =>
      match List.find (has_tag first) (tables b) with
      | None => no_view
      | Some t =>
          match mapM (M := option) (λ n, index_of n (tags t)) names with
          | None => no_view
          | Some cols =>
              {| ok := true;
                 rows := List.map (λ r, List.map (cell r) cols) (values t) |}
          end
      end
  end.

(** Modelled from the spec: [block.find(tag)], the view of one column. *)
Definition find_tag (b : Block) (tag : string) : TableView := find b "" [tag].

(** Modelled from the spec: [block.find_string(tag)], "symmetry name (1
    string)"; empty when the tag is absent. *)
Definition find_string (b : Block) (tag : string) : string :=
  match rows (find_tag b tag) with
  | [] => ""
  | r :: _ => as_str r 0
  end.

(** Modelled from the spec: TableView::one(), "unit-cell parameters (6
    numeric fields, 1 row)". *)
Definition one (t : TableView) : result Row :=
  match rows t with
  | [r] => Ok r
  | _ => Throw runtime_error
  end.

(** Modelled from the spec: TableView::find_row(s), the row whose first
    cell is [s]. The catch clause on line 176 of mmcif.hh shows what a miss
    does: it throws [std::runtime_error] ("maybe _struct_asym is
    missing"). *)
Definition find_row (t : TableView) (s : string) : result Row :=
  match List.find (λ r, (cell r 0 =? s)%string) (rows t) with
  | Some r => Ok r
  | None => Throw runtime_error
  end.

End Cif.

(* ===================================================================== *)
(** * model.hh: the Structure tree *)
(* ===================================================================== *)

(** model.hh is not among the sources; the records below follow section 3
    of the specification ("Data model") and the fields that mmcif.hh
    reads and writes. *)
Module Mol.
Import Cif.

(** Modelled from the spec: Position (model.hh), "position (x,y,z)",
    "3-vector translation". *)
Record Position := mkPosition { x : number; y : number; z : number }.

(** Modelled from the spec: Matrix33 (model.hh), "3x3 rotation". *)
Record Matrix33 := mkMatrix33 {
  a11 : number; a12 : number; a13 : number;
  a21 : number; a22 : number; a23 : number;
  a31 : number; a32 : number; a33 : number
}.

(** Modelled from the spec: UnitCell (model.hh), "unit-cell parameters (6
    floats)". *)
Record UnitCell := mkUnitCell {
  a : number; b : number; c : number;
  alpha : number; beta : number; gamma : number
}.

(** Modelled from the spec: Element (elem.hpp is not among the sources),
    "element from symbol text". Element classification is an external
    collaborator: an element is kept as the symbol text it is made from. *)
Record Element := mkElement { symbol : string }.

(** [std::array<float,6>] *)
Record array6 := mkArray6 {
  at0 : number; at1 : number; at2 : number;
  at3 : number; at4 : number; at5 : number
}.

(** Modelled from the spec: the default member initialisers of Atom
    (model.hh is not among the sources). "optional 6-component anisotropic
    displacement (unset sentinel distinct from zero)". *)
Definition unset_u : number := NaN.

(** Modelled from the spec: Atom (model.hh). "name, alternate-location
    char, element, integer formal charge, position (x,y,z), occupancy,
    isotropic displacement value, optional 6-component anisotropic
    displacement". *)
Module Atom.
Record t := mk {
  name : string;
  altloc : ascii;
  charge : Z;
  element : Element;
  pos : Position;
  occ : number;
  b_iso : number;
  u11 : number; u22 : number; u33 : number;
  u12 : number; u13 : number; u23 : number
}.
End Atom.

(** Modelled from the spec: Residue (model.hh). "identity = (sequence
    number, name), with author sequence number + insertion-code char as
    disambiguators; owned ordered list of Atoms". *)
Module Residue.
Record t := mk {
  seq_id : Z;
  auth_seq_id : Z;
  ins_code : ascii;
  name : string;
  atoms : list Atom.t
}.
End Residue.

(** Modelled from the spec: Chain (model.hh). "label name, author-facing
    name, non-owning reference to an Entity (optional), owned ordered list
    of Residues". *)
Module Chain.
Record t := mk {
  name : string;
  auth_name : string;
  entity : option nat;     (* Entity*: a position in Structure::entities *)
  residues : list Residue.t
}.
End Chain.

(** Modelled from the spec: Model (model.hh). "identifying name/number
    string; owned ordered list of Chains". *)
Module Model.
Record t := mk {
  name : string;
  chains : list Chain.t
}.
End Model.

(** Modelled from the spec: EntityType and Entity (model.hh). "id, type
    (enum: polymer, non-polymer, water, branched, other/unknown), ordered
    sequence of (position, monomer-id) pairs". *)
Inductive EntityType := Unknown | Polymer | NonPolymer | Water | Branched.

Module Entity.
Record t := mk {
  id : string;
  type : EntityType;
  sequence : list (Z * string)
}.
End Entity.

(** Modelled from the spec: NcsOp (model.hh). "given-flag, 3x3 rotation,
    3-vector translation". *)
Record NcsOp := mkNcsOp { given : bool; mat : Matrix33; vec : Position }.

(** Modelled from the spec: Structure (model.hh). "name, unit-cell
    parameters, symmetry name string, free-form metadata, list of NCS
    operators, owned list of Entities, owned list of Models". *)
Module Structure.
Record t := mk {
  name : string;
  cell : option UnitCell;      (* None: as default-constructed *)
  sg_hm : string;
  info : gmap string string;
  ncs : list NcsOp;
  entities : list Entity.t;
  models : list Model.t
}.
End Structure.

(** Modelled from the spec: entity_type_from_string (model.hh). "type
    mapped from a closed vocabulary; an unrecognized code maps to an
    explicit unknown variant (never raises)". *)
Definition entity_type_from_string (s : string) : EntityType :=
  if (s =? "polymer")%string then Polymer
  else if (s =? "non-polymer")%string then NonPolymer
  else if (s =? "water")%string then Water
  else if (s =? "branched")%string then Branched
  else Unknown.

(** Modelled from the spec: Structure::find_or_add_model (model.hh).
    "find-or-append a Model by key (linear scan over the small model
    list)". The result is the list and the position of the model. *)
Definition find_or_add_model (name : string) (ms : list Model.t)
  : list Model.t * nat :=
  match list_find (λ m, Model.name m = name) ms with
  | Some (i, _) => (ms, i)
  | None => ((ms ++ [Model.mk name []])%list, List.length ms)
  end.

(** Modelled from the spec: Model::find_or_add_chain (model.hh).
    "find-or-append a Chain in the current model (linear scan)". *)
Definition find_or_add_chain (name : string) (m : Model.t) : Model.t * nat :=
  match list_find (λ ch, Chain.name ch = name) (Model.chains m) with
  | Some (i, _) => (m, i)
  | None =>
      (Model.mk (Model.name m)
         (Model.chains m ++ [Chain.mk name "" None []])%list,
       List.length (Model.chains m))
  end.

(** Modelled from the spec: the key that Chain::find_or_add_residue
    compares, "(sequence number, author sequence number, insertion code,
    name)". *)
Definition same_residue_key (seq_id auth_seq_id : Z) (ins_code : ascii)
    (name : string) (r : Residue.t) : Prop :=
  Residue.seq_id r = seq_id ∧ Residue.auth_seq_id r = auth_seq_id ∧
  Residue.ins_code r = ins_code ∧ Residue.name r = name.

#[global] Instance same_residue_key_dec s a i n r :
  Decision (same_residue_key s a i n r).
Proof. unfold same_residue_key. apply _. Defined.

(** Modelled from the spec: Chain::find_or_add_residue (model.hh).
    "Find-or-append the residue by (sequence number, author sequence
    number, insertion code, name)". *)
Definition find_or_add_residue (seq_id auth_seq_id : Z) (ins_code : ascii)
    (name : string) (ch : Chain.t) : Chain.t * nat :=
  match list_find (same_residue_key seq_id auth_seq_id ins_code name)
                  (Chain.residues ch) with
  | Some (i, _) => (ch, i)
  | None =>
      (Chain.mk (Chain.name ch) (Chain.auth_name ch) (Chain.entity ch)
         (Chain.residues ch
            ++ [Residue.mk seq_id auth_seq_id ins_code name []])%list,
       List.length (Chain.residues ch))
  end.

(** Modelled from the spec: Structure::find_or_add_entity (model.hh).
    "find-or-append the Entity by id (tolerating forward references)". *)
Definition find_or_add_entity (id : string) (es : list Entity.t)
  : list Entity.t * nat :=
  match list_find (λ e, Entity.id e = id) es with
  | Some (i, _) => (es, i)
  | None => ((es ++ [Entity.mk id Unknown []])%list, List.length es)
  end.

(** Modelled from the spec: Structure::finish (model.hh), the "external
    finalize step"; the specification gives it no effect on the tree and no
    failure. *)
Definition finish (st : Structure.t) : Structure.t := st.

End Mol.

(* ===================================================================== *)
(** * mmcif.hh *)
(* ===================================================================== *)

Module Mmcif.
Import Cif Mol.

(** One element of the map built on lines 26-31: the six components, each
    read by [cif::as_number] and narrowed by the cast [(float)]. *)
Definition anisotropic_row (ani : Row) : result array6 :=
  n1 ← as_number1 (cell ani 1);
  n2 ← as_number1 (cell ani 2);
  n3 ← as_number1 (cell ani 3);
  n4 ← as_number1 (cell ani 4);
  n5 ← as_number1 (cell ani 5);
  n6 ← as_number1 (cell ani 6);
  Ok (mkArray6 (to_float n1) (to_float n2) (to_float n3)
        (to_float n4) (to_float n5) (to_float n6)).

(** The loop of lines 25-31: [aniso_map[ani[0]] = {...}] for each row. *)
Fixpoint fill_aniso_map (aniso_map : gmap string array6) (aniso_tab : list Row)
  : result (gmap string array6) :=
  match aniso_tab with
  | [] => Ok aniso_map
  | ani :: rest =>
      u ← anisotropic_row ani;
      fill_aniso_map (<[cell ani 0 := u]> aniso_map) rest
  end.

Definition anisotrop_fields : list string :=
  ["id"; "U[1][1]"; "U[2][2]"; "U[3][3]"; "U[1][2]"; "U[1][3]"; "U[2][3]"].

Definition get_anisotropic_u (block : Block) : result (gmap string array6) :=
  let aniso_tab := find block "_atom_site_anisotrop." anisotrop_fields in
  fill_aniso_map ∅ (rows aniso_tab).

(** The column numbers of the atom table (the enum on lines 87-88). *)
Definition kId : nat := 0.
Definition kSymbol : nat := 1.
Definition kAtomId : nat := 2.
Definition kAltId : nat := 3.
Definition kCompId : nat := 4.
Definition kAsymId : nat := 5.
Definition kSeqId : nat := 6.
Definition kInsCode : nat := 7.
Definition kX : nat := 8.
Definition kY : nat := 9.
Definition kZ : nat := 10.
Definition kOcc : nat := 11.
Definition kBiso : nat := 12.
Definition kCharge : nat := 13.
Definition kAuthSeqId : nat := 14.
Definition kAuthAsymId : nat := 15.
Definition kModelNum : nat := 16.

Definition atom_site_fields : list string :=
  ["id"; "type_symbol"; "label_atom_id"; "label_alt_id"; "label_comp_id";
   "label_asym_id"; "label_seq_id"; "pdbx_PDB_ins_code";
   "Cartn_x"; "Cartn_y"; "Cartn_z"; "occupancy"; "B_iso_or_equiv";
   "pdbx_formal_charge"; "auth_seq_id"; "auth_asym_id"; "pdbx_PDB_model_num"].

(** Lines 144-154: copy the six components when the atom's id is a key. *)
Definition set_anisotropic (aniso_map : gmap string array6) (row : Row)
    (atom : Atom.t) : Atom.t :=
  if bool_decide (aniso_map = ∅) then atom
  else match aniso_map !! cell row kId with
       | Some ani =>
           Atom.mk (Atom.name atom) (Atom.altloc atom) (Atom.charge atom)
             (Atom.element atom) (Atom.pos atom) (Atom.occ atom)
             (Atom.b_iso atom)
             (at0 ani) (at1 ani) (at2 ani) (at3 ani) (at4 ani) (at5 ani)
       | None => atom
       end.

(** Lines 133-154: the Atom made from one row. The fields are evaluated in
    the order of the source, so the first failing one decides the
    exception. *)
Definition make_atom (aniso_map : gmap string array6) (row : Row)
  : result Atom.t :=
  let name := as_string (cell row kAtomId) in
  let altloc := char0 (as_string (cell row kAltId)) in
  charge ← (if is_null (cell row kCharge) then Ok 0
            else as_int1 (cell row kCharge));
  let element := mkElement (as_string (cell row kSymbol)) in
  px ← as_number1 (cell row kX);
  py ← as_number1 (cell row kY);
  pz ← as_number1 (cell row kZ);
  occ ← as_number (cell row kOcc) (num_of_Z 1);
  b_iso ← as_number (cell row kBiso) (num_of_Z 50);
  Ok (set_anisotropic aniso_map row
        (Atom.mk name altloc charge element (mkPosition px py pz) occ b_iso
           unset_u unset_u unset_u unset_u unset_u unset_u)).

(** The state of the loop on lines 107-156: the models built so far and
    the three cursors [model], [chain], [resi]. *)
Record Cursor := mkCursor {
  models : list Model.t;
  model : option nat;
  chain : option nat;
  resi : option nat
}.

(** [*model], [*chain], [*resi] *)
Definition model_at (cur : Cursor) : option Model.t :=
  mi ← model cur; models cur !! mi.
Definition chain_at (cur : Cursor) : option Chain.t :=
  m ← model_at cur; ci ← chain cur; Model.chains m !! ci.
Definition resi_at (cur : Cursor) : option Residue.t :=
  ch ← chain_at cur; ri ← resi cur; Chain.residues ch !! ri.

(** Writing through [chain] and [resi]. *)
Definition alter_chain (f : Chain.t → Chain.t) (cur : Cursor) : list Model.t :=
  match model cur, chain cur with
  | Some mi, Some ci =>
      alter (λ m, Model.mk (Model.name m) (alter f ci (Model.chains m)))
            mi (models cur)
  | _, _ => models cur
  end.

Definition alter_resi (f : Residue.t → Residue.t) (cur : Cursor) : list Model.t :=
  match resi cur with
  | Some ri =>
      alter_chain (λ ch, Chain.mk (Chain.name ch) (Chain.auth_name ch)
                           (Chain.entity ch) (alter f ri (Chain.residues ch)))
                  cur
  | None => models cur
  end.

(** Lines 111-114. *)
Definition select_model (cur : Cursor) (row : Row) : Cursor :=
  let fresh :=
    let '(ms, mi) := find_or_add_model (cell row kModelNum) (models cur) in
    mkCursor ms (Some mi) None (resi cur) in
  match model_at cur with
  | None => fresh
  | Some m => if (cell row kModelNum =? Model.name m)%string then cur else fresh
  end.

(** Lines 116-118, for the model [mi]. *)
Definition open_chain (cur : Cursor) (row : Row) : Cursor :=
  match model cur, model_at cur with
  | Some mi, Some m =>
      let '(m', ci) := find_or_add_chain (as_str row kAsymId) m in
      let cur' := mkCursor (<[mi := m']> (models cur)) (Some mi) (Some ci) None in
      mkCursor
        (alter_chain (λ ch, Chain.mk (Chain.name ch) (as_str row kAuthAsymId)
                              (Chain.entity ch) (Chain.residues ch)) cur')
        (Some mi) (Some ci) None
  | _, _ => cur
  end.

(** Lines 115-119. *)
Definition select_chain (cur : Cursor) (row : Row) : Cursor :=
  match chain_at cur with
  | None => open_chain cur row
  | Some ch =>
      if (cell row kAsymId =? Chain.name ch)%string then cur
      else open_chain cur row
  end.

(** Lines 128-129, for the chain under the cursor. *)
Definition open_residue (cur : Cursor) (seq_id auth_seq_id : Z)
    (ins_code : ascii) (name : string) : Cursor :=
  match chain_at cur with
  | Some ch =>
      let '(ch', ri) := find_or_add_residue seq_id auth_seq_id ins_code name ch in
      mkCursor (alter_chain (λ _, ch') cur) (model cur) (chain cur) (Some ri)
  | None => cur
  end.

(** Line 155. *)
Definition append_atom (cur : Cursor) (atom : Atom.t) : Cursor :=
  mkCursor
    (alter_resi (λ r, Residue.mk (Residue.seq_id r) (Residue.auth_seq_id r)
                        (Residue.ins_code r) (Residue.name r)
                        (Residue.atoms r ++ [atom])%list) cur)
    (model cur) (chain cur) (resi cur).

(** [try { body } catch (std::runtime_error&) { handler }] *)
Definition catch_runtime_error {A} (body handler : result A) : result A :=
  match body with
  | Throw runtime_error => handler
  | other => other
  end.

Definition ncs_oper_fields : list string :=
  ["matrix[1][1]"; "matrix[1][2]"; "matrix[1][3]";
   "matrix[2][1]"; "matrix[2][2]"; "matrix[2][3]";
   "matrix[3][1]"; "matrix[3][2]"; "matrix[3][3]";
   "vector[1]"; "vector[2]"; "vector[3]"; "code"].

(** Lines 75-82: one operator per row of the NCS table. *)
Definition ncs_oper_row (op : Row) : result NcsOp :=
  m0 ← as_num op 0; m1 ← as_num op 1; m2 ← as_num op 2;
  m3 ← as_num op 3; m4 ← as_num op 4; m5 ← as_num op 5;
  m6 ← as_num op 6; m7 ← as_num op 7; m8 ← as_num op 8;
  let mat := mkMatrix33 m0 m1 m2 m3 m4 m5 m6 m7 m8 in
  v0 ← as_num op 9; v1 ← as_num op 10; v2 ← as_num op 11;
  let vec := mkPosition v0 v1 v2 in
  let given := (as_str op 12 =? "given")%string in
  Ok (mkNcsOp given mat vec).

Fixpoint ncs_oper_loop (ncs : list NcsOp) (ncs_oper : list Row)
  : result (list NcsOp) :=
  match ncs_oper with
  | [] => Ok ncs
  | op :: rest =>
      o ← ncs_oper_row op;
      ncs_oper_loop (ncs ++ [o])%list rest
  end.

(** Lines 43-47. *)
Definition read_cell (block : Block) : result (option UnitCell) :=
  let cell := find block "_cell."
                ["length_a"; "length_b"; "length_c";
                 "angle_alpha"; "angle_beta"; "angle_gamma"] in
  if ok cell then
    c ← one cell;
    a ← as_num c 0; b ← as_num c 1; c' ← as_num c 2;
    al ← as_num c 3; be ← as_num c 4; ga ← as_num c 5;
    Ok (Some (mkUnitCell a b c' al be ga))
  else Ok None.

(** Lines 50-54: the [add_info] lambda. *)
Definition add_info (block : Block) (tag : string)
    (info : gmap string string) : gmap string string :=
  match rows (find_tag block tag) with
  | t0 :: _ => <[tag := as_str t0 0]> info
  | [] => info
  end.

(** Lines 55-68. *)
Definition read_info (block : Block) : gmap string string :=
  let old_date_tag := "_database_PDB_rev.date_original" in
  let new_date_tag := "_pdbx_database_status.recvd_initial_deposition_date" in
  let info := add_info block "_entry.id" ∅ in
  let info := add_info block "_cell.Z_PDB" info in
  let info := add_info block "_exptl.method" info in
  let info := add_info block "_struct.title" info in
  let info := add_info block old_date_tag info in
  let info := add_info block new_date_tag info in
  let info :=
    match info !! old_date_tag, info !! new_date_tag with
    | Some old, None => <[new_date_tag := old]> info
    | _, _ => info
    end in
  let info := add_info block "_struct_keywords.pdbx_keywords" info in
  add_info block "_struct_keywords.text" info.

(** Lines 158-162. *)
Definition read_entities (block : Block) : list Entity.t :=
  List.map (λ row, Entity.mk (as_str row 0)
                     (entity_type_from_string (as_str row 1)) [])
           (rows (find block "_entity." ["id"; "type"])).

(** Lines 164-168. *)
Fixpoint poly_seq_loop (es : list Entity.t) (tab : list Row)
  : result (list Entity.t) :=
  match tab with
  | [] => Ok es
  | row :: rest =>
      let '(es1, ei) := find_or_add_entity (as_str row 0) es in
      num ← as_int (cell row 1) (-1);
      poly_seq_loop
        (alter (λ ent, Entity.mk (Entity.id ent) (Entity.type ent)
                         (Entity.sequence ent ++ [(num, as_str row 2)])%list)
               ei es1)
        rest
  end.

(** Lines 173-178, for one chain: the body of the two nested loops. *)
Definition link_chain (chain_to_entity : TableView) (es : list Entity.t)
    (ch : Chain.t) : result (list Entity.t * Chain.t) :=
  catch_runtime_error
    (row ← find_row chain_to_entity (Chain.name ch);
     let ent_id := as_str row 1 in
     let '(es', ei) := find_or_add_entity ent_id es in
     Ok (es', Chain.mk (Chain.name ch) (Chain.auth_name ch) (Some ei)
                (Chain.residues ch)))
    (Ok (es, Chain.mk (Chain.name ch) (Chain.auth_name ch) None
               (Chain.residues ch))).

(** Line 172: the chains of one model. *)
Fixpoint link_chains (chain_to_entity : TableView) (es : list Entity.t)
    (chs : list Chain.t) : result (list Entity.t * list Chain.t) :=
  match chs with
  | [] => Ok (es, [])
  | ch :: rest =>
      '(es1, ch') ← link_chain chain_to_entity es ch;
      '(es2, rest') ← link_chains chain_to_entity es1 rest;
      Ok (es2, ch' :: rest')
  end.

(** Line 171: the models of the structure. *)
Fixpoint link_models (chain_to_entity : TableView) (es : list Entity.t)
    (ms : list Model.t) : result (list Entity.t * list Model.t) :=
  match ms with
  | [] => Ok (es, [])
  | mod_ :: rest =>
      '(es1, chs) ← link_chains chain_to_entity es (Model.chains mod_);
      '(es2, rest') ← link_models chain_to_entity es1 rest;
      Ok (es2, Model.mk (Model.name mod_) chs :: rest')
  end.

Section Builder.

(** [Residue::UnknownId], a constant of model.hh, and whether the
    translation unit is compiled with NDEBUG. *)
Variable UnknownId : Z.
Variable NDEBUG : bool.

(** The condition on lines 123-125. *)
Definition starts_new_residue (resi : option Residue.t)
    (seq_id auth_seq_id : Z) (ins_code : ascii) (row : Row) : bool :=
  match resi with
  | None => true
  | Some r =>
      negb (seq_id =? Residue.seq_id r)
      || negb (cell row kCompId =? Residue.name r)%string
      || ((seq_id =? UnknownId)
          && (negb (Residue.auth_seq_id r =? auth_seq_id)
              || negb (Ascii.eqb (Residue.ins_code r) ins_code)))
  end.

(** The condition asserted on line 131. *)
Definition author_ids_agree (resi : option Residue.t) (auth_seq_id : Z)
    (ins_code : ascii) : bool :=
  match resi with
  | Some r => (Residue.auth_seq_id r =? auth_seq_id)
              && Ascii.eqb (Residue.ins_code r) ins_code
  | None => true
  end.

(** Lines 120-132. *)
Definition select_residue (cur : Cursor) (row : Row) : result Cursor :=
  seq_id ← as_int (cell row kSeqId) UnknownId;
  auth_seq_id ← as_int (cell row kAuthSeqId) UnknownId;
  let ins_code := char0 (as_string (cell row kInsCode)) in
  if starts_new_residue (resi_at cur) seq_id auth_seq_id ins_code row then
    _ ← c_assert NDEBUG ins_code_size
          (String.length (cell row kInsCode) =? 1)%nat;
    Ok (open_residue cur seq_id auth_seq_id ins_code
          (as_string (cell row kCompId)))
  else
    _ ← c_assert NDEBUG author_ids_consistent
          (author_ids_agree (resi_at cur) auth_seq_id ins_code);
    Ok cur.

(** Lines 110-156: the body of the loop over the atom table. *)
Definition atom_site_row (aniso_map : gmap string array6) (cur : Cursor)
    (row : Row) : result Cursor :=
  let cur := select_model cur row in
  let cur := select_chain cur row in
  cur ← select_residue cur row;
  atom ← make_atom aniso_map row;
  Ok (append_atom cur atom).

Fixpoint atom_site_loop (aniso_map : gmap string array6) (cur : Cursor)
    (atom_table : list Row) : result Cursor :=
  match atom_table with
  | [] => Ok cur
  | row :: rest =>
      cur' ← atom_site_row aniso_map cur row;
      atom_site_loop aniso_map cur' rest
  end.

(** The builder pass alone: lines 107-156 from the empty structure. *)
Definition build_models (aniso_map : gmap string array6)
    (atom_table : list Row) : result (list Model.t) :=
  cur ← atom_site_loop aniso_map (mkCursor [] None None None) atom_table;
  Ok (models cur).

Definition structure_from_cif_block (block : Block) : result Structure.t :=
  cell ← read_cell block;
  let sg_hm := find_string block "_symmetry.space_group_name_H-M" in
  let info := read_info block in
  ncs ← ncs_oper_loop []
          (rows (find block "_struct_ncs_oper." ncs_oper_fields));
  aniso_map ← get_anisotropic_u block;
  ms ← build_models aniso_map (rows (find block "_atom_site." atom_site_fields));
  es ← poly_seq_loop (read_entities block)
         (rows (find block "_entity_poly_seq." ["entity_id"; "num"; "mon_id"]));
  let chain_to_entity := find block "_struct_asym." ["id"; "entity_id"] in
  '(es', ms') ← link_models chain_to_entity es ms;
  Ok (finish (Structure.mk (Cif.name block) cell sg_hm info ncs es' ms')).

End Builder.

End Mmcif.

(* ===================================================================== *)
(** * sprintf.hpp *)
(* ===================================================================== *)

Module Sprintf.

(** A binary floating value, [double] or [float]: not-a-number, an
    infinity, or [(-1)^neg * m * 2^e]. Every finite IEEE value has this
    shape; [is_double] and [is_float] say which ones fit the two formats. *)
Inductive binary :=
| FNaN
| FInf (neg : bool)
| FFinite (neg : bool) (m : N) (e : Z).

Definition is_double (d : binary) : bool :=
  match d with
  | FFinite _ m e => (m <? 2 ^ 53)%N && (-1074 <=? e) && (e <=? 971)
  | _ => true
  end.

Definition is_float (d : binary) : bool :=
  match d with
  | FFinite _ m e => (m <? 2 ^ 24)%N && (-149 <=? e) && (e <=? 104)
  | _ => true
  end.

(** The integer [(-1)^neg * m * 2^(e-k)], for [k <= e]. *)
Definition scaled (k : Z) (neg : bool) (m : N) (e : Z) : Z :=
  (if neg then -1 else 1) * (Z.of_N m * 2 ^ (e - k)).

(** [a < b] on floating values: false as soon as one is not a number. *)
Definition flt (a b : binary) : bool :=
  match a, b with
  | FNaN, _ | _, FNaN => false
  | FInf na, FInf nb => na && negb nb
  | FInf na, FFinite _ _ _ => na
  | FFinite _ _ _, FInf nb => negb nb
  | FFinite n1 m1 e1, FFinite n2 m2 e2 =>
      let k := Z.min e1 e2 in
      scaled k n1 m1 e1 <? scaled k n2 m2 e2
  end.

Definition fgt (a b : binary) : bool := flt b a.

Definition fneg (d : binary) : binary :=
  match d with
  | FNaN => FNaN
  | FInf n => FInf (negb n)
  | FFinite n m e => FFinite (negb n) m e
  end.

Definition fabs (d : binary) : binary :=
  match d with
  | FNaN => FNaN
  | FInf _ => FInf false
  | FFinite _ m e => FFinite false m e
  end.

(** The literal [1e8]. *)
Definition f1e8 : binary := FFinite false 100000000 0.

(** ** The printf conversions

    third_party/stb_sprintf.h and the C library's [sprintf] are not among
    the sources. The conversions below follow the C standard's description
    of [%f], [%e] and [%g], rounding the exact value half-to-even; the
    decimal point is a parameter because [std::sprintf] takes it from the
    locale. *)

Definition digit_char (n : Z) : ascii := ascii_of_N (Z.to_N (48 + n mod 10)).

(** Exactly [w] decimal digits of [n], least significant last. *)
Fixpoint digits_w (w : nat) (n : Z) (acc : string) : string :=
  match w with
  | O => acc
  | S w' => digits_w w' (n / 10) (String (digit_char n) acc)
  end.

(** The decimal digits of [n >= 0], without leading zeros. *)
Fixpoint uint_digits (fuel : nat) (n : Z) (acc : string) : string :=
  let acc' := String (digit_char n) acc in
  match fuel with
  | O => acc'
  | S f => if n / 10 =? 0 then acc' else uint_digits f (n / 10) acc'
  end.

Definition decimal (n : Z) : string := uint_digits (Z.to_nat (Z.log2 n)) n "".

(** [num / den] rounded to the nearest integer, ties to even. *)
Definition round_div (num den : Z) : Z :=
  let q := num / den in
  let r := num mod den in
  if 2 * r <? den then q
  else if den <? 2 * r then q + 1
  else if Z.even q then q else q + 1.

(** A finite magnitude [m * 2^e] as a fraction of integers. *)
Definition numerator (m : N) (e : Z) : Z := Z.of_N m * 2 ^ Z.max e 0.
Definition denominator (e : Z) : Z := 2 ^ Z.max (- e) 0.

Definition sign_text (neg : bool) : string := if neg then "-" else "".

(** Modelled from the spec: the [%.{prec}f] conversion of [sprintf], for
    the magnitude [num/den]. "emits exactly precision fractional
    digits". *)
Definition fixed_text (dp : ascii) (prec : nat) (num den : Z) : string :=
  let s := round_div (num * 10 ^ Z.of_nat prec) den in
  let ip := decimal (s / 10 ^ Z.of_nat prec) in
  match prec with
  | O => ip
  | _ => ip ++ String dp (digits_w prec (s mod 10 ^ Z.of_nat prec) "")
  end.

(** The least [k >= 1] with [num * 10^k >= den], searched upwards. *)
Fixpoint first_digit_pos (fuel : nat) (k : Z) (num den : Z) : Z :=
  match fuel with
  | O => k
  | S f => if den <=? num * 10 ^ k then k else first_digit_pos f (k + 1) num den
  end.

(** [floor (log10 (num/den))] for a positive fraction. *)
Definition floor_log10 (num den : Z) : Z :=
  if den <=? num
  then Z.of_nat (String.length (decimal (num / den))) - 1
  else - first_digit_pos (Z.to_nat (Z.log2 den)) 1 num den.

(** [sig] significant digits of [num/den] and the decimal exponent of the
    first one, after rounding. *)
Definition significand (sig : nat) (num den : Z) : Z * Z :=
  if num =? 0 then (0, 0)
  else
    let x0 := floor_log10 num den in
    let sh := Z.of_nat sig - 1 - x0 in
    let d := if 0 <=? sh then round_div (num * 10 ^ sh) den
             else round_div num (den * 10 ^ (- sh)) in
    if 10 ^ Z.of_nat sig <=? d then (d / 10, x0 + 1) else (d, x0).

(** Drop the zeros that end a fractional part. *)
Fixpoint strip_zeros (s : string) : string :=
  match s with
  | EmptyString => ""
  | String c r =>
      match strip_zeros r with
      | EmptyString => if Ascii.eqb c "0" then "" else String c ""
      | r' => String c r'
      end
  end.

Definition with_fraction (dp : ascii) (ip fp : string) : string :=
  match fp with
  | EmptyString => ip
  | _ => ip ++ String dp fp
  end.

Definition exponent_text (min_digits : nat) (x : Z) : string :=
  let ds := decimal (Z.abs x) in
  String "e" ((if x <? 0 then "-" else "+")
              ++ digits_w (min_digits - String.length ds) 0 "" ++ ds).

(** Modelled from the spec: the [%.{prec}g] conversion of [sprintf], for
    the magnitude [num/den]; [prec = 0] counts as 1. "a fixed
    significant-digit budget, choosing fixed or scientific notation". *)
Definition general_text (dp : ascii) (exp_digits : nat) (prec : nat)
    (num den : Z) : string :=
  let P := Nat.max prec 1 in
  let '(d, x) := significand P num den in
  if (x <? -4) || (Z.of_nat P <=? x) then
    let all := digits_w P d "" in
    match all with
    | String c r => with_fraction dp (String c "") (strip_zeros r)
                      ++ exponent_text exp_digits x
    | EmptyString => ""
    end
  else
    let q := Z.to_nat (Z.of_nat P - 1 - x) in
    let s := round_div (num * 10 ^ Z.of_nat q) den in
    with_fraction dp (decimal (s / 10 ^ Z.of_nat q))
      (strip_zeros (digits_w q (s mod 10 ^ Z.of_nat q) "")).

Inductive conversion :=
| conv_f (prec : nat)   (* "%.*f" *)
| conv_g (prec : nat).  (* "%.9g", "%.6g"; "%g" is [conv_g 6] *)

(** What the C runtime contributes to [std::sprintf]: the decimal point of
    the current locale, and the least number of exponent digits the
    platform's library prints. *)
Record c_runtime := mkRuntime {
  decimal_point : ascii;
  exponent_digits : nat
}.

(** Modelled from the spec: [sprintf(buf, "%...", d)] for one floating
    argument, the text it produces. *)
Definition format (dp : ascii) (exp_digits : nat) (cv : conversion)
    (d : binary) : string :=
  match d with
  | FNaN => "nan"
  | FInf neg => sign_text neg ++ "inf"
  | FFinite neg m e =>
      sign_text neg ++
      match cv with
      | conv_f prec => fixed_text dp prec (numerator m e) (denominator e)
      | conv_g prec =>
          general_text dp exp_digits prec (numerator m e) (denominator e)
      end
  end.

(** Lines 8-18: [gstb_sprintf] is [std::sprintf] under USE_STD_SNPRINTF
    and stb's own implementation otherwise, which consults no locale. *)
Definition gstb_sprintf (USE_STD_SNPRINTF : bool) (rt : c_runtime)
    (cv : conversion) (d : binary) : string :=
  if USE_STD_SNPRINTF
  then format (decimal_point rt) (exponent_digits rt) cv d
  else format "." 2 cv d.

(** What comes of [sprintf(buf, ...)] into [char buf[size]]: the text and
    its terminating NUL are stored, which needs [len + 1] bytes. *)
Inductive written :=
| Text (s : string)
| Overrun (needed : nat).

(** [int len = gstb_sprintf(buf, ...); return std::string(buf, len > 0 ? len : 0);] *)
Definition via_buffer (size : nat) (text : string) : written :=
  if (String.length text + 1 <=? size)%nat then Text text
  else Overrun (String.length text + 1).

Section Build.
Variable USE_STD_SNPRINTF : bool.
Variable rt : c_runtime.

(** [to_str(double)], lines 23-27. *)
Definition to_str_double (d : binary) : written :=
  via_buffer 24 (gstb_sprintf USE_STD_SNPRINTF rt (conv_g 9) d).

(** [to_str(float)], lines 29-33. *)
Definition to_str_float (d : binary) : written :=
  via_buffer 16 (gstb_sprintf USE_STD_SNPRINTF rt (conv_g 6) d).

(** The test on line 39. *)
Definition in_fixed_range (d : binary) : bool :=
  fgt d (fneg f1e8) && flt d f1e8.

(** [to_str_prec<Prec>], lines 35-42. [None]: the [static_assert] fails
    and the instantiation does not compile. *)
Definition to_str_prec (Prec : Z) : option (binary → written) :=
  if (0 <=? Prec) && (Prec <? 7) then
    Some (λ d,
      via_buffer 16
        (if in_fixed_range d
         then gstb_sprintf USE_STD_SNPRINTF rt (conv_f (Z.to_nat Prec)) d
         else gstb_sprintf USE_STD_SNPRINTF rt (conv_g 6) d))
  else None.

End Build.

End Sprintf.

(* ===================================================================== *)
(** * Sample inputs *)
(* ===================================================================== *)

Module Samples.
Import Cif Mol Mmcif.

(** A stand-in for [Residue::UnknownId] where a concrete value is needed. *)
Definition unknown_id : Z := -1000.

(** An [_atom_site] row; the columns are those of [atom_site_fields]. *)
Definition atom_row (id alt comp seq ins x occ biso charge auth_seq : string)
  : Row :=
  [id; "C"; "CA"; alt; comp; "A"; seq; ins; x; "2.5"; "-3e1";
   occ; biso; charge; auth_seq; "A"; "1"].

Definition ala_1 : Row := atom_row "1" "." "ALA" "1" "?" "1.0" "0.5" "20.5" "-1" "1".
(** Same sequence number and name as [ala_1], other author number. *)
Definition ala_1_auth_7 : Row := atom_row "2" "." "ALA" "1" "?" "1.0" "." "?" "?" "7".
(** Unknown sequence number, insertion codes A and B. *)
Definition hoh_ins_A : Row := atom_row "3" "." "HOH" "." "A" "1.0" "." "?" "?" "5".
Definition hoh_ins_B : Row := atom_row "4" "." "HOH" "." "B" "1.0" "." "?" "?" "5".
(** Two characters in the alt-loc cell. *)
Definition ala_alt_AB : Row := atom_row "5" "AB" "ALA" "1" "?" "1.0" "." "?" "?" "1".
(** Two characters in the insertion-code cell. *)
Definition ala_ins_AB : Row := atom_row "6" "." "ALA" "1" "AB" "1.0" "." "?" "?" "1".
(** A coordinate that is not a number. *)
Definition ala_bad_x : Row := atom_row "7" "." "ALA" "1" "?" "1.o" "." "?" "?" "1".

Definition atom_site_table (rs : list Row) : Table :=
  mkTable (List.map (λ f, "_atom_site." ++ f) atom_site_fields) rs.

Definition aniso_table (rs : list Row) : Table :=
  mkTable ["_atom_site_anisotrop.id";
           "_atom_site_anisotrop.U[1][1]"; "_atom_site_anisotrop.U[2][2]";
           "_atom_site_anisotrop.U[3][3]"; "_atom_site_anisotrop.U[1][2]";
           "_atom_site_anisotrop.U[1][3]"; "_atom_site_anisotrop.U[2][3]"] rs.

(** An anisotropic row for atom 1 whose U[3][3] is the [?] marker. *)
Definition aniso_1 : Row := ["1"; "0.25"; "0.5"; "?"; "0"; "0.125"; "-0.5"].

Definition ncs_table (rs : list Row) : Table :=
  mkTable (List.map (λ f, "_struct_ncs_oper." ++ f)
             ["id"; "code"; "matrix[1][1]"; "matrix[1][2]"; "matrix[1][3]";
              "matrix[2][1]"; "matrix[2][2]"; "matrix[2][3]";
              "matrix[3][1]"; "matrix[3][2]"; "matrix[3][3]";
              "vector[1]"; "vector[2]"; "vector[3]"]) rs.

Definition ncs_given : list string :=
  ["1"; "given"; "1"; "0"; "0"; "0"; "1"; "0"; "0"; "0"; "1"; "0"; "0"; "0"].
Definition ncs_generate : list string :=
  ["2"; "generate"; "0"; "1"; "0"; "1"; "0"; "0"; "0"; "0"; "1"; "0.5"; "0"; "0"].
Definition ncs_null : list string :=
  ["3"; "?"; "0"; "1"; "0"; "1"; "0"; "0"; "0"; "0"; "1"; "0.5"; "0"; "0"].


Definition block_of (ts : list Table) : Block := mkBlock "1ABC" ts.

End Samples.

(* ===================================================================== *)
(** * Vocabulary of the statements *)
(* ===================================================================== *)

Import Cif Mol Mmcif Sprintf.

Definition raises {A} (r : result A) : Prop := ∃ e, r = Throw e.

Definition aborts {A} (r : result A) : Prop := ∃ a, r = Abort a.

(** The six anisotropic components of an atom. *)
Definition anisou (atom : Atom.t) : list number :=
  [Atom.u11 atom; Atom.u22 atom; Atom.u33 atom;
   Atom.u12 atom; Atom.u13 atom; Atom.u23 atom].

Definition components (u : array6) : list number :=
  [at0 u; at1 u; at2 u; at3 u; at4 u; at5 u].

(** A required numeric field of an atom row does not parse: one of the
    three coordinates, or a formal charge that is not a no-value marker. *)
Definition required_numeric_malformed (row : Row) : Prop :=
  raises (as_number1 (cell row kX)) ∨ raises (as_number1 (cell row kY))
  ∨ raises (as_number1 (cell row kZ))
  ∨ (is_null (cell row kCharge) = false ∧ raises (as_int1 (cell row kCharge))).

(** What the linkage leaves in a chain, relative to the final entity list:
    the entity with the id the table gives for the chain's label, or no
    entity when the table has no row for it. *)
Definition linked (chain_to_entity : TableView) (es : list Entity.t)
    (ch ch' : Chain.t) : Prop :=
  Chain.name ch' = Chain.name ch ∧ Chain.auth_name ch' = Chain.auth_name ch ∧
  Chain.residues ch' = Chain.residues ch ∧
  match find_row chain_to_entity (Chain.name ch) with
  | Ok row => ∃ ei ent, Chain.entity ch' = Some ei ∧ es !! ei = Some ent ∧
                        Entity.id ent = as_str row 1
  | _ => Chain.entity ch' = None
  end.

Definition linked_model (chain_to_entity : TableView) (es : list Entity.t)
    (m m' : Model.t) : Prop :=
  Model.name m' = Model.name m ∧
  Forall2 (linked chain_to_entity es) (Model.chains m) (Model.chains m').

(** The models of a structure with one model and one chain, named after
    the row that opened them. *)
Definition one_chain (r : Row) (residues : list Residue.t) : list Model.t :=
  [Model.mk (cell r kModelNum)
     [Chain.mk (as_str r kAsymId) (as_str r kAuthAsymId) None residues]].

Definition ins_code_of (r : Row) : ascii := char0 (as_string (cell r kInsCode)).

(** The second of two rows belongs to the model and the chain that the
    first one opened. *)
Definition same_chain (r1 r2 : Row) : Prop :=
  cell r2 kModelNum = cell r1 kModelNum ∧
  cell r2 kAsymId = cell r1 kAsymId ∧
  as_string (cell r1 kAsymId) = cell r1 kAsymId.

Definition is_digit (c : ascii) : bool :=
  let n := N_of_ascii c in (48 <=? n)%N && (n <=? 57)%N.

Fixpoint all_digits (s : string) : bool :=
  match s with
  | EmptyString => true
  | String c r => is_digit c && all_digits r
  end.

(** Text in fixed notation with exactly [prec] fractional digits: an
    optional minus sign, at least one digit, and, unless [prec] is 0, the
    decimal point followed by [prec] digits. *)
Definition fixed_notation (dp : ascii) (prec : nat) (text : string) : Prop :=
  ∃ sign ip fp,
    text = sign ++ ip ++ (match prec with O => "" | _ => String dp fp end) ∧
    (sign = "" ∨ sign = "-") ∧
    ip ≠ "" ∧ all_digits ip = true ∧
    all_digits fp = true ∧ String.length fp = prec.

(** The decimal point that [gstb_sprintf] prints. *)
Definition point_of (USE_STD_SNPRINTF : bool) (rt : c_runtime) : ascii :=
  if USE_STD_SNPRINTF then decimal_point rt else "."%char.

(** The value that [add_info] stores under a tag: the first row of the
    tag's view, read as a string. *)
Definition first_value (block : Block) (tag : string) : option string :=
  match rows (find_tag block tag) with
  | t0 :: _ => Some (as_str t0 0)
  | [] => None
  end.

(** The two date tags of lines 60-62. *)
Definition old_date_tag : string := "_database_PDB_rev.date_original".
Definition new_date_tag : string :=
  "_pdbx_database_status.recvd_initial_deposition_date".

(** The tags that [add_info] is called with, the two date tags apart. *)
Definition plain_info_tags : list string :=
  ["_entry.id"; "_cell.Z_PDB"; "_exptl.method"; "_struct.title";
   "_struct_keywords.pdbx_keywords"; "_struct_keywords.text"].

(** All atoms of a list of models, model by model, chain by chain, residue
    by residue. *)
Definition atoms_of_chain (ch : Chain.t) : list Atom.t :=
  Chain.residues ch ≫= Residue.atoms.
Definition atoms_of_model (m : Model.t) : list Atom.t :=
  Model.chains m ≫= atoms_of_chain.
Definition all_atoms (ms : list Model.t) : list Atom.t :=
  ms ≫= atoms_of_model.

(** A list [lb] that a find-or-add has made of [l], with the place [i] and
    the element [x] it returns: [lb] is [l] itself, or [l] with the new
    element [x], which satisfies [E], appended and [i] its place. *)
Definition based {A} (E : A → Prop) (l lb : list A) (i : nat) (x : A) : Prop :=
  lb !! i = Some x ∧ (lb = l ∨ (E x ∧ lb = (l ++ [x])%list ∧ i = List.length l)).

(** Nothing is empty in the tree: every residue has an atom, every chain a
    residue, every model a chain. *)
Definition full_residue (r : Residue.t) : Prop := Residue.atoms r ≠ [].
Definition full_chain (ch : Chain.t) : Prop :=
  Chain.residues ch ≠ [] ∧ Forall full_residue (Chain.residues ch).
Definition full_model (m : Model.t) : Prop :=
  Model.chains m ≠ [] ∧ Forall full_chain (Model.chains m).

(** A residue with one more atom at the end of its list (line 155). *)
Definition with_atom (r : Residue.t) (atom : Atom.t) : Residue.t :=
  Residue.mk (Residue.seq_id r) (Residue.auth_seq_id r) (Residue.ins_code r)
    (Residue.name r) (Residue.atoms r ++ [atom])%list.

(** The models after a row: in the list [mb] the model at [mi], in its
    chains [cb] the chain at [ci], in its residues [rb] the residue at [ri]
    has received the atom. *)
Definition row_tree (mb : list Model.t) (mi : nat) (m : Model.t)
    (cb : list Chain.t) (ci : nat) (ch : Chain.t) (auth_name : string)
    (rb : list Residue.t) (ri : nat) (r : Residue.t) (atom : Atom.t)
  : list Model.t :=
  <[mi := Model.mk (Model.name m)
            (<[ci := Chain.mk (Chain.name ch) auth_name (Chain.entity ch)
                       (<[ri := with_atom r atom]> rb)]> cb)]> mb.

(** An entity keeps its id and type. *)
Definition same_identity (e e' : Entity.t) : Prop :=
  Entity.id e' = Entity.id e ∧ Entity.type e' = Entity.type e.

(** The entity list [es'] continues [es]: it starts with the entities of
    [es], each with its id and type, in the same order. *)
Definition continues (es es' : list Entity.t) : Prop :=
  ∃ front rest, es' = (front ++ rest)%list ∧ Forall2 same_identity es front.

(** All sequence entries of a list of entities, entity by entity. *)
Definition all_sequence (es : list Entity.t) : list (Z * string) :=
  es ≫= Entity.sequence.

(** The model, chain and residue carry the names of the row: the model the
    model number; the chain the chain label, as the cell stands (compared
    on line 115) or read as a string (passed on line 116); the residue the
    sequence number, and the residue name as the cell stands (compared on
    line 123) or read as a string (passed on line 129). *)
Definition named_by (UnknownId : Z) (row : Row) (m : Model.t) (ch : Chain.t)
    (r : Residue.t) : Prop :=
  Model.name m = cell row kModelNum ∧
  (Chain.name ch = cell row kAsymId ∨ Chain.name ch = as_str row kAsymId) ∧
  as_int (cell row kSeqId) UnknownId = Ok (Residue.seq_id r) ∧
  (Residue.name r = cell row kCompId ∨ Residue.name r = as_str row kCompId).

(** Where an atom is filed: under a model, a chain and a residue. *)
Record filed := mkFiled {
  in_model : string;
  in_chain : string;
  in_seq_id : Z;
  in_residue : string;
  the_atom : Atom.t
}.

Definition filed_in_residue (mname cname : string) (r : Residue.t)
  : list filed :=
  mkFiled mname cname (Residue.seq_id r) (Residue.name r) <$> Residue.atoms r.
Definition filed_in_chain (mname : string) (ch : Chain.t) : list filed :=
  Chain.residues ch ≫= filed_in_residue mname (Chain.name ch).
Definition filed_in_model (m : Model.t) : list filed :=
  Model.chains m ≫= filed_in_chain (Model.name m).
Definition all_filed (ms : list Model.t) : list filed := ms ≫= filed_in_model.

(** The entry [p] is where the row asks its atom to be. *)
Definition filed_by (UnknownId : Z) (aniso_map : gmap string array6)
    (row : Row) (p : filed) : Prop :=
  in_model p = cell row kModelNum ∧
  (in_chain p = cell row kAsymId ∨ in_chain p = as_str row kAsymId) ∧
  as_int (cell row kSeqId) UnknownId = Ok (in_seq_id p) ∧
  (in_residue p = cell row kCompId ∨ in_residue p = as_str row kCompId) ∧
  make_atom aniso_map row = Ok (the_atom p).

(** Every residue of the tree holds its atoms in the order of [atoms]. *)
Definition in_order_of (atoms : list Atom.t) (m : Model.t) : Prop :=
  Forall (λ ch, Forall (λ r, sublist (Residue.atoms r) atoms)
                  (Chain.residues ch))
    (Model.chains m).

(** The test of lines 123-125 as the claim words it: no residue is open
    in the chain, or the sequence number differs from the open residue's,
    or the residue-name cell differs from its name, or the sequence number
    is unknown and the author number or the insertion code differs. *)
Definition residue_boundary (UnknownId : Z) (open : option Residue.t)
    (seq_id auth_seq_id : Z) (ins_code : ascii) (row : Row) : Prop :=
  match open with
  | None => True
  | Some r =>
      seq_id ≠ Residue.seq_id r
      ∨ cell row kCompId ≠ Residue.name r
      ∨ (seq_id = UnknownId
         ∧ (Residue.auth_seq_id r ≠ auth_seq_id
            ∨ Residue.ins_code r ≠ ins_code))
  end.

(** The cursor when the test of line 123 is made: lines 111-119 are done,
    the model and the chain of the row are under the cursor. *)
Definition at_residue_test (cur : Cursor) (row : Row) : Cursor :=
  select_chain (select_model cur row) row.

(** A chain whose residue at [ri] has received the atom. *)
Definition put_atom (ri : nat) (atom : Atom.t) (ch : Chain.t) : Chain.t :=
  Chain.mk (Chain.name ch) (Chain.auth_name ch) (Chain.entity ch)
    (alter (λ r, with_atom r atom) ri (Chain.residues ch)).

(* ===================================================================== *)
(** * Properties *)
(* ===================================================================== *)


(** ** The embedding at work *)

(** Scenario A of the specification: three rows of one residue. *)
Example scenario_A :
  ∃ a1 a2 a3,
    build_models Samples.unknown_id false ∅
      [Samples.ala_1;
       Samples.atom_row "2" "." "ALA" "1" "?" "2.0" "." "?" "?" "1";
       Samples.atom_row "3" "." "ALA" "1" "?" "3.0" "." "?" "?" "1"]
    = Ok (one_chain Samples.ala_1 [Residue.mk 1 1 "000" "ALA" [a1; a2; a3]])
    ∧ List.map (λ a, x (Atom.pos a)) [a1; a2; a3] = [Num 1; Num 2; Num 3].
Proof. eexists _, _, _. split; vm_compute; reflexivity. Qed.

(** Scenario B: the chain label A under model 1, then under model 2. *)
Example scenario_B :
  ∃ r1 r2,
    build_models Samples.unknown_id false ∅
      [["1"; "C"; "CA"; "."; "ALA"; "A"; "1"; "?"; "0"; "0"; "0";
        "1"; "10"; "?"; "1"; "A"; "1"];
       ["1"; "C"; "CA"; "."; "ALA"; "A"; "1"; "?"; "0"; "0"; "0";
        "1"; "10"; "?"; "1"; "A"; "2"]]
    = Ok [Model.mk "1" [Chain.mk "A" "A" None [r1]];
          Model.mk "2" [Chain.mk "A" "A" None [r2]]].
Proof. eexists _, _. vm_compute. reflexivity. Qed.

(** Some texts of the formatter in the default build. *)
Example to_str_samples :
  List.map (to_str_double false (mkRuntime "." 2))
    [FFinite false 3 (-1); FFinite false 0 0; FFinite true 1 (-10);
     FFinite false 123456789 0; FFinite false 1000000000 0;
     FFinite true 1 (-20); FInf true; FNaN]
  = [Text "1.5"; Text "0"; Text "-0.0009765625"; Text "123456789";
     Text "1e+09"; Text "-9.53674316e-07"; Text "-inf"; Text "nan"]
  ∧ List.map (to_str_float false (mkRuntime "." 2))
      [FFinite false 13421773 (-27); FFinite false 1234567 0]
    = [Text "0.1"; Text "1.23457e+06"].
Proof. split; vm_compute; reflexivity. Qed.

(** The cast [(float)] in the anisotropic-U loader: 16777217 has 25
    significant bits and is stored as 16777216; 0.1 becomes the binary32
    nearest to it; 1e39 is past the largest float; 1e-50 is below the least
    one. *)
Example narrowing_in_the_loader :
  anisotropic_row ["7"; "16777217"; "0.1"; "1e39"; "-1e39"; "1e-50"; "0.25"]
  = Ok (mkArray6 (Num 16777216) (Num (13421773 # 134217728)) (Inf false)
          (Inf true) (Num 0) (Num (1 # 4))).
Proof. vm_compute. reflexivity. Qed.

(** ** The result monad *)

Lemma bind_Ok {A B} (m : result A) (f : A → result B) (b : B) :
  m ≫= f = Ok b → ∃ a, m = Ok a ∧ f a = Ok b.
Proof. destruct m; simpl; intros H; try discriminate. eauto. Qed.

Ltac inv_bind H :=
  let a := fresh "v" in
  let Ha := fresh "Hv" in
  apply bind_Ok in H; destruct H as (a & Ha & H).

Lemma not_Ok_cases {A} (r : result A) :
  (∀ v, r ≠ Ok v) → raises r ∨ aborts r.
Proof.
  destruct r; intros H; [ exfalso; eapply H; reflexivity
                        | left; eexists; reflexivity
                        | right; eexists; reflexivity ].
Qed.

Lemma bind_no_abort {A B} (m : result A) (f : A → result B) :
  ¬ aborts m → (∀ a, ¬ aborts (f a)) → ¬ aborts (m ≫= f).
Proof.
  intros Hm Hf. destruct m; simpl; [ apply Hf | | ].
  - intros [? ?]; discriminate.
  - intros _. apply Hm. eexists; reflexivity.
Qed.

(** ** cif helpers *)

Lemma as_number_null s d : is_null s = true → as_number s d = Ok d.
Proof. unfold as_number. intros ->. reflexivity. Qed.

Lemma as_number_no_abort s d : ¬ aborts (as_number s d).
Proof.
  unfold as_number. destruct (is_null s); [ intros [? ?]; discriminate | ].
  destruct (parse_number s); intros [? ?]; discriminate.
Qed.

Lemma as_number_is_Num s q v : as_number s (Num q) = Ok v → ∃ q', v = Num q'.
Proof.
  unfold as_number. destruct (is_null s).
  - intros [= <-]. eauto.
  - destruct (parse_number s); intros [= <-]. eauto.
Qed.

Lemma as_int_no_abort s d : ¬ aborts (as_int s d).
Proof.
  unfold as_int. destruct (parse_int s); intros [? ?]; discriminate.
Qed.

Lemma as_string_null s : is_null s = true → as_string s = "".
Proof. unfold as_string. intros ->. reflexivity. Qed.


(** ** The Atom of a row *)

(** What [make_atom] computes, field by field. *)
Lemma make_atom_Ok aniso_map row atom :
  make_atom aniso_map row = Ok atom →
  ∃ charge px py pz occ b_iso,
    (if is_null (cell row kCharge) then Ok 0 else as_int1 (cell row kCharge))
      = Ok charge ∧
    as_number1 (cell row kX) = Ok px ∧
    as_number1 (cell row kY) = Ok py ∧
    as_number1 (cell row kZ) = Ok pz ∧
    as_number (cell row kOcc) (num_of_Z 1) = Ok occ ∧
    as_number (cell row kBiso) (num_of_Z 50) = Ok b_iso ∧
    atom = set_anisotropic aniso_map row
             (Atom.mk (as_string (cell row kAtomId))
                (char0 (as_string (cell row kAltId))) charge
                (mkElement (as_string (cell row kSymbol)))
                (mkPosition px py pz) occ b_iso
                unset_u unset_u unset_u unset_u unset_u unset_u).
Proof.
  unfold make_atom. intros H.
  inv_bind H. inv_bind H. inv_bind H. inv_bind H. inv_bind H. inv_bind H.
  injection H as <-. repeat eexists; eassumption.
Qed.

Lemma set_anisotropic_keeps aniso_map row atom :
  let atom' := set_anisotropic aniso_map row atom in
  Atom.name atom' = Atom.name atom ∧ Atom.altloc atom' = Atom.altloc atom ∧
  Atom.charge atom' = Atom.charge atom ∧ Atom.occ atom' = Atom.occ atom ∧
  Atom.b_iso atom' = Atom.b_iso atom ∧ Atom.pos atom' = Atom.pos atom.
Proof.
  unfold set_anisotropic. case_bool_decide; [ done | ].
  destruct (aniso_map !! cell row kId); done.
Qed.

Lemma make_atom_no_abort aniso_map row : ¬ aborts (make_atom aniso_map row).
Proof.
  unfold make_atom.
  apply bind_no_abort.
  { destruct (is_null _); [ intros [? ?]; discriminate | ].
    unfold as_int1. destruct (parse_int _); intros [? ?]; discriminate. }
  intros ?. repeat (apply bind_no_abort; [ apply as_number_no_abort | intros ? ]).
  intros [? ?]; discriminate.
Qed.

(** C4. Null coercion in the Atom of a row: a no-value occupancy cell gives
    occupancy 1.0, a no-value B_iso cell gives 50.0, a no-value formal
    charge gives 0, and any other charge cell is read as an integer. The
    Atom exists as soon as the charge is null or an integer and the three
    coordinates parse, whatever is missing among occupancy and B_iso. *)
Theorem C4_null_coercion (aniso_map : gmap string array6) (row : Row) :
  (∀ atom, make_atom aniso_map row = Ok atom →
     (is_null (cell row kOcc) = true → Atom.occ atom = Num 1) ∧
     (is_null (cell row kBiso) = true → Atom.b_iso atom = Num 50) ∧
     (is_null (cell row kCharge) = true → Atom.charge atom = 0) ∧
     (is_null (cell row kCharge) = false →
        parse_int (cell row kCharge) = Some (Atom.charge atom))) ∧
  (is_null (cell row kOcc) = true → is_null (cell row kBiso) = true →
   (is_null (cell row kCharge) = true
    ∨ ∃ n, parse_int (cell row kCharge) = Some n) →
   (∃ px py pz, as_number1 (cell row kX) = Ok px ∧
                as_number1 (cell row kY) = Ok py ∧
                as_number1 (cell row kZ) = Ok pz) →
   ∃ atom, make_atom aniso_map row = Ok atom).
Proof.
  split.
  - intros atom H.
    apply make_atom_Ok in H
      as (charge & px & py & pz & occ & b_iso & Hc & _ & _ & _ & Ho & Hb & ->).
    destruct (set_anisotropic_keeps aniso_map row
      (Atom.mk (as_string (cell row kAtomId))
         (char0 (as_string (cell row kAltId))) charge
         (mkElement (as_string (cell row kSymbol)))
         (mkPosition px py pz) occ b_iso
         unset_u unset_u unset_u unset_u unset_u unset_u))
      as (_ & _ & -> & -> & -> & _).
    simpl. repeat split.
    + intros Hn. rewrite (as_number_null _ _ Hn) in Ho.
      injection Ho as <-. reflexivity.
    + intros Hn. rewrite (as_number_null _ _ Hn) in Hb.
      injection Hb as <-. reflexivity.
    + intros Hn. rewrite Hn in Hc. congruence.
    + intros Hn. rewrite Hn in Hc. unfold as_int1 in Hc.
      destruct (parse_int (cell row kCharge)); congruence.
  - intros Ho Hb Hc (px & py & pz & Hx & Hy & Hz).
    unfold make_atom.
    assert (∃ n, (if is_null (cell row kCharge) then Ok 0
                  else as_int1 (cell row kCharge)) = Ok n) as [n ->].
    { destruct Hc as [-> | [n Hn]]; [ eauto | ].
      destruct (is_null (cell row kCharge)); [ eauto | ].
      unfold as_int1. rewrite Hn. eauto. }
    simpl. rewrite Hx, Hy, Hz. simpl.
    rewrite (as_number_null _ _ Ho), (as_number_null _ _ Hb). simpl. eauto.
Qed.

Lemma C4_null_coercion_witness :
  ∃ atom, make_atom ∅ Samples.ala_1_auth_7 = Ok atom ∧
          Atom.occ atom = Num 1 ∧ Atom.b_iso atom = Num 50 ∧
          Atom.charge atom = 0.
Proof.
  destruct (C4_null_coercion ∅ Samples.ala_1_auth_7) as [Hv Hex].
  destruct Hex as [atom Hatom];
    [ reflexivity | reflexivity | left; reflexivity
    | eexists _, _, _; repeat split; reflexivity | ].
  exists atom. split; [ exact Hatom | ].
  destruct (Hv atom Hatom) as (Ho & Hb & Hc & _).
  repeat split; [ apply Ho | apply Hb | apply Hc ]; reflexivity.
Defined.

(** ** The anisotropic-U loader *)

(** The cast keeps a number a number or makes it an infinity; it never
    gives the not-a-number that marks an unset component. *)
Lemma to_float_set q : to_float (Num q) ≠ NaN.
Proof.
  unfold to_float. destruct (Qnum q ?= 0); [ discriminate | | ];
    destruct (float_magnitude _ _); discriminate.
Qed.

Lemma anisotropic_row_Ok ani u :
  anisotropic_row ani = Ok u →
  ∀ i c, components u !! i = Some c →
         ∃ n, as_number1 (cell ani (S i)) = Ok n ∧ c = to_float n.
Proof.
  unfold anisotropic_row. intros H.
  inv_bind H. inv_bind H. inv_bind H. inv_bind H. inv_bind H. inv_bind H.
  injection H as <-. intros i c.
  do 6 (destruct i as [|i]; [ simpl; intros [= <-]; eauto | ]).
  simpl. discriminate.
Qed.

Lemma anisotropic_row_set ani u :
  anisotropic_row ani = Ok u → ∀ c, c ∈ components u → c ≠ unset_u.
Proof.
  intros H c Hc. apply list_elem_of_lookup in Hc as [i Hi].
  apply (anisotropic_row_Ok _ _ H) in Hi as (n & Hn & ->).
  unfold as_number1, num_of_Z in Hn.
  apply as_number_is_Num in Hn as [q ->]. apply to_float_set.
Qed.

Lemma find_append {A} (P : A → bool) (l1 l2 : list A) :
  List.find P (l1 ++ l2) =
  match List.find P l1 with
  | Some v => Some v
  | None => List.find P l2
  end.
Proof.
  induction l1 as [|v l1 IH]; simpl; [ reflexivity | ].
  destruct (P v); [ reflexivity | exact IH ].
Qed.

(** The keys of the map are the ids of the rows, and each entry is the
    element made from the last row that has its id. *)
Lemma fill_aniso_map_lookup tab : ∀ m0 m key,
  fill_aniso_map m0 tab = Ok m →
  m !! key =
    match List.find (λ ani, (cell ani 0 =? key)%string) (rev tab) with
    | Some ani => match anisotropic_row ani with
                  | Ok u => Some u
                  | _ => None
                  end
    | None => m0 !! key
    end
  ∧ ∀ ani, ani ∈ tab → ∃ u, anisotropic_row ani = Ok u.
Proof.
  induction tab as [|ani rest IH]; intros m0 m key H; simpl in H.
  - injection H as <-. split; [ reflexivity | ]. intros ? Hin. inversion Hin.
  - inv_bind H. destruct (IH _ _ key H) as [Hl Hall]. split.
    + rewrite Hl. simpl. rewrite find_append.
      destruct (List.find _ (rev rest)); [ reflexivity | ].
      simpl. destruct (String.eqb_spec (cell ani 0) key) as [-> | Hne].
      * rewrite Hv. apply lookup_insert_eq.
      * apply lookup_insert_ne. exact Hne.
    + intros a Hin. apply elem_of_cons in Hin as [-> | Hin]; eauto.
Qed.

(** C3. The anisotropic-U loader reads each of the six components of every
    row on its own: each is the number that [cif::as_number] gives for its
    cell, narrowed to float; a component that is a no-value marker becomes
    0.0 whatever the other cells hold, and the row is stored under its id
    (the entry is that of the last row with this id). *)
Theorem C3_anisotropic_null_component (block : Block)
    (aniso_map : gmap string array6) :
  get_anisotropic_u block = Ok aniso_map →
  ∀ ani, ani ∈ rows (find block "_atom_site_anisotrop." anisotrop_fields) →
    ∃ u, anisotropic_row ani = Ok u ∧
         is_Some (aniso_map !! cell ani 0) ∧
         (∀ i c, components u !! i = Some c →
            ∃ n, as_number1 (cell ani (S i)) = Ok n ∧ c = to_float n ∧
                 (is_null (cell ani (S i)) = true → c = Num 0)) ∧
         (List.find (λ r, (cell r 0 =? cell ani 0)%string)
            (rev (rows (find block "_atom_site_anisotrop." anisotrop_fields)))
            = Some ani →
          aniso_map !! cell ani 0 = Some u).
Proof.
  unfold get_anisotropic_u. intros H ani Hin.
  destruct (fill_aniso_map_lookup _ _ _ (cell ani 0) H) as [Hl Hall].
  destruct (Hall ani Hin) as [u Hu]. exists u.
  split; [ exact Hu | ]. split; [ | split ].
  - rewrite Hl.
    destruct (List.find _ (rev _)) as [ani'|] eqn:Hf.
    + apply find_some in Hf as [Hin' _]. apply in_rev in Hin'.
      apply list_elem_of_In in Hin'.
      destruct (Hall ani' Hin') as [u' ->]. eauto.
    + exfalso. apply list_elem_of_In, in_rev in Hin.
      apply (find_none _ _ Hf) in Hin. rewrite String.eqb_refl in Hin.
      discriminate.
  - intros i c Hc.
    destruct (anisotropic_row_Ok _ _ Hu _ _ Hc) as (n & Hn & ->).
    exists n. split; [ exact Hn | ]. split; [ reflexivity | ]. intros Hnull.
    unfold as_number1 in Hn. rewrite (as_number_null _ _ Hnull) in Hn.
    injection Hn as <-. reflexivity.
  - intros Hlast. rewrite Hl, Hlast, Hu. reflexivity.
Qed.

Lemma C3_anisotropic_null_component_witness :
  ∃ m, get_anisotropic_u
         (Samples.block_of [Samples.aniso_table [Samples.aniso_1]]) = Ok m ∧
       m !! "1" = Some (mkArray6 (Num (1 # 4)) (Num (1 # 2)) (Num 0)
                          (Num 0) (Num (1 # 8)) (Num (-1 # 2))).
Proof.
  eexists. split; [ reflexivity | ].
  destruct (C3_anisotropic_null_component
              (Samples.block_of [Samples.aniso_table [Samples.aniso_1]])
              _ eq_refl Samples.aniso_1) as (u & Hu & _ & _ & Hlast).
  { apply list_elem_of_In. left. reflexivity. }
  injection Hu as <-. apply Hlast. reflexivity.
Defined.

Lemma set_anisotropic_hit aniso_map row atom ani :
  aniso_map !! cell row kId = Some ani →
  anisou (set_anisotropic aniso_map row atom) = components ani.
Proof.
  intros H. unfold set_anisotropic. case_bool_decide as He.
  - rewrite He, lookup_empty in H. discriminate.
  - rewrite H. reflexivity.
Qed.

Lemma set_anisotropic_miss aniso_map row atom :
  aniso_map !! cell row kId = None →
  set_anisotropic aniso_map row atom = atom.
Proof.
  intros H. unfold set_anisotropic. case_bool_decide; [ reflexivity | ].
  rewrite H. reflexivity.
Qed.

Lemma loaded_entries_are_set block aniso_map key ani :
  get_anisotropic_u block = Ok aniso_map →
  aniso_map !! key = Some ani →
  ∀ c, c ∈ components ani → c ≠ unset_u.
Proof.
  unfold get_anisotropic_u. intros H Hk.
  destruct (fill_aniso_map_lookup _ _ _ key H) as [Hl _].
  rewrite Hk in Hl. destruct (List.find _ _) as [r|].
  - destruct (anisotropic_row r) as [u| |] eqn:Hr; try discriminate.
    injection Hl as <-. eapply anisotropic_row_set; eassumption.
  - rewrite lookup_empty in Hl. discriminate.
Qed.

(** C5. An atom whose id is a key of the anisotropic-U map gets all six
    components from the entry, and they are numbers; an atom whose id is
    not a key keeps the unset sentinel in all six, also when the table is
    absent and the map is empty. The sentinel is no number, so it differs
    from an explicit zero. *)
Theorem C5_anisotropic_presence (block : Block)
    (aniso_map : gmap string array6) (row : Row) (atom : Atom.t) :
  get_anisotropic_u block = Ok aniso_map →
  make_atom aniso_map row = Ok atom →
  (∀ ani, aniso_map !! cell row kId = Some ani →
     anisou atom = components ani ∧ ∀ c, c ∈ anisou atom → c ≠ unset_u) ∧
  (aniso_map !! cell row kId = None → anisou atom = replicate 6 unset_u) ∧
  (rows (find block "_atom_site_anisotrop." anisotrop_fields) = [] →
     aniso_map = ∅ ∧ anisou atom = replicate 6 unset_u) ∧
  (∀ q, unset_u ≠ Num q).
Proof.
  intros Hload Hatom.
  apply make_atom_Ok in Hatom
    as (charge & px & py & pz & occ & b_iso & _ & _ & _ & _ & _ & _ & ->).
  repeat split.
  - apply set_anisotropic_hit. assumption.
  - intros c Hc. rewrite (set_anisotropic_hit _ _ _ _ H) in Hc.
    exact (loaded_entries_are_set _ _ _ _ Hload H c Hc).
  - intros H. rewrite (set_anisotropic_miss _ _ _ H). reflexivity.
  - unfold get_anisotropic_u in Hload. rewrite H in Hload.
    injection Hload as <-. reflexivity.
  - unfold get_anisotropic_u in Hload. rewrite H in Hload.
    injection Hload as <-. reflexivity.
  - discriminate.
Qed.

Lemma C5_anisotropic_presence_witness :
  ∃ m a1 a2,
    get_anisotropic_u
      (Samples.block_of [Samples.aniso_table [Samples.aniso_1]]) = Ok m ∧
    make_atom m Samples.ala_1 = Ok a1 ∧
    make_atom m Samples.ala_1_auth_7 = Ok a2 ∧
    anisou a1 = [Num (1 # 4); Num (1 # 2); Num 0;
                 Num 0; Num (1 # 8); Num (-1 # 2)] ∧
    anisou a2 = [NaN; NaN; NaN; NaN; NaN; NaN] ∧
    (∀ a, make_atom ∅ Samples.ala_1 = Ok a →
          anisou a = [NaN; NaN; NaN; NaN; NaN; NaN]).
Proof.
  eexists _, _, _.
  split; [ reflexivity | ]. split; [ vm_compute; reflexivity | ].
  split; [ vm_compute; reflexivity | ].
  split; [ | split ].
  - destruct (C5_anisotropic_presence
                (Samples.block_of [Samples.aniso_table [Samples.aniso_1]])
                _ Samples.ala_1 _ eq_refl eq_refl) as (Hhit & _).
    destruct (Hhit (mkArray6 (Num (1 # 4)) (Num (1 # 2)) (Num 0)
                      (Num 0) (Num (1 # 8)) (Num (-1 # 2))))
      as [Heq _]; [ reflexivity | exact Heq ].
  - destruct (C5_anisotropic_presence
                (Samples.block_of [Samples.aniso_table [Samples.aniso_1]])
                _ Samples.ala_1_auth_7 _ eq_refl eq_refl) as (_ & Hmiss & _).
    apply Hmiss. reflexivity.
  - intros a Ha.
    destruct (C5_anisotropic_presence (Samples.block_of []) ∅ Samples.ala_1 a
                eq_refl Ha) as (_ & _ & Habsent & _).
    apply Habsent. reflexivity.
Defined.

(** ** The whole function *)

Lemma structure_from_cif_block_Ok UnknownId NDEBUG block st :
  structure_from_cif_block UnknownId NDEBUG block = Ok st →
  ∃ cell ncs aniso_map ms es es' ms',
    read_cell block = Ok cell ∧
    ncs_oper_loop [] (rows (find block "_struct_ncs_oper." ncs_oper_fields))
      = Ok ncs ∧
    get_anisotropic_u block = Ok aniso_map ∧
    build_models UnknownId NDEBUG aniso_map
      (rows (find block "_atom_site." atom_site_fields)) = Ok ms ∧
    poly_seq_loop (read_entities block)
      (rows (find block "_entity_poly_seq." ["entity_id"; "num"; "mon_id"]))
      = Ok es ∧
    link_models (find block "_struct_asym." ["id"; "entity_id"]) es ms
      = Ok (es', ms') ∧
    st = Structure.mk (Cif.name block) cell
           (find_string block "_symmetry.space_group_name_H-M")
           (read_info block) ncs es' ms'.
Proof.
  unfold structure_from_cif_block. intros H.
  inv_bind H. inv_bind H. inv_bind H. inv_bind H. inv_bind H. inv_bind H.
  destruct v4 as [es' ms']. injection H as <-.
  repeat eexists; eassumption.
Qed.

(** ** NCS operators *)

Lemma ncs_oper_loop_Ok tab : ∀ acc ops,
  ncs_oper_loop acc tab = Ok ops →
  ∃ new, ops = (acc ++ new)%list ∧
         Forall2 (λ op o, ncs_oper_row op = Ok o) tab new.
Proof.
  induction tab as [|op rest IH]; intros acc ops H; simpl in H.
  - injection H as <-. exists []. rewrite app_nil_r. split; constructor.
  - inv_bind H. destruct (IH _ _ H) as (new & -> & Hall).
    exists (v :: new). rewrite <- app_assoc. split; [ reflexivity | ].
    constructor; assumption.
Qed.

Lemma ncs_oper_row_given op o :
  ncs_oper_row op = Ok o → given o = (as_str op 12 =? "given")%string.
Proof.
  unfold ncs_oper_row. intros H. do 12 inv_bind H.
  injection H as <-. reflexivity.
Qed.

Lemma cell_insert_ne (row : list string) (i k : nat) (v : string) :
  i ≠ k → cell (<[i := v]> row) k = cell row k.
Proof. intros Hne. unfold cell. rewrite list_lookup_insert_ne; done. Qed.

Lemma ncs_oper_row_code_free op o code :
  ncs_oper_row op = Ok o →
  ncs_oper_row (<[12%nat := code]> (op : list string)) =
  Ok (mkNcsOp (as_str (<[12%nat := code]> (op : list string)) 12 =? "given")%string
        (mat o) (vec o)).
Proof.
  unfold ncs_oper_row, as_num. intros H.
  rewrite !cell_insert_ne by lia.
  do 12 (let a := fresh "v" in let Ha := fresh "Hv" in
         apply bind_Ok in H; destruct H as (a & Ha & H); rewrite Ha; simpl).
  injection H as <-. reflexivity.
Qed.

(** C10. For every row of the NCS-operator table the operator's given-flag
    is true exactly when the code cell, read as a string, is "given"; a
    no-value code gives false. The code never decides whether the operator
    is appended: the list has one operator per row, and a row with any
    other code yields the same operator up to the flag. *)
Theorem C10_ncs_given_flag (UnknownId : Z) (NDEBUG : bool) (block : Block)
    (st : Structure.t) :
  structure_from_cif_block UnknownId NDEBUG block = Ok st →
  Forall2
    (λ op o,
       (given o = true ↔ as_str op 12 = "given") ∧
       (is_null (cell op 12) = true → given o = false) ∧
       ∀ code, ∃ o', ncs_oper_row (<[12%nat := code]> (op : list string)) = Ok o' ∧
                     mat o' = mat o ∧ vec o' = vec o)
    (rows (find block "_struct_ncs_oper." ncs_oper_fields))
    (Structure.ncs st).
Proof.
  intros H.
  apply structure_from_cif_block_Ok in H
    as (cell & ncs & aniso_map & ms & es & es' & ms' & _ & Hncs & _ & _ & _ & _ & ->).
  simpl. apply ncs_oper_loop_Ok in Hncs as (new & -> & Hall). simpl.
  eapply Forall2_impl; [ exact Hall | ].
  intros op o Ho. simpl in Ho. split; [ | split ].
  - rewrite (ncs_oper_row_given _ _ Ho). apply String.eqb_eq.
  - intros Hnull. rewrite (ncs_oper_row_given _ _ Ho).
    unfold as_str. rewrite (as_string_null _ Hnull). reflexivity.
  - intros code. eexists. split; [ apply ncs_oper_row_code_free, Ho | ].
    split; reflexivity.
Qed.

Lemma C10_ncs_given_flag_witness :
  ∃ st, structure_from_cif_block Samples.unknown_id false
          (Samples.block_of
             [Samples.ncs_table
                [Samples.ncs_given; Samples.ncs_generate; Samples.ncs_null]])
        = Ok st ∧
        List.map given (Structure.ncs st) = [true; false; false] ∧
        Forall2 (λ op o, given o = true ↔ as_str op 12 = "given")
          (rows (find (Samples.block_of
                         [Samples.ncs_table
                            [Samples.ncs_given; Samples.ncs_generate;
                             Samples.ncs_null]])
                   "_struct_ncs_oper." ncs_oper_fields))
          (Structure.ncs st).
Proof.
  eexists. split; [ vm_compute; reflexivity | ].
  split; [ reflexivity | ].
  eapply Forall2_impl.
  - apply (C10_ncs_given_flag Samples.unknown_id false
             (Samples.block_of
                [Samples.ncs_table
                   [Samples.ncs_given; Samples.ncs_generate;
                    Samples.ncs_null]]) _ eq_refl).
  - intros op o (H & _). exact H.
Defined.

(** ** Failures of the build *)

Lemma Ok_no_abort {A} (v : A) : ¬ aborts (Ok v).
Proof. intros [? ?]; discriminate. Qed.

Lemma Throw_no_abort {A} e : ¬ aborts (@Throw A e).
Proof. intros [? ?]; discriminate. Qed.

Create HintDb no_abort.
#[local] Hint Resolve Ok_no_abort Throw_no_abort as_number_no_abort
  as_int_no_abort make_atom_no_abort : no_abort.

Lemma read_cell_no_abort block : ¬ aborts (read_cell block).
Proof.
  unfold read_cell. destruct (ok _); [ | apply Ok_no_abort ].
  apply bind_no_abort.
  { unfold one. destruct (rows _) as [|? [|? ?]]; auto with no_abort. }
  intros ?. unfold as_num, as_number1.
  repeat (apply bind_no_abort; [ auto with no_abort | intros ? ]).
  apply Ok_no_abort.
Qed.

Lemma ncs_oper_loop_no_abort tab : ∀ acc, ¬ aborts (ncs_oper_loop acc tab).
Proof.
  induction tab as [|op rest IH]; intros acc; simpl; [ apply Ok_no_abort | ].
  apply bind_no_abort; [ | intros ?; apply IH ].
  unfold ncs_oper_row, as_num, as_number1.
  repeat (apply bind_no_abort; [ auto with no_abort | intros ? ]).
  apply Ok_no_abort.
Qed.

Lemma fill_aniso_map_no_abort tab : ∀ m, ¬ aborts (fill_aniso_map m tab).
Proof.
  induction tab as [|ani rest IH]; intros m; simpl; [ apply Ok_no_abort | ].
  apply bind_no_abort; [ | intros ?; apply IH ].
  unfold anisotropic_row, as_number1.
  repeat (apply bind_no_abort; [ auto with no_abort | intros ? ]).
  apply Ok_no_abort.
Qed.

Lemma poly_seq_loop_no_abort tab : ∀ es, ¬ aborts (poly_seq_loop es tab).
Proof.
  induction tab as [|row rest IH]; intros es; simpl; [ apply Ok_no_abort | ].
  destruct (find_or_add_entity _ _).
  apply bind_no_abort; [ auto with no_abort | intros ?; apply IH ].
Qed.

Lemma select_residue_no_abort UnknownId cur row :
  ¬ aborts (select_residue UnknownId true cur row).
Proof.
  unfold select_residue.
  do 2 (apply bind_no_abort; [ auto with no_abort | intros ? ]).
  destruct (starts_new_residue _ _ _ _ _ _); simpl; apply Ok_no_abort.
Qed.

Lemma atom_site_loop_no_abort UnknownId aniso_map tab : ∀ cur,
  ¬ aborts (atom_site_loop UnknownId true aniso_map cur tab).
Proof.
  induction tab as [|row rest IH]; intros cur; simpl; [ apply Ok_no_abort | ].
  apply bind_no_abort; [ | intros ?; apply IH ].
  unfold atom_site_row.
  apply bind_no_abort; [ apply select_residue_no_abort | intros ? ].
  apply bind_no_abort; [ auto with no_abort | intros ?; apply Ok_no_abort ].
Qed.

(** The loop ends normally only if every row yields an Atom. *)
Lemma atom_site_loop_Ok_atoms UnknownId NDEBUG aniso_map tab : ∀ cur cur',
  atom_site_loop UnknownId NDEBUG aniso_map cur tab = Ok cur' →
  ∀ row, row ∈ tab → ∃ atom, make_atom aniso_map row = Ok atom.
Proof.
  induction tab as [|r rest IH]; intros cur cur' H row Hin.
  - inversion Hin.
  - simpl in H. inv_bind H.
    apply elem_of_cons in Hin as [-> | Hin]; [ | eapply IH; eassumption ].
    unfold atom_site_row in Hv. inv_bind Hv. inv_bind Hv. eauto.
Qed.

Lemma make_atom_needs_numbers aniso_map row atom :
  required_numeric_malformed row → make_atom aniso_map row ≠ Ok atom.
Proof.
  intros Hbad H.
  apply make_atom_Ok in H as (? & ? & ? & ? & ? & ? & Hc & Hx & Hy & Hz & _).
  destruct Hbad as [[e He] | [[e He] | [[e He] | [Hn [e He]]]]];
    try congruence.
  rewrite Hn in Hc. congruence.
Qed.

(** ** Chain linkage *)

Lemma find_row_cases tab s :
  (∃ row, find_row tab s = Ok row ∧ row ∈ rows tab ∧ cell row 0 = s)
  ∨ (find_row tab s = Throw runtime_error
     ∧ ∀ row, row ∈ rows tab → cell row 0 ≠ s).
Proof.
  unfold find_row. destruct (List.find _ (rows tab)) as [row|] eqn:Hf.
  - left. exists row. apply find_some in Hf as [Hin Heq].
    apply String.eqb_eq in Heq. apply list_elem_of_In in Hin. auto.
  - right. split; [ reflexivity | ]. intros row Hin Heq.
    apply list_elem_of_In in Hin. apply (find_none _ _ Hf) in Hin.
    apply String.eqb_neq in Hin. contradiction.
Qed.

Lemma find_or_add_entity_spec id es :
  ∃ es' ei ent, find_or_add_entity id es = (es', ei) ∧ es `prefix_of` es' ∧
                es' !! ei = Some ent ∧ Entity.id ent = id.
Proof.
  unfold find_or_add_entity.
  destruct (list_find _ es) as [[i ent]|] eqn:Hf.
  - apply list_find_Some in Hf as (Hi & Hid & _).
    exists es, i, ent. auto.
  - exists (es ++ [Entity.mk id Unknown []])%list, (List.length es),
      (Entity.mk id Unknown []).
    split; [ reflexivity | ]. split; [ apply prefix_app_r; reflexivity | ].
    split; [ | reflexivity ].
    rewrite lookup_app_r by lia. rewrite Nat.sub_diag. reflexivity.
Qed.

Lemma linked_mono tab es es' ch ch' :
  es `prefix_of` es' → linked tab es ch ch' → linked tab es' ch ch'.
Proof.
  intros Hp (Hn & Ha & Hr & He). repeat split; try assumption.
  destruct (find_row tab (Chain.name ch)); try assumption.
  destruct He as (ei & ent & H1 & H2 & H3). exists ei, ent.
  repeat split; try assumption. eapply prefix_lookup_Some; eassumption.
Qed.

Lemma link_chain_spec tab es ch :
  ∃ es' ch', link_chain tab es ch = Ok (es', ch') ∧ es `prefix_of` es' ∧
             linked tab es' ch ch'.
Proof.
  unfold link_chain, linked.
  destruct (find_row_cases tab (Chain.name ch)) as [(row & -> & _) | [-> _]];
    simpl.
  - destruct (find_or_add_entity_spec (as_str row 1) es)
      as (es' & ei & ent & -> & Hp & Hl & Hid).
    simpl. eexists _, _. split; [ reflexivity | ]. split; [ exact Hp | ].
    simpl. repeat split. eauto.
  - eexists _, _. split; [ reflexivity | ]. split; [ reflexivity | ].
    simpl. auto.
Qed.

Lemma link_chains_spec tab chs : ∀ es,
  ∃ es' chs', link_chains tab es chs = Ok (es', chs') ∧ es `prefix_of` es' ∧
              Forall2 (linked tab es') chs chs'.
Proof.
  induction chs as [|ch rest IH]; intros es; simpl.
  - exists es, []. split; [ reflexivity | ]. split; [ reflexivity | constructor ].
  - destruct (link_chain_spec tab es ch) as (es1 & ch' & -> & Hp1 & Hl).
    simpl. destruct (IH es1) as (es2 & rest' & -> & Hp2 & Hall). simpl.
    exists es2, (ch' :: rest'). split; [ reflexivity | ].
    split; [ etrans; eassumption | ].
    constructor; [ eapply linked_mono; eassumption | assumption ].
Qed.

Lemma link_models_spec tab ms : ∀ es,
  ∃ es' ms', link_models tab es ms = Ok (es', ms') ∧ es `prefix_of` es' ∧
             Forall2 (linked_model tab es') ms ms'.
Proof.
  induction ms as [|m rest IH]; intros es; simpl.
  - exists es, []. split; [ reflexivity | ]. split; [ reflexivity | constructor ].
  - destruct (link_chains_spec tab (Model.chains m) es)
      as (es1 & chs & -> & Hp1 & Hl).
    simpl. destruct (IH es1) as (es2 & rest' & -> & Hp2 & Hall). simpl.
    eexists _, _. split; [ reflexivity | ].
    split; [ etrans; eassumption | ].
    constructor; [ | assumption ].
    split; [ reflexivity | ]. simpl.
    eapply Forall2_impl; [ exact Hl | ].
    intros ch ch' H. eapply linked_mono; eassumption.
Qed.

Lemma link_models_no_abort tab es ms : ¬ aborts (link_models tab es ms).
Proof.
  destruct (link_models_spec tab ms es) as (? & ? & -> & _). apply Ok_no_abort.
Qed.



(** C2. If a required numeric field of some row of the atom table does not
    parse (the x, y or z coordinate, or a formal charge that is present),
    the build returns no Structure: it ends with an exception that reaches
    the caller (or, when assertions are compiled in, possibly with a failed
    assertion on an earlier row). *)
Theorem C2_malformed_coordinate_aborts (UnknownId : Z) (NDEBUG : bool)
    (block : Block) (row : Row) :
  row ∈ rows (find block "_atom_site." atom_site_fields) →
  required_numeric_malformed row →
  (∀ st, structure_from_cif_block UnknownId NDEBUG block ≠ Ok st) ∧
  (raises (structure_from_cif_block UnknownId NDEBUG block)
   ∨ (NDEBUG = false
      ∧ aborts (structure_from_cif_block UnknownId NDEBUG block))).
Proof.
  intros Hin Hbad.
  assert (∀ st, structure_from_cif_block UnknownId NDEBUG block ≠ Ok st)
    as Hno.
  { intros st H.
    apply structure_from_cif_block_Ok in H
      as (cell & ncs & aniso_map & ms & es & es' & ms' &
          _ & _ & _ & Hb & _).
    unfold build_models in Hb. inv_bind Hb.
    destruct (atom_site_loop_Ok_atoms _ _ _ _ _ _ Hv row Hin) as [atom Ha].
    exact (make_atom_needs_numbers _ _ _ Hbad Ha). }
  split; [ exact Hno | ].
  destruct (not_Ok_cases _ Hno) as [Hr | Ha]; [ left; exact Hr | ].
  destruct NDEBUG; [ exfalso | right; auto ].
  revert Ha. unfold structure_from_cif_block.
  apply bind_no_abort; [ apply read_cell_no_abort | intros ? ].
  apply bind_no_abort; [ apply ncs_oper_loop_no_abort | intros ? ].
  apply bind_no_abort; [ apply fill_aniso_map_no_abort | intros ? ].
  apply bind_no_abort.
  { unfold build_models.
    apply bind_no_abort; [ apply atom_site_loop_no_abort | intros ? ].
    apply Ok_no_abort. }
  intros ?. apply bind_no_abort; [ apply poly_seq_loop_no_abort | intros ? ].
  apply bind_no_abort; [ apply link_models_no_abort | intros [? ?] ].
  apply Ok_no_abort.
Qed.

Lemma C2_malformed_coordinate_aborts_witness :
  raises (structure_from_cif_block Samples.unknown_id false
            (Samples.block_of
               [Samples.atom_site_table [Samples.ala_1; Samples.ala_bad_x]])).
Proof.
  destruct (C2_malformed_coordinate_aborts Samples.unknown_id false
              (Samples.block_of
                 [Samples.atom_site_table [Samples.ala_1; Samples.ala_bad_x]])
              Samples.ala_bad_x) as [_ [H | [_ [a Ha]]]].
  - apply list_elem_of_In. right. left. reflexivity.
  - left. eexists. reflexivity.
  - exact H.
  - vm_compute in Ha. discriminate.
Defined.

(** ** The builder pass *)

(** The condition of lines 123-125, when a residue is open. *)
Lemma starts_new_residue_spec UnknownId r seq_id auth_seq_id ins_code row :
  starts_new_residue UnknownId (Some r) seq_id auth_seq_id ins_code row = true
  ↔ seq_id ≠ Residue.seq_id r
    ∨ cell row kCompId ≠ Residue.name r
    ∨ (seq_id = UnknownId
       ∧ (Residue.auth_seq_id r ≠ auth_seq_id
          ∨ Residue.ins_code r ≠ ins_code)).
Proof.
  unfold starts_new_residue.
  rewrite !orb_true_iff, andb_true_iff, orb_true_iff, !negb_true_iff.
  rewrite !Z.eqb_neq, Z.eqb_eq, String.eqb_neq, Ascii.eqb_neq. tauto.
Qed.

Lemma select_residue_Ok UnknownId NDEBUG cur row cur' :
  select_residue UnknownId NDEBUG cur row = Ok cur' →
  ∃ seq_id auth_seq_id,
    as_int (cell row kSeqId) UnknownId = Ok seq_id ∧
    as_int (cell row kAuthSeqId) UnknownId = Ok auth_seq_id ∧
    cur' = if starts_new_residue UnknownId (resi_at cur) seq_id auth_seq_id
                (ins_code_of row) row
           then open_residue cur seq_id auth_seq_id (ins_code_of row)
                  (as_string (cell row kCompId))
           else cur.
Proof.
  unfold select_residue. intros H. inv_bind H. inv_bind H.
  exists v, v0. split; [ assumption | ]. split; [ assumption | ].
  fold (ins_code_of row) in H.
  destruct (starts_new_residue _ _ _ _ _ _); inv_bind H; congruence.
Qed.

(** *** What one row does to the tree (mmcif.hh lines 110-156) *)

Lemma based_lt {A} (E : A → Prop) l lb i x :
  based E l lb i x → (i < List.length lb)%nat.
Proof. intros [H _]. eapply lookup_lt_Some. exact H. Qed.

(** The flattening of a list after the element returned by a find-or-add
    has been replaced by one that flattens to [extra] more. *)
Lemma based_insert_bind {A B} (E : A → Prop) (g : A → list B) l lb i x y extra :
  based E l lb i x → (E x → g x = []) → g y ≡ₚ extra ++ g x →
  (<[i := y]> lb) ≫= g ≡ₚ extra ++ (l ≫= g).
Proof.
  intros [Hi Hb] HE Hy.
  assert (lb ≫= g = l ≫= g) as Heq.
  { destruct Hb as [-> | (Hx & -> & _)]; [ reflexivity | ].
    rewrite bind_app. simpl. rewrite (HE Hx), !app_nil_r. reflexivity. }
  rewrite <- Heq. clear Hb Heq.
  apply list_elem_of_split_length in Hi as (l1 & l2 & -> & ->).
  replace (List.length l1) with (List.length l1 + 0)%nat by lia.
  rewrite insert_app_r. simpl. rewrite !bind_app, !bind_cons, Hy.
  rewrite <- app_assoc. apply Permutation_app_swap_app.
Qed.

(** Replacing that element by one that satisfies [P] makes [P] hold
    throughout, if it held throughout [l]. *)
Lemma based_insert_Forall {A} (E P : A → Prop) l lb i x y :
  based E l lb i x → Forall P l → P y → Forall P (<[i := y]> lb).
Proof.
  intros [Hi Hb] Hl Hy. destruct Hb as [-> | (_ & -> & ->)].
  - apply Forall_insert; assumption.
  - replace (List.length l) with (List.length l + 0)%nat by lia.
    rewrite insert_app_r. simpl. apply Forall_app. split; [ exact Hl | ].
    repeat constructor. exact Hy.
Qed.

Lemma based_element {A} (E P : A → Prop) l lb i x :
  based E l lb i x → Forall P l → P x ∨ E x.
Proof.
  intros [Hi Hb] Hl. destruct Hb as [-> | (Hx & _)]; [ left | right; exact Hx ].
  eapply Forall_lookup_1; eassumption.
Qed.

Lemma insert_nonempty {A} (lb : list A) i x y :
  lb !! i = Some x → <[i := y]> lb ≠ [].
Proof.
  intros Hi Hnil. apply lookup_lt_Some in Hi.
  apply (f_equal List.length) in Hnil. rewrite length_insert in Hnil.
  simpl in Hnil. lia.
Qed.

Lemma find_or_add_model_based name ms :
  ∃ mb mi m, find_or_add_model name ms = (mb, mi) ∧
             based (λ m, Model.chains m = []) ms mb mi m ∧
             Model.name m = name.
Proof.
  unfold find_or_add_model.
  destruct (list_find _ ms) as [[i m]|] eqn:Hf.
  - apply list_find_Some in Hf as (Hi & Hn & _).
    exists ms, i, m. repeat split; auto.
  - eexists _, _, (Model.mk name []). split; [ reflexivity | ].
    split; [ split | reflexivity ].
    + rewrite lookup_app_r by lia. rewrite Nat.sub_diag. reflexivity.
    + right. auto.
Qed.

Lemma find_or_add_chain_based name m :
  ∃ cb ci ch, find_or_add_chain name m = (Model.mk (Model.name m) cb, ci) ∧
              based (λ ch, Chain.residues ch = []) (Model.chains m) cb ci ch ∧
              Chain.name ch = name.
Proof.
  unfold find_or_add_chain.
  destruct (list_find _ (Model.chains m)) as [[i ch]|] eqn:Hf.
  - apply list_find_Some in Hf as (Hi & Hn & _).
    exists (Model.chains m), i, ch. destruct m. repeat split; auto.
  - eexists _, _, (Chain.mk name "" None []). split; [ reflexivity | ].
    split; [ split | reflexivity ].
    + rewrite lookup_app_r by lia. rewrite Nat.sub_diag. reflexivity.
    + right. auto.
Qed.

Lemma find_or_add_residue_based seq_id auth_seq_id ins_code name ch :
  ∃ rb ri r,
    find_or_add_residue seq_id auth_seq_id ins_code name ch
    = (Chain.mk (Chain.name ch) (Chain.auth_name ch) (Chain.entity ch) rb, ri) ∧
    based (λ r, Residue.atoms r = []) (Chain.residues ch) rb ri r ∧
    same_residue_key seq_id auth_seq_id ins_code name r.
Proof.
  unfold find_or_add_residue.
  destruct (list_find _ (Chain.residues ch)) as [[i r]|] eqn:Hf.
  - apply list_find_Some in Hf as (Hi & Hk & _).
    exists (Chain.residues ch), i, r. destruct ch. repeat split; auto;
      apply Hk.
  - eexists _, _, (Residue.mk seq_id auth_seq_id ins_code name []).
    split; [ reflexivity | ]. split; [ split | repeat split ].
    + rewrite lookup_app_r by lia. rewrite Nat.sub_diag. reflexivity.
    + right. auto.
Qed.

Lemma alter_as_insert {A} (f : A → A) (l : list A) i x :
  l !! i = Some x → alter f i l = <[i := f x]> l.
Proof.
  revert i. induction l as [|y l IH]; intros [|i] H; simpl in *;
    try discriminate.
  - injection H as ->. reflexivity.
  - f_equal. apply IH, H.
Qed.

(** Writing through [chain] when the model under the cursor has just been
    stored at [mi]. *)
Lemma alter_chain_inserted f mb mi n cb ci C r :
  (mi < List.length mb)%nat → cb !! ci = Some C →
  alter_chain f (mkCursor (<[mi := Model.mk n cb]> mb) (Some mi) (Some ci) r)
  = <[mi := Model.mk n (<[ci := f C]> cb)]> mb.
Proof.
  intros Hmi HC. unfold alter_chain. simpl.
  rewrite (alter_as_insert _ _ _ (Model.mk n cb))
    by (apply list_lookup_insert_eq, Hmi).
  simpl. rewrite list_insert_insert_eq.
  rewrite (alter_as_insert _ _ _ C HC). reflexivity.
Qed.

Lemma chain_at_inserted mb mi n cb ci C r :
  (mi < List.length mb)%nat → cb !! ci = Some C →
  chain_at (mkCursor (<[mi := Model.mk n cb]> mb) (Some mi) (Some ci) r)
  = Some C.
Proof.
  intros Hmi HC. unfold chain_at, model_at. simpl.
  rewrite list_lookup_insert_eq by exact Hmi. simpl. exact HC.
Qed.

(** Lines 111-114: the model the row belongs to is found or added. *)
Lemma select_model_based cur row :
  ∃ mb mi m c1,
    select_model cur row = mkCursor mb (Some mi) c1 (resi cur) ∧
    based (λ m, Model.chains m = []) (models cur) mb mi m ∧
    Model.name m = cell row kModelNum ∧
    (c1 = None ∨ c1 = chain cur).
Proof.
  assert (∃ mb mi m,
            (let '(ms, mi) := find_or_add_model (cell row kModelNum)
                                (models cur) in
             mkCursor ms (Some mi) None (resi cur))
            = mkCursor mb (Some mi) None (resi cur) ∧
            based (λ m, Model.chains m = []) (models cur) mb mi m ∧
            Model.name m = cell row kModelNum) as Hfresh.
  { destruct (find_or_add_model_based (cell row kModelNum) (models cur))
      as (mb & mi & m & -> & Hb & Hn). eauto 10. }
  unfold select_model. destruct (model_at cur) as [m0|] eqn:Hm.
  - destruct (String.eqb_spec (cell row kModelNum) (Model.name m0)) as [He | _].
    + unfold model_at in Hm. destruct cur as [ms [mi|] c r]; simpl in *;
        [ | discriminate ].
      exists ms, mi, m0, c. repeat split; auto.
    + destruct Hfresh as (mb & mi & m & -> & Hb & Hn). eauto 10.
  - destruct Hfresh as (mb & mi & m & -> & Hb & Hn). eauto 10.
Qed.

(** Lines 115-119: the chain the row belongs to is found or added in that
    model; only its author name may change. *)
Lemma select_chain_based mb mi m c1 r1 row :
  mb !! mi = Some m →
  ∃ cb ci ch auth_name r2,
    select_chain (mkCursor mb (Some mi) c1 r1) row
    = mkCursor
        (<[mi := Model.mk (Model.name m)
                  (<[ci := Chain.mk (Chain.name ch) auth_name
                             (Chain.entity ch) (Chain.residues ch)]> cb)]> mb)
        (Some mi) (Some ci) r2 ∧
    based (λ ch, Chain.residues ch = []) (Model.chains m) cb ci ch ∧
    (Chain.name ch = cell row kAsymId ∨ Chain.name ch = as_str row kAsymId).
Proof.
  intros Hm.
  assert (∃ cb ci ch auth_name,
            open_chain (mkCursor mb (Some mi) c1 r1) row
            = mkCursor
                (<[mi := Model.mk (Model.name m)
                          (<[ci := Chain.mk (Chain.name ch) auth_name
                                     (Chain.entity ch) (Chain.residues ch)]>
                             cb)]> mb)
                (Some mi) (Some ci) None ∧
            based (λ ch, Chain.residues ch = []) (Model.chains m) cb ci ch ∧
            Chain.name ch = as_str row kAsymId)
    as Hopen.
  { unfold open_chain, model_at. simpl. rewrite Hm.
    destruct (find_or_add_chain_based (as_str row kAsymId) m)
      as (cb & ci & ch & -> & Hb & Hn).
    exists cb, ci, ch, (as_str row kAuthAsymId).
    split; [ | split; [ exact Hb | exact Hn ] ].
    rewrite (alter_chain_inserted _ _ _ _ _ _ ch)
      by (eauto using lookup_lt_Some; apply Hb).
    reflexivity. }
  unfold select_chain.
  destruct (chain_at (mkCursor mb (Some mi) c1 r1)) as [ch0|] eqn:Hch.
  - destruct (String.eqb_spec (cell row kAsymId) (Chain.name ch0)) as [He | _].
    + unfold chain_at, model_at in Hch. simpl in Hch. rewrite Hm in Hch.
      simpl in Hch. destruct c1 as [ci|]; simpl in Hch; [ | discriminate ].
      exists (Model.chains m), ci, ch0, (Chain.auth_name ch0), r1.
      split; [ | split; [ split; [ exact Hch | left; reflexivity ] | ] ];
        [ | left; symmetry; exact He ].
      f_equal. destruct ch0, m. simpl in *.
      rewrite (list_insert_id _ _ _ Hch), (list_insert_id _ _ _ Hm).
      reflexivity.
    + destruct Hopen as (cb & ci & ch & a & -> & Hb & Hn). eauto 10.
  - destruct Hopen as (cb & ci & ch & a & -> & Hb & Hn). eauto 10.
Qed.

(** Lines 120-132: the residue the row belongs to is found or added in that
    chain, or is the one already under the cursor. *)
Lemma select_residue_based UnknownId NDEBUG mb mi n cb ci C r2 row cur3 :
  (mi < List.length mb)%nat → cb !! ci = Some C →
  select_residue UnknownId NDEBUG
    (mkCursor (<[mi := Model.mk n cb]> mb) (Some mi) (Some ci) r2) row
  = Ok cur3 →
  ∃ rb ri r,
    cur3 = mkCursor
             (<[mi := Model.mk n
                       (<[ci := Chain.mk (Chain.name C) (Chain.auth_name C)
                                  (Chain.entity C) rb]> cb)]> mb)
             (Some mi) (Some ci) (Some ri) ∧
    based (λ r, Residue.atoms r = []) (Chain.residues C) rb ri r ∧
    as_int (cell row kSeqId) UnknownId = Ok (Residue.seq_id r) ∧
    (Residue.name r = cell row kCompId
     ∨ Residue.name r = as_string (cell row kCompId)).
Proof.
  intros Hmi HC H.
  apply select_residue_Ok in H as (seq_id & auth_seq_id & Hseq & _ & ->).
  destruct (starts_new_residue _ _ _ _ _ _) eqn:Hnew.
  - unfold open_residue. rewrite (chain_at_inserted _ _ _ _ _ C) by assumption.
    destruct (find_or_add_residue_based seq_id auth_seq_id (ins_code_of row)
                (as_string (cell row kCompId)) C)
      as (rb & ri & r & -> & Hb & Hs & _ & _ & Hn).
    simpl. rewrite (alter_chain_inserted _ _ _ _ _ _ C) by assumption.
    exists rb, ri, r. rewrite Hs. auto.
  - unfold starts_new_residue in Hnew.
    destruct (resi_at _) as [r|] eqn:Hr; [ | discriminate ].
    apply orb_false_iff in Hnew as [Hnew _].
    apply orb_false_iff in Hnew as [Hs Hn].
    apply negb_false_iff, Z.eqb_eq in Hs.
    apply negb_false_iff, String.eqb_eq in Hn.
    unfold resi_at in Hr.
    rewrite (chain_at_inserted _ _ _ _ _ C) in Hr by assumption.
    simpl in Hr. destruct r2 as [ri|]; simpl in Hr; [ | discriminate ].
    exists (Chain.residues C), ri, r.
    split; [ | split; [ split; auto | ] ];
      [ | split; [ rewrite <- Hs; exact Hseq | left; symmetry; exact Hn ] ].
    destruct C. simpl. rewrite (list_insert_id _ _ _ HC). reflexivity.
Qed.

(** Line 155: the atom goes to the end of the residue under the cursor. *)
Lemma append_atom_inserted mb mi n cb ci C ri r atom :
  (mi < List.length mb)%nat → cb !! ci = Some C →
  Chain.residues C !! ri = Some r →
  models (append_atom
            (mkCursor (<[mi := Model.mk n cb]> mb) (Some mi) (Some ci)
               (Some ri)) atom)
  = <[mi := Model.mk n
            (<[ci := Chain.mk (Chain.name C) (Chain.auth_name C)
                       (Chain.entity C)
                       (<[ri := with_atom r atom]> (Chain.residues C))]>
               cb)]> mb.
Proof.
  intros Hmi HC Hr. unfold append_atom, alter_resi. simpl.
  rewrite (alter_chain_inserted _ _ _ _ _ _ C) by assumption.
  rewrite (alter_as_insert _ _ _ r Hr). reflexivity.
Qed.

(** What a row that is processed normally does: it finds or adds its
    model, chain and residue, each a new last element when added, and
    appends its atom to that residue. Nothing else changes, but the author
    name of the chain. *)
Lemma atom_site_row_tree UnknownId NDEBUG aniso_map cur row cur' :
  atom_site_row UnknownId NDEBUG aniso_map cur row = Ok cur' →
  ∃ mb mi m cb ci ch auth_name rb ri r atom,
    based (λ m, Model.chains m = []) (models cur) mb mi m ∧
    based (λ ch, Chain.residues ch = []) (Model.chains m) cb ci ch ∧
    based (λ r, Residue.atoms r = []) (Chain.residues ch) rb ri r ∧
    make_atom aniso_map row = Ok atom ∧
    named_by UnknownId row m ch r ∧
    models cur' = row_tree mb mi m cb ci ch auth_name rb ri r atom.
Proof.
  unfold atom_site_row. intros H. inv_bind H. inv_bind H.
  injection H as <-. rename v into cur3, v0 into atom.
  destruct (select_model_based cur row)
    as (mb & mi & m & c1 & Hsel & Hmb & Hname & _).
  rewrite Hsel in Hv.
  pose proof (based_lt _ _ _ _ _ Hmb) as Hmi.
  destruct (select_chain_based mb mi m c1 (resi cur) row (proj1 Hmb))
    as (cb & ci & ch & auth_name & r2 & Hch & Hcb & Hcname).
  rewrite Hch in Hv.
  pose proof (based_lt _ _ _ _ _ Hcb) as Hci.
  apply (select_residue_based _ _ _ _ _ _ _
           (Chain.mk (Chain.name ch) auth_name (Chain.entity ch)
              (Chain.residues ch)))
    in Hv as (rb & ri & r & -> & Hrb & Hseq & Hrname);
    [ | exact Hmi | apply list_lookup_insert_eq, Hci ].
  simpl in Hrb.
  exists mb, mi, m, cb, ci, ch, auth_name, rb, ri, r, atom.
  split; [ exact Hmb | ]. split; [ exact Hcb | ]. split; [ exact Hrb | ].
  split; [ exact Hv0 | ].
  split; [ unfold named_by, as_str; auto | ].
  rewrite (append_atom_inserted _ _ _ _ _
             (Chain.mk (Chain.name ch) auth_name (Chain.entity ch) rb) _ r);
    [ | exact Hmi | | apply Hrb ].
  - simpl. rewrite !list_insert_insert_eq. reflexivity.
  - apply list_lookup_insert_eq. rewrite length_insert. exact Hci.
Qed.

(** *** The residue under the cursor (mmcif.hh lines 120-132, 155) *)

Lemma resi_at_focus mb mi n cb ci C r2 :
  (mi < List.length mb)%nat → cb !! ci = Some C →
  resi_at (mkCursor (<[mi := Model.mk n cb]> mb) (Some mi) (Some ci) r2)
  = r2 ≫= λ ri, Chain.residues C !! ri.
Proof.
  intros Hmi HC. unfold resi_at.
  rewrite (chain_at_inserted _ _ _ _ _ C) by assumption. reflexivity.
Qed.

(** After lines 111-119 the model and the chain of the row are under the
    cursor. *)
Lemma at_residue_test_focus cur row :
  ∃ mb mi cb ci C r2,
    at_residue_test cur row
    = mkCursor (<[mi := Model.mk (cell row kModelNum) cb]> mb)
        (Some mi) (Some ci) r2 ∧
    (mi < List.length mb)%nat ∧ cb !! ci = Some C ∧
    (Chain.name C = cell row kAsymId ∨ Chain.name C = as_str row kAsymId).
Proof.
  unfold at_residue_test.
  destruct (select_model_based cur row)
    as (mb & mi & m & c1 & -> & Hmb & Hn & _).
  destruct (select_chain_based mb mi m c1 (resi cur) row (proj1 Hmb))
    as (cb & ci & ch & auth_name & r2 & -> & Hcb & Hname).
  rewrite Hn.
  eexists mb, mi, _, ci, _, r2. split; [ reflexivity | ].
  split; [ eapply based_lt, Hmb | ].
  split; [ apply list_lookup_insert_eq; eapply based_lt, Hcb | exact Hname ].
Qed.

(** They stay there for a row that names the same model and chain. *)
Lemma at_residue_test_stays mb mi n cb ci C r row :
  (mi < List.length mb)%nat → cb !! ci = Some C →
  cell row kModelNum = n → cell row kAsymId = Chain.name C →
  at_residue_test
    (mkCursor (<[mi := Model.mk n cb]> mb) (Some mi) (Some ci) r) row
  = mkCursor (<[mi := Model.mk n cb]> mb) (Some mi) (Some ci) r.
Proof.
  intros Hmi HC Hm Hc. unfold at_residue_test.
  assert (select_model
            (mkCursor (<[mi := Model.mk n cb]> mb) (Some mi) (Some ci) r) row
          = mkCursor (<[mi := Model.mk n cb]> mb) (Some mi) (Some ci) r) as ->.
  { unfold select_model, model_at. simpl.
    rewrite list_lookup_insert_eq by exact Hmi. simpl.
    rewrite Hm, String.eqb_refl. reflexivity. }
  unfold select_chain. rewrite (chain_at_inserted _ _ _ _ _ C) by assumption.
  rewrite Hc, String.eqb_refl. reflexivity.
Qed.

Lemma residue_boundary_test UnknownId open seq_id auth_seq_id ins_code row :
  starts_new_residue UnknownId open seq_id auth_seq_id ins_code row = true
  ↔ residue_boundary UnknownId open seq_id auth_seq_id ins_code row.
Proof.
  destruct open as [r|]; simpl; [ apply starts_new_residue_spec | tauto ].
Qed.

(** Lines 120-132 on such a cursor: the test decides between the residue
    that [find_or_add_residue] returns and the one under the cursor. *)
Lemma select_residue_focus UnknownId NDEBUG mb mi n cb ci C r2 row cur3 :
  (mi < List.length mb)%nat → cb !! ci = Some C →
  select_residue UnknownId NDEBUG
    (mkCursor (<[mi := Model.mk n cb]> mb) (Some mi) (Some ci) r2) row
  = Ok cur3 →
  ∃ seq_id auth_seq_id,
    as_int (cell row kSeqId) UnknownId = Ok seq_id ∧
    as_int (cell row kAuthSeqId) UnknownId = Ok auth_seq_id ∧
    ((residue_boundary UnknownId (r2 ≫= λ ri, Chain.residues C !! ri)
        seq_id auth_seq_id (ins_code_of row) row ∧
      ∃ ch1 ri,
        find_or_add_residue seq_id auth_seq_id (ins_code_of row)
          (as_string (cell row kCompId)) C = (ch1, ri) ∧
        cur3 = mkCursor (<[mi := Model.mk n (<[ci := ch1]> cb)]> mb)
                 (Some mi) (Some ci) (Some ri))
     ∨ (¬ residue_boundary UnknownId (r2 ≫= λ ri, Chain.residues C !! ri)
          seq_id auth_seq_id (ins_code_of row) row ∧
        cur3 = mkCursor (<[mi := Model.mk n cb]> mb) (Some mi) (Some ci) r2 ∧
        ∃ ri r, r2 = Some ri ∧ Chain.residues C !! ri = Some r ∧
                (NDEBUG = false →
                 Residue.auth_seq_id r = auth_seq_id ∧
                 Residue.ins_code r = ins_code_of row))).
Proof.
  intros Hmi HC H. unfold select_residue in H.
  inv_bind H. inv_bind H. rename v into seq_id, v0 into auth_seq_id.
  exists seq_id, auth_seq_id. split; [ assumption | ].
  split; [ assumption | ].
  fold (ins_code_of row) in H.
  rewrite (resi_at_focus _ _ _ _ _ C) in H by assumption.
  destruct (starts_new_residue UnknownId _ seq_id auth_seq_id
              (ins_code_of row) row) eqn:Hnew.
  - left. split; [ apply residue_boundary_test, Hnew | ].
    inv_bind H. injection H as <-.
    unfold open_residue. rewrite (chain_at_inserted _ _ _ _ _ C) by assumption.
    destruct (find_or_add_residue _ _ _ _ C) as [ch1 ri].
    exists ch1, ri. split; [ reflexivity | ]. simpl.
    rewrite (alter_chain_inserted _ _ _ _ _ _ C) by assumption. reflexivity.
  - right.
    split; [ intros Hb; apply residue_boundary_test in Hb; congruence | ].
    inv_bind H. injection H as <-. split; [ reflexivity | ].
    destruct r2 as [ri|]; [ | discriminate ]. simpl in Hnew, Hv1.
    destruct (Chain.residues C !! ri) as [r|] eqn:Hr; [ | discriminate ].
    exists ri, r. split; [ reflexivity | ]. split; [ exact Hr | ].
    intros ->. unfold c_assert, author_ids_agree in Hv1.
    destruct (Z.eqb_spec (Residue.auth_seq_id r) auth_seq_id);
      [ | discriminate ].
    destruct (Ascii.eqb_spec (Residue.ins_code r) (ins_code_of row));
      [ auto | discriminate ].
Qed.

(** Line 155 on such a cursor. *)
Lemma append_atom_focus mb mi n cb ci C ri atom :
  (mi < List.length mb)%nat → cb !! ci = Some C →
  append_atom
    (mkCursor (<[mi := Model.mk n cb]> mb) (Some mi) (Some ci) (Some ri)) atom
  = mkCursor (<[mi := Model.mk n (<[ci := put_atom ri atom C]> cb)]> mb)
      (Some mi) (Some ci) (Some ri).
Proof.
  intros Hmi HC. unfold append_atom, alter_resi. simpl.
  rewrite (alter_chain_inserted _ _ _ _ _ _ C) by assumption. reflexivity.
Qed.

(** One pass of the loop body, from any cursor. *)
Lemma atom_site_row_core UnknownId NDEBUG aniso_map cur row cur' :
  atom_site_row UnknownId NDEBUG aniso_map cur row = Ok cur' →
  ∃ mb mi cb ci C r2 seq_id auth_seq_id atom,
    at_residue_test cur row
    = mkCursor (<[mi := Model.mk (cell row kModelNum) cb]> mb)
        (Some mi) (Some ci) r2 ∧
    (mi < List.length mb)%nat ∧ cb !! ci = Some C ∧
    (Chain.name C = cell row kAsymId ∨ Chain.name C = as_str row kAsymId) ∧
    as_int (cell row kSeqId) UnknownId = Ok seq_id ∧
    as_int (cell row kAuthSeqId) UnknownId = Ok auth_seq_id ∧
    make_atom aniso_map row = Ok atom ∧
    ((residue_boundary UnknownId (r2 ≫= λ ri, Chain.residues C !! ri)
        seq_id auth_seq_id (ins_code_of row) row ∧
      ∃ ch1 ri,
        find_or_add_residue seq_id auth_seq_id (ins_code_of row)
          (as_string (cell row kCompId)) C = (ch1, ri) ∧
        cur' = mkCursor
                 (<[mi := Model.mk (cell row kModelNum)
                           (<[ci := put_atom ri atom ch1]> cb)]> mb)
                 (Some mi) (Some ci) (Some ri))
     ∨ (¬ residue_boundary UnknownId (r2 ≫= λ ri, Chain.residues C !! ri)
          seq_id auth_seq_id (ins_code_of row) row ∧
        ∃ ri r, r2 = Some ri ∧ Chain.residues C !! ri = Some r ∧
                (NDEBUG = false →
                 Residue.auth_seq_id r = auth_seq_id ∧
                 Residue.ins_code r = ins_code_of row) ∧
                cur' = mkCursor
                         (<[mi := Model.mk (cell row kModelNum)
                                   (<[ci := put_atom ri atom C]> cb)]> mb)
                         (Some mi) (Some ci) (Some ri))).
Proof.
  unfold atom_site_row. intros H.
  change (select_chain (select_model cur row) row)
    with (at_residue_test cur row) in H.
  destruct (at_residue_test_focus cur row)
    as (mb & mi & cb & ci & C & r2 & Hfocus & Hmi & HC & Hname).
  rewrite Hfocus in H. inv_bind H. inv_bind H. injection H as <-.
  rename v into cur3, v0 into atom.
  apply (select_residue_focus _ _ _ _ _ _ _ C) in Hv
    as (seq_id & auth_seq_id & Hseq & Hauth & Hcase); [ | assumption.. ].
  exists mb, mi, cb, ci, C, r2, seq_id, auth_seq_id, atom.
  do 7 (split; [ assumption | ]).
  destruct Hcase as [(Hb & ch1 & ri & Hfind & ->)
                    | (Hb & -> & ri & r & -> & Hr & Hdbg)].
  - left. split; [ exact Hb | ]. exists ch1, ri. split; [ exact Hfind | ].
    rewrite (append_atom_focus _ _ _ _ _ ch1)
      by (try assumption; apply list_lookup_insert_eq;
          eapply lookup_lt_Some, HC).
    rewrite list_insert_insert_eq. reflexivity.
  - right. split; [ exact Hb | ]. exists ri, r.
    do 3 (split; [ assumption || reflexivity | ]).
    apply append_atom_focus; assumption.
Qed.

Lemma find_or_add_residue_names seq_id auth_seq_id ins_code name C ch1 ri :
  find_or_add_residue seq_id auth_seq_id ins_code name C = (ch1, ri) →
  Chain.name ch1 = Chain.name C ∧
  ∃ r, Chain.residues ch1 !! ri = Some r ∧
       same_residue_key seq_id auth_seq_id ins_code name r ∧
       ∀ i x, Chain.residues C !! i = Some x →
              Chain.residues ch1 !! i = Some x.
Proof.
  intros H.
  destruct (find_or_add_residue_based seq_id auth_seq_id ins_code name C)
    as (rb & ri' & r & Hf & [Hr Hb] & Hkey).
  rewrite H in Hf. injection Hf as -> ->. simpl.
  split; [ reflexivity | ]. exists r. split; [ exact Hr | ].
  split; [ exact Hkey | ]. intros i x Hx.
  destruct Hb as [-> | (_ & -> & _)]; [ exact Hx | ].
  apply lookup_app_l_Some, Hx.
Qed.

(** Where the cursor is after a row, and what the residue under it is. *)
Lemma atom_site_row_focus UnknownId NDEBUG aniso_map cur row cur' :
  atom_site_row UnknownId NDEBUG aniso_map cur row = Ok cur' →
  ∃ mb mi cb ci ch ri r seq_id auth_seq_id atom,
    cur' = mkCursor (<[mi := Model.mk (cell row kModelNum) cb]> mb)
             (Some mi) (Some ci) (Some ri) ∧
    (mi < List.length mb)%nat ∧ cb !! ci = Some ch ∧
    (Chain.name ch = cell row kAsymId ∨ Chain.name ch = as_str row kAsymId) ∧
    Chain.residues ch !! ri = Some (with_atom r atom) ∧
    as_int (cell row kSeqId) UnknownId = Ok seq_id ∧
    as_int (cell row kAuthSeqId) UnknownId = Ok auth_seq_id ∧
    make_atom aniso_map row = Ok atom ∧
    Residue.seq_id r = seq_id ∧
    (Residue.name r = cell row kCompId
     ∨ Residue.name r = as_string (cell row kCompId)) ∧
    (seq_id = UnknownId ∨ NDEBUG = false →
     Residue.auth_seq_id r = auth_seq_id ∧
     Residue.ins_code r = ins_code_of row).
Proof.
  intros H.
  apply atom_site_row_core in H
    as (mb & mi & cb & ci & C & r2 & seq_id & auth_seq_id & atom &
        _ & Hmi & HC & Hname & Hseq & Hauth & Hatom & Hcase).
  pose proof (lookup_lt_Some _ _ _ HC) as Hci.
  destruct Hcase as [(_ & ch1 & ri & Hfind & ->)
                    | (Hb & ri & r & -> & Hr & Hdbg & ->)].
  - apply find_or_add_residue_names in Hfind
      as (Hn & r & Hr & (Hk1 & Hk2 & Hk3 & Hk4) & _).
    exists mb, mi, (<[ci := put_atom ri atom ch1]> cb), ci,
      (put_atom ri atom ch1), ri, r, seq_id, auth_seq_id, atom.
    split; [ reflexivity | ]. split; [ exact Hmi | ].
    split; [ apply list_lookup_insert_eq, Hci | ].
    split; [ simpl; rewrite Hn; exact Hname | ].
    split; [ simpl; rewrite list_lookup_alter_eq, Hr; reflexivity | ].
    do 3 (split; [ assumption | ]).
    split; [ exact Hk1 | ]. split; [ right; exact Hk4 | auto ].
  - exists mb, mi, (<[ci := put_atom ri atom C]> cb), ci,
      (put_atom ri atom C), ri, r, seq_id, auth_seq_id, atom.
    split; [ reflexivity | ]. split; [ exact Hmi | ].
    split; [ apply list_lookup_insert_eq, Hci | ].
    split; [ exact Hname | ].
    split; [ simpl; rewrite list_lookup_alter_eq, Hr; reflexivity | ].
    do 3 (split; [ assumption | ]).
    simpl in Hb. rewrite Hr in Hb. simpl in Hb.
    destruct (decide (seq_id = Residue.seq_id r)) as [Hs | Hs];
      [ | exfalso; tauto ].
    destruct (decide (cell row kCompId = Residue.name r)) as [Hn | Hn];
      [ | exfalso; tauto ].
    split; [ auto | ]. split; [ auto | ].
    intros [Hu | Hd]; [ | exact (Hdbg Hd) ].
    destruct (decide (Residue.auth_seq_id r = auth_seq_id)) as [Ha | Ha];
      [ | exfalso; tauto ].
    destruct (decide (Residue.ins_code r = ins_code_of row)) as [Hi | Hi];
      [ auto | exfalso; tauto ].
Qed.

(** The loop body for a row that names the model and the chain under the
    cursor: lines 120-155 alone. *)
Lemma atom_site_row_same_chain UnknownId NDEBUG aniso_map mb mi n cb ci C r
    row :
  (mi < List.length mb)%nat → cb !! ci = Some C →
  cell row kModelNum = n → cell row kAsymId = Chain.name C →
  atom_site_row UnknownId NDEBUG aniso_map
    (mkCursor (<[mi := Model.mk n cb]> mb) (Some mi) (Some ci) r) row
  = (cur3 ← select_residue UnknownId NDEBUG
              (mkCursor (<[mi := Model.mk n cb]> mb) (Some mi) (Some ci) r)
              row;
     atom ← make_atom aniso_map row;
     Ok (append_atom cur3 atom)).
Proof.
  intros Hmi HC Hm Hc. unfold atom_site_row.
  change (select_chain (select_model ?c row) row)
    with (at_residue_test c row).
  rewrite (at_residue_test_stays _ _ _ _ _ C) by assumption. reflexivity.
Qed.

(** The second of two rows of one chain meets the cursor where the first
    left it. *)
Lemma second_row_of_the_chain UnknownId NDEBUG aniso_map cur r1 r2 cur1 :
  atom_site_row UnknownId NDEBUG aniso_map cur r1 = Ok cur1 →
  same_chain r1 r2 →
  ∃ mb mi n cb ci ch ri r seq1 auth1 atom1,
    cur1 = mkCursor (<[mi := Model.mk n cb]> mb) (Some mi) (Some ci) (Some ri) ∧
    (mi < List.length mb)%nat ∧ cb !! ci = Some ch ∧
    Chain.residues ch !! ri = Some (with_atom r atom1) ∧
    as_int (cell r1 kSeqId) UnknownId = Ok seq1 ∧
    as_int (cell r1 kAuthSeqId) UnknownId = Ok auth1 ∧
    make_atom aniso_map r1 = Ok atom1 ∧
    Residue.seq_id r = seq1 ∧
    (Residue.name r = cell r1 kCompId
     ∨ Residue.name r = as_string (cell r1 kCompId)) ∧
    (seq1 = UnknownId ∨ NDEBUG = false →
     Residue.auth_seq_id r = auth1 ∧ Residue.ins_code r = ins_code_of r1) ∧
    at_residue_test cur1 r2 = cur1 ∧
    atom_site_row UnknownId NDEBUG aniso_map cur1 r2
    = (cur3 ← select_residue UnknownId NDEBUG cur1 r2;
       atom ← make_atom aniso_map r2;
       Ok (append_atom cur3 atom)).
Proof.
  intros H (Hm & Hc & Hplain).
  apply atom_site_row_focus in H
    as (mb & mi & cb & ci & ch & ri & r & seq1 & auth1 & atom1 &
        -> & Hmi & Hch & Hname & Hr & Hseq & Hauth & Hatom & Hs & Hn & Hk).
  assert (cell r2 kAsymId = Chain.name ch) as Hc'.
  { rewrite Hc. unfold as_str in Hname. rewrite Hplain in Hname.
    destruct Hname as [-> | ->]; reflexivity. }
  exists mb, mi, (cell r1 kModelNum), cb, ci, ch, ri, r, seq1, auth1, atom1.
  split; [ reflexivity | ].
  do 9 (split; [ assumption | ]).
  split.
  - apply (at_residue_test_stays _ _ _ _ _ ch); assumption.
  - apply (atom_site_row_same_chain _ _ _ _ _ _ _ _ ch); assumption.
Qed.

(** Every row: the test of line 123 decides where the atom goes. When it
    holds, the atom goes to the residue that [find_or_add_residue] returns
    for the row's key in the chain under the cursor; when it fails, to the
    residue under the cursor. Nothing else changes. *)
Lemma residue_step UnknownId NDEBUG aniso_map cur row cur' :
  atom_site_row UnknownId NDEBUG aniso_map cur row = Ok cur' →
  ∃ ch seq_id auth_seq_id atom,
    chain_at (at_residue_test cur row) = Some ch ∧
    as_int (cell row kSeqId) UnknownId = Ok seq_id ∧
    as_int (cell row kAuthSeqId) UnknownId = Ok auth_seq_id ∧
    make_atom aniso_map row = Ok atom ∧
    model cur' = model (at_residue_test cur row) ∧
    chain cur' = chain (at_residue_test cur row) ∧
    (residue_boundary UnknownId (resi_at (at_residue_test cur row))
       seq_id auth_seq_id (ins_code_of row) row →
     ∃ ch1 ri,
       find_or_add_residue seq_id auth_seq_id (ins_code_of row)
         (as_string (cell row kCompId)) ch = (ch1, ri) ∧
       resi cur' = Some ri ∧
       models cur'
       = alter_chain (λ _, put_atom ri atom ch1) (at_residue_test cur row) ∧
       chain_at cur' = Some (put_atom ri atom ch1)) ∧
    (¬ residue_boundary UnknownId (resi_at (at_residue_test cur row))
         seq_id auth_seq_id (ins_code_of row) row →
     ∃ ri,
       resi (at_residue_test cur row) = Some ri ∧ resi cur' = Some ri ∧
       models cur'
       = alter_chain (λ _, put_atom ri atom ch) (at_residue_test cur row) ∧
       chain_at cur' = Some (put_atom ri atom ch)).
Proof.
  intros H.
  apply atom_site_row_core in H
    as (mb & mi & cb & ci & C & r2 & seq_id & auth_seq_id & atom &
        -> & Hmi & HC & _ & Hseq & Hauth & Hatom & Hcase).
  pose proof (lookup_lt_Some _ _ _ HC) as Hci.
  exists C, seq_id, auth_seq_id, atom.
  rewrite (chain_at_inserted _ _ _ _ _ C), (resi_at_focus _ _ _ _ _ C)
    by assumption.
  do 4 (split; [ assumption || reflexivity | ]).
  destruct Hcase as [(Hb & ch1 & ri & Hfind & ->)
                    | (Hb & ri & r & -> & Hr & _ & ->)]; simpl.
  - split; [ reflexivity | ]. split; [ reflexivity | ].
    split; [ | intros Hnb; contradiction ].
    intros _. exists ch1, ri. split; [ exact Hfind | ].
    split; [ reflexivity | ].
    rewrite (alter_chain_inserted _ _ _ _ _ _ C) by assumption.
    split; [ reflexivity | ].
    apply chain_at_inserted; [ exact Hmi | ].
    apply list_lookup_insert_eq, Hci.
  - split; [ reflexivity | ]. split; [ reflexivity | ].
    split; [ intros Hyes; contradiction | ].
    intros _. exists ri. split; [ reflexivity | ]. split; [ reflexivity | ].
    rewrite (alter_chain_inserted _ _ _ _ _ _ C) by assumption.
    split; [ reflexivity | ].
    apply chain_at_inserted; [ exact Hmi | ].
    apply list_lookup_insert_eq, Hci.
Qed.

(** Two consecutive rows of one chain with the same known sequence number
    and the same residue name, anywhere in the table: the second row
    passes the test of line 123, whatever its author number and insertion
    code, and its atom follows the first row's in the same residue; with
    assertions compiled in, line 131 stops the build when the author
    number or the insertion code differs. *)
Lemma same_known_residue UnknownId NDEBUG aniso_map cur r1 r2 cur1
    seq_id auth1 auth2 atom2 :
  atom_site_row UnknownId NDEBUG aniso_map cur r1 = Ok cur1 →
  same_chain r1 r2 →
  as_int (cell r1 kSeqId) UnknownId = Ok seq_id →
  as_int (cell r2 kSeqId) UnknownId = Ok seq_id →
  seq_id ≠ UnknownId →
  cell r2 kCompId = cell r1 kCompId →
  as_string (cell r1 kCompId) = cell r1 kCompId →
  as_int (cell r1 kAuthSeqId) UnknownId = Ok auth1 →
  as_int (cell r2 kAuthSeqId) UnknownId = Ok auth2 →
  make_atom aniso_map r2 = Ok atom2 →
  ∃ ch ri r atom1,
    chain_at cur1 = Some ch ∧ resi cur1 = Some ri ∧
    Chain.residues ch !! ri = Some r ∧
    make_atom aniso_map r1 = Ok atom1 ∧
    last (Residue.atoms r) = Some atom1 ∧
    at_residue_test cur1 r2 = cur1 ∧
    ¬ residue_boundary UnknownId (Some r) seq_id auth2 (ins_code_of r2) r2 ∧
    (NDEBUG = true ∨ (auth1 = auth2 ∧ ins_code_of r1 = ins_code_of r2) →
     ∃ cur2,
       atom_site_row UnknownId NDEBUG aniso_map cur1 r2 = Ok cur2 ∧
       model cur2 = model cur1 ∧ chain cur2 = chain cur1 ∧
       resi cur2 = Some ri ∧
       chain_at cur2 = Some (put_atom ri atom2 ch) ∧
       resi_at cur2 = Some (with_atom r atom2)) ∧
    (NDEBUG = false →
     auth1 ≠ auth2 ∨ ins_code_of r1 ≠ ins_code_of r2 →
     atom_site_row UnknownId NDEBUG aniso_map cur1 r2
     = Abort author_ids_consistent).
Proof.
  intros H Hchain Hs1 Hs2 Hknown Hname Hplain Ha1 Ha2 Hatom2.
  destruct (second_row_of_the_chain _ _ _ _ _ _ _ H Hchain)
    as (mb & mi & n & cb & ci & ch & ri & r & seq1 & auth1' & atom1 &
        -> & Hmi & Hch & Hr & Hseq & Hauth & Hatom1 & Hrs & Hrn & Hrk &
        Hstay & Hrow).
  rewrite Hs1 in Hseq. injection Hseq as <-.
  rewrite Ha1 in Hauth. injection Hauth as <-.
  pose proof (lookup_lt_Some _ _ _ Hch) as Hci.
  assert (¬ residue_boundary UnknownId (Some (with_atom r atom1)) seq_id
              auth2 (ins_code_of r2) r2) as Hnb.
  { simpl. rewrite Hname. rewrite Hplain in Hrn.
    intros [H1 | [H2 | [H3 _]]]; [ congruence | | contradiction ].
    destruct Hrn as [Hrn | Hrn]; congruence. }
  assert (select_residue UnknownId NDEBUG
            (mkCursor (<[mi := Model.mk n cb]> mb) (Some mi) (Some ci)
               (Some ri)) r2
          = (_ ← c_assert NDEBUG author_ids_consistent
                   (author_ids_agree (Some (with_atom r atom1)) auth2
                      (ins_code_of r2));
             Ok (mkCursor (<[mi := Model.mk n cb]> mb) (Some mi) (Some ci)
                   (Some ri)))) as Hsel.
  { unfold select_residue. rewrite Hs2, Ha2. simpl.
    fold (ins_code_of r2).
    rewrite (resi_at_focus _ _ _ _ _ ch) by assumption. simpl. rewrite Hr.
    destruct (starts_new_residue UnknownId _ seq_id auth2 (ins_code_of r2) r2)
      eqn:Hnew; [ | reflexivity ].
    apply residue_boundary_test in Hnew. contradiction. }
  rewrite Hrow, Hsel.
  exists ch, ri, (with_atom r atom1), atom1.
  split; [ apply chain_at_inserted; assumption | ].
  split; [ reflexivity | ]. split; [ exact Hr | ].
  split; [ exact Hatom1 | ]. split; [ apply last_snoc | ].
  split; [ exact Hstay | ]. split; [ exact Hnb | ]. split.
  - intros Hok.
    assert (c_assert NDEBUG author_ids_consistent
              (author_ids_agree (Some (with_atom r atom1)) auth2
                 (ins_code_of r2)) = Ok tt) as ->.
    { unfold c_assert. destruct NDEBUG; [ reflexivity | ].
      destruct Hok as [? | [<- <-]]; [ discriminate | ].
      destruct (Hrk (or_intror eq_refl)) as [Hra Hri]. simpl.
      rewrite Hra, Hri, Z.eqb_refl, Ascii.eqb_refl. reflexivity. }
    simpl. rewrite Hatom2. simpl.
    rewrite (append_atom_focus _ _ _ _ _ ch) by assumption.
    eexists. split; [ reflexivity | ]. simpl.
    do 3 (split; [ reflexivity | ]). split.
    + apply chain_at_inserted; [ exact Hmi | ].
      apply list_lookup_insert_eq, Hci.
    + rewrite (resi_at_focus _ _ _ _ _ (put_atom ri atom2 ch));
        [ | exact Hmi | apply list_lookup_insert_eq, Hci ].
      simpl. rewrite list_lookup_alter_eq, Hr. reflexivity.
  - intros -> Hdiff.
    destruct (Hrk (or_intror eq_refl)) as [Hra Hri].
    unfold c_assert. simpl. rewrite Hra, Hri.
    assert ((auth1 =? auth2) && Ascii.eqb (ins_code_of r1) (ins_code_of r2)
            = false) as ->; [ | reflexivity ].
    apply andb_false_iff.
    destruct Hdiff as [Hd | Hd];
      [ left; apply Z.eqb_neq | right; apply Ascii.eqb_neq ]; exact Hd.
Qed.

(** Two consecutive rows of one chain with unknown sequence number and
    different insertion codes, anywhere in the table: the second row's
    atom goes to another residue than the first row's, and each residue
    has the insertion code of its row. *)
Lemma split_on_insertion_code UnknownId NDEBUG aniso_map cur r1 r2 cur1
    auth2 atom2 :
  atom_site_row UnknownId NDEBUG aniso_map cur r1 = Ok cur1 →
  same_chain r1 r2 →
  as_int (cell r1 kSeqId) UnknownId = Ok UnknownId →
  as_int (cell r2 kSeqId) UnknownId = Ok UnknownId →
  as_int (cell r2 kAuthSeqId) UnknownId = Ok auth2 →
  ins_code_of r1 ≠ ins_code_of r2 →
  NDEBUG = true ∨ String.length (cell r2 kInsCode) = 1%nat →
  make_atom aniso_map r2 = Ok atom2 →
  ∃ cur2 ch2 i1 i2 ra rb atom1,
    atom_site_row UnknownId NDEBUG aniso_map cur1 r2 = Ok cur2 ∧
    model cur2 = model cur1 ∧ chain cur2 = chain cur1 ∧
    resi cur1 = Some i1 ∧ resi cur2 = Some i2 ∧ i1 ≠ i2 ∧
    resi_at cur1 = Some ra ∧
    residue_boundary UnknownId (Some ra) UnknownId auth2 (ins_code_of r2) r2 ∧
    chain_at cur2 = Some ch2 ∧
    Chain.residues ch2 !! i1 = Some ra ∧
    Chain.residues ch2 !! i2 = Some rb ∧
    Residue.ins_code ra = ins_code_of r1 ∧
    Residue.ins_code rb = ins_code_of r2 ∧
    make_atom aniso_map r1 = Ok atom1 ∧
    last (Residue.atoms ra) = Some atom1 ∧
    last (Residue.atoms rb) = Some atom2.
Proof.
  intros H Hchain Hs1 Hs2 Ha2 Hins Hsize Hatom2.
  destruct (second_row_of_the_chain _ _ _ _ _ _ _ H Hchain)
    as (mb & mi & n & cb & ci & ch & ri & r & seq1 & auth1 & atom1 &
        -> & Hmi & Hch & Hr & Hseq & Hauth & Hatom1 & Hrs & Hrn & Hrk &
        Hstay & Hrow).
  rewrite Hs1 in Hseq. injection Hseq as <-.
  destruct (Hrk (or_introl eq_refl)) as [Hra Hri].
  pose proof (lookup_lt_Some _ _ _ Hch) as Hci.
  assert (residue_boundary UnknownId (Some (with_atom r atom1)) UnknownId
            auth2 (ins_code_of r2) r2) as Hb.
  { simpl. right. right. split; [ reflexivity | ]. right. congruence. }
  destruct (find_or_add_residue UnknownId auth2 (ins_code_of r2)
              (as_string (cell r2 kCompId)) ch) as [ch1 i2] eqn:Hfind.
  assert (select_residue UnknownId NDEBUG
            (mkCursor (<[mi := Model.mk n cb]> mb) (Some mi) (Some ci)
               (Some ri)) r2
          = Ok (mkCursor (<[mi := Model.mk n (<[ci := ch1]> cb)]> mb)
                  (Some mi) (Some ci) (Some i2))) as Hsel.
  { unfold select_residue. rewrite Hs2, Ha2. simpl.
    fold (ins_code_of r2).
    rewrite (resi_at_focus _ _ _ _ _ ch) by assumption. simpl. rewrite Hr.
    apply residue_boundary_test in Hb. rewrite Hb.
    assert (c_assert NDEBUG ins_code_size
              (String.length (cell r2 kInsCode) =? 1)%nat = Ok tt) as ->.
    { unfold c_assert. destruct NDEBUG; [ reflexivity | ].
      destruct Hsize as [? | ->]; [ discriminate | reflexivity ]. }
    simpl. unfold open_residue.
    rewrite (chain_at_inserted _ _ _ _ _ ch) by assumption.
    rewrite Hfind. simpl.
    rewrite (alter_chain_inserted _ _ _ _ _ _ ch) by assumption.
    reflexivity. }
  rewrite Hrow, Hsel. simpl. rewrite Hatom2. simpl.
  rewrite (append_atom_focus _ _ _ _ _ ch1);
    [ | exact Hmi | apply list_lookup_insert_eq, Hci ].
  rewrite list_insert_insert_eq.
  apply find_or_add_residue_names in Hfind
    as (_ & rb & Hrb & (_ & _ & Hrbi & _) & Hkeep).
  assert (ri ≠ i2) as Hne.
  { intros ->. rewrite (Hkeep _ _ Hr) in Hrb. injection Hrb as <-.
    simpl in Hrbi. congruence. }
  eexists _, (put_atom i2 atom2 ch1), ri, i2, (with_atom r atom1),
    (with_atom rb atom2), atom1.
  split; [ reflexivity | ]. simpl.
  do 4 (split; [ reflexivity | ]). split; [ exact Hne | ].
  split; [ rewrite (resi_at_focus _ _ _ _ _ ch) by assumption; exact Hr | ].
  split; [ exact Hb | ].
  split; [ apply chain_at_inserted;
           [ exact Hmi | apply list_lookup_insert_eq, Hci ] | ].
  split; [ rewrite list_lookup_alter_ne by congruence;
           exact (Hkeep _ _ Hr) | ].
  split; [ rewrite list_lookup_alter_eq, Hrb; reflexivity | ].
  split; [ exact Hri | ]. split; [ exact Hrbi | ].
  split; [ exact Hatom1 | ]. split; apply last_snoc.
Qed.

(** C1. For every row of the atom table, from whatever the rows before it
    have built: the test of line 123 holds exactly when no residue is open
    in the row's chain, or the row's sequence number differs from the open
    residue's, or its residue-name cell differs from the open residue's
    name, or its sequence number is the unknown sentinel and the author
    number or the insertion code differs. When it holds, the atom goes to
    the residue that [find_or_add_residue] gives for the row's key; when
    it fails, to the residue that is open; nothing else changes. Two
    consecutive rows of one chain with the same known sequence number and
    name therefore put their atoms into one residue whatever their author
    numbering, when assertions are compiled out or the author fields
    agree, and the assertion of line 131 stops the build when they are
    compiled in and the author fields differ. Two consecutive rows of one
    chain with unknown sequence number and different insertion codes put
    their atoms into two residues. *)
Theorem C1_residue_boundary (UnknownId : Z) (NDEBUG : bool)
    (aniso_map : gmap string array6) :
  (∀ open seq_id auth_seq_id ins_code row,
     starts_new_residue UnknownId open seq_id auth_seq_id ins_code row = true
     ↔ residue_boundary UnknownId open seq_id auth_seq_id ins_code row) ∧
  (∀ cur row cur',
     atom_site_row UnknownId NDEBUG aniso_map cur row = Ok cur' →
     ∃ ch seq_id auth_seq_id atom,
       chain_at (at_residue_test cur row) = Some ch ∧
       as_int (cell row kSeqId) UnknownId = Ok seq_id ∧
       as_int (cell row kAuthSeqId) UnknownId = Ok auth_seq_id ∧
       make_atom aniso_map row = Ok atom ∧
       model cur' = model (at_residue_test cur row) ∧
       chain cur' = chain (at_residue_test cur row) ∧
       (residue_boundary UnknownId (resi_at (at_residue_test cur row))
          seq_id auth_seq_id (ins_code_of row) row →
        ∃ ch1 ri,
          find_or_add_residue seq_id auth_seq_id (ins_code_of row)
            (as_string (cell row kCompId)) ch = (ch1, ri) ∧
          resi cur' = Some ri ∧
          models cur'
          = alter_chain (λ _, put_atom ri atom ch1)
              (at_residue_test cur row) ∧
          chain_at cur' = Some (put_atom ri atom ch1)) ∧
       (¬ residue_boundary UnknownId (resi_at (at_residue_test cur row))
            seq_id auth_seq_id (ins_code_of row) row →
        ∃ ri,
          resi (at_residue_test cur row) = Some ri ∧ resi cur' = Some ri ∧
          models cur'
          = alter_chain (λ _, put_atom ri atom ch)
              (at_residue_test cur row) ∧
          chain_at cur' = Some (put_atom ri atom ch))) ∧
  (∀ cur r1 r2 cur1 seq_id auth1 auth2 atom2,
     atom_site_row UnknownId NDEBUG aniso_map cur r1 = Ok cur1 →
     same_chain r1 r2 →
     as_int (cell r1 kSeqId) UnknownId = Ok seq_id →
     as_int (cell r2 kSeqId) UnknownId = Ok seq_id →
     seq_id ≠ UnknownId →
     cell r2 kCompId = cell r1 kCompId →
     as_string (cell r1 kCompId) = cell r1 kCompId →
     as_int (cell r1 kAuthSeqId) UnknownId = Ok auth1 →
     as_int (cell r2 kAuthSeqId) UnknownId = Ok auth2 →
     make_atom aniso_map r2 = Ok atom2 →
     ∃ ch ri r atom1,
       chain_at cur1 = Some ch ∧ resi cur1 = Some ri ∧
       Chain.residues ch !! ri = Some r ∧
       make_atom aniso_map r1 = Ok atom1 ∧
       last (Residue.atoms r) = Some atom1 ∧
       at_residue_test cur1 r2 = cur1 ∧
       ¬ residue_boundary UnknownId (Some r) seq_id auth2
           (ins_code_of r2) r2 ∧
       (NDEBUG = true ∨ (auth1 = auth2 ∧ ins_code_of r1 = ins_code_of r2) →
        ∃ cur2,
          atom_site_row UnknownId NDEBUG aniso_map cur1 r2 = Ok cur2 ∧
          model cur2 = model cur1 ∧ chain cur2 = chain cur1 ∧
          resi cur2 = Some ri ∧
          chain_at cur2 = Some (put_atom ri atom2 ch) ∧
          resi_at cur2 = Some (with_atom r atom2)) ∧
       (NDEBUG = false →
        auth1 ≠ auth2 ∨ ins_code_of r1 ≠ ins_code_of r2 →
        atom_site_row UnknownId NDEBUG aniso_map cur1 r2
        = Abort author_ids_consistent)) ∧
  (∀ cur r1 r2 cur1 auth2 atom2,
     atom_site_row UnknownId NDEBUG aniso_map cur r1 = Ok cur1 →
     same_chain r1 r2 →
     as_int (cell r1 kSeqId) UnknownId = Ok UnknownId →
     as_int (cell r2 kSeqId) UnknownId = Ok UnknownId →
     as_int (cell r2 kAuthSeqId) UnknownId = Ok auth2 →
     ins_code_of r1 ≠ ins_code_of r2 →
     NDEBUG = true ∨ String.length (cell r2 kInsCode) = 1%nat →
     make_atom aniso_map r2 = Ok atom2 →
     ∃ cur2 ch2 i1 i2 ra rb atom1,
       atom_site_row UnknownId NDEBUG aniso_map cur1 r2 = Ok cur2 ∧
       model cur2 = model cur1 ∧ chain cur2 = chain cur1 ∧
       resi cur1 = Some i1 ∧ resi cur2 = Some i2 ∧ i1 ≠ i2 ∧
       resi_at cur1 = Some ra ∧
       residue_boundary UnknownId (Some ra) UnknownId auth2
         (ins_code_of r2) r2 ∧
       chain_at cur2 = Some ch2 ∧
       Chain.residues ch2 !! i1 = Some ra ∧
       Chain.residues ch2 !! i2 = Some rb ∧
       Residue.ins_code ra = ins_code_of r1 ∧
       Residue.ins_code rb = ins_code_of r2 ∧
       make_atom aniso_map r1 = Ok atom1 ∧
       last (Residue.atoms ra) = Some atom1 ∧
       last (Residue.atoms rb) = Some atom2).
Proof.
  split; [ intros; apply residue_boundary_test | ].
  split; [ intros cur row cur'; apply residue_step | ].
  split.
  - intros. eapply same_known_residue; eassumption.
  - intros. eapply split_on_insertion_code; eassumption.
Qed.

(** After two waters with insertion codes, the rows [ala_1] and
    [ala_1_auth_7] share a residue when assertions are compiled out; after
    an alanine, the two waters go to two residues. *)
Lemma C1_residue_boundary_witness :
  (∃ cur cur1 cur2 ch ri r atom2,
     atom_site_loop Samples.unknown_id true ∅ (mkCursor [] None None None)
       [Samples.hoh_ins_A; Samples.hoh_ins_B] = Ok cur ∧
     atom_site_row Samples.unknown_id true ∅ cur Samples.ala_1 = Ok cur1 ∧
     atom_site_row Samples.unknown_id true ∅ cur1 Samples.ala_1_auth_7
     = Ok cur2 ∧
     chain_at cur1 = Some ch ∧ resi cur1 = Some ri ∧
     Chain.residues ch !! ri = Some r ∧
     resi cur2 = Some ri ∧ resi_at cur2 = Some (with_atom r atom2)) ∧
  (∃ cur cur1 cur2 i1 i2,
     atom_site_loop Samples.unknown_id false ∅ (mkCursor [] None None None)
       [Samples.ala_1] = Ok cur ∧
     atom_site_row Samples.unknown_id false ∅ cur Samples.hoh_ins_A = Ok cur1 ∧
     atom_site_row Samples.unknown_id false ∅ cur1 Samples.hoh_ins_B = Ok cur2 ∧
     resi cur1 = Some i1 ∧ resi cur2 = Some i2 ∧ i1 ≠ i2).
Proof.
  split.
  - destruct (atom_site_loop Samples.unknown_id true ∅
                (mkCursor [] None None None)
                [Samples.hoh_ins_A; Samples.hoh_ins_B])
      as [cur| |] eqn:Hcur; [ | vm_compute in Hcur; discriminate.. ].
    destruct (atom_site_row Samples.unknown_id true ∅ cur Samples.ala_1)
      as [cur1| |] eqn:H1;
      [ | exfalso; vm_compute in Hcur; injection Hcur as <-;
          vm_compute in H1; discriminate.. ].
    destruct (make_atom ∅ Samples.ala_1_auth_7) as [atom2| |] eqn:Hatom2;
      [ | vm_compute in Hatom2; discriminate.. ].
    destruct (C1_residue_boundary Samples.unknown_id true ∅)
      as (_ & _ & Hmerge & _).
    destruct (Hmerge cur Samples.ala_1 Samples.ala_1_auth_7 cur1 1 1 7 atom2)
      as (ch & ri & r & atom1 & Hch & Hri & Hr & _ & _ & _ & _ & Hok & _);
      try reflexivity; try assumption;
      [ repeat split; reflexivity | discriminate | ].
    destruct (Hok (or_introl eq_refl)) as (cur2 & H2 & _ & _ & Hri2 & _ & Hr2).
    exists cur, cur1, cur2, ch, ri, r, atom2. auto 10.
  - destruct (atom_site_loop Samples.unknown_id false ∅
                (mkCursor [] None None None) [Samples.ala_1])
      as [cur| |] eqn:Hcur; [ | vm_compute in Hcur; discriminate.. ].
    destruct (atom_site_row Samples.unknown_id false ∅ cur Samples.hoh_ins_A)
      as [cur1| |] eqn:H1;
      [ | exfalso; vm_compute in Hcur; injection Hcur as <-;
          vm_compute in H1; discriminate.. ].
    destruct (make_atom ∅ Samples.hoh_ins_B) as [atom2| |] eqn:Hatom2;
      [ | vm_compute in Hatom2; discriminate.. ].
    destruct (C1_residue_boundary Samples.unknown_id false ∅)
      as (_ & _ & _ & Hsplit).
    destruct (Hsplit cur Samples.hoh_ins_A Samples.hoh_ins_B cur1 5 atom2)
      as (cur2 & ch2 & i1 & i2 & ra & rb & atom1 &
          H2 & _ & _ & Hi1 & Hi2 & Hne & _);
      try reflexivity; try assumption;
      [ repeat split; reflexivity | vm_compute; discriminate
      | right; reflexivity | ].
    exists cur, cur1, cur2, i1, i2. auto 10.
Defined.

(** Against C1 as the specification words it, when assertions are
    compiled in: the rows [ala_1] and [ala_1_auth_7] have the same known
    sequence number and name and different author numbers, and the build
    stops on the assertion of line 131 instead of merging them. *)
Lemma C1_counterexample :
  as_int (cell Samples.ala_1 kSeqId) Samples.unknown_id = Ok 1 ∧
  as_int (cell Samples.ala_1_auth_7 kSeqId) Samples.unknown_id = Ok 1 ∧
  cell Samples.ala_1 kCompId = cell Samples.ala_1_auth_7 kCompId ∧
  as_int (cell Samples.ala_1 kAuthSeqId) Samples.unknown_id = Ok 1 ∧
  as_int (cell Samples.ala_1_auth_7 kAuthSeqId) Samples.unknown_id = Ok 7 ∧
  structure_from_cif_block Samples.unknown_id false
    (Samples.block_of
       [Samples.atom_site_table [Samples.ala_1; Samples.ala_1_auth_7]])
  = Abort author_ids_consistent.
Proof. repeat split; vm_compute; reflexivity. Qed.

(** ** The assertions of the builder pass *)

Lemma c_assert_Abort NDEBUG which c a :
  c_assert NDEBUG which c = Abort a → NDEBUG = false ∧ c = false ∧ a = which.
Proof.
  unfold c_assert. destruct NDEBUG; [ discriminate | ].
  destruct c; [ discriminate | ]. intros [= <-]. auto.
Qed.

Lemma bind_Abort {A B} (m : result A) (f : A → result B) a :
  m ≫= f = Abort a → m = Abort a ∨ ∃ v, m = Ok v ∧ f v = Abort a.
Proof.
  destruct m; simpl; intros H; [ right; eauto | discriminate | left; congruence ].
Qed.

Lemma as_int_not_Abort s d a : as_int s d ≠ Abort a.
Proof. intros H. apply (as_int_no_abort s d). eexists; eassumption. Qed.

Lemma make_atom_not_Abort aniso_map row a : make_atom aniso_map row ≠ Abort a.
Proof. intros H. apply (make_atom_no_abort aniso_map row). eexists; eassumption. Qed.

(** Which assertion can stop a row, and why. *)
Lemma atom_site_row_Abort UnknownId NDEBUG aniso_map cur row a :
  atom_site_row UnknownId NDEBUG aniso_map cur row = Abort a →
  NDEBUG = false ∧
  ∃ seq_id auth_seq_id,
    as_int (cell row kSeqId) UnknownId = Ok seq_id ∧
    as_int (cell row kAuthSeqId) UnknownId = Ok auth_seq_id ∧
    let open := resi_at (select_chain (select_model cur row) row) in
    if starts_new_residue UnknownId open seq_id auth_seq_id
         (ins_code_of row) row
    then a = ins_code_size ∧ String.length (cell row kInsCode) ≠ 1%nat
    else a = author_ids_consistent
         ∧ author_ids_agree open auth_seq_id (ins_code_of row) = false.
Proof.
  unfold atom_site_row. intros H.
  apply bind_Abort in H as [H | (cur' & _ & H)].
  2:{ apply bind_Abort in H as [H | (? & _ & H)]; [ | discriminate ].
      exfalso. eapply make_atom_not_Abort; eassumption. }
  unfold select_residue in H.
  apply bind_Abort in H as [H | (seq_id & Hs & H)];
    [ exfalso; eapply as_int_not_Abort; eassumption | ].
  apply bind_Abort in H as [H | (auth_seq_id & Ha & H)];
    [ exfalso; eapply as_int_not_Abort; eassumption | ].
  fold (ins_code_of row) in H.
  destruct (starts_new_residue _ _ _ _ _ _) eqn:Hnew.
  - apply bind_Abort in H as [H | (? & _ & H)]; [ | discriminate ].
    apply c_assert_Abort in H as (-> & Hc & ->).
    split; [ reflexivity | ]. exists seq_id, auth_seq_id.
    split; [ assumption | ]. split; [ assumption | ].
    simpl. rewrite Hnew. split; [ reflexivity | ].
    apply Nat.eqb_neq. exact Hc.
  - apply bind_Abort in H as [H | (? & _ & H)]; [ | discriminate ].
    apply c_assert_Abort in H as (-> & Hc & ->).
    split; [ reflexivity | ]. exists seq_id, auth_seq_id.
    split; [ assumption | ]. split; [ assumption | ].
    simpl. rewrite Hnew. split; [ reflexivity | exact Hc ].
Qed.

Lemma atom_site_loop_Abort UnknownId NDEBUG aniso_map tab : ∀ cur a,
  atom_site_loop UnknownId NDEBUG aniso_map cur tab = Abort a →
  ∃ cur' row, row ∈ tab ∧
    atom_site_row UnknownId NDEBUG aniso_map cur' row = Abort a.
Proof.
  induction tab as [|r rest IH]; intros cur a H; simpl in H; [ discriminate | ].
  apply bind_Abort in H as [H | (cur' & _ & H)].
  - exists cur, r. split; [ left | exact H ].
  - destruct (IH _ _ H) as (c & row & Hin & Hrow).
    exists c, row. split; [ right; exact Hin | exact Hrow ].
Qed.

(** A row that opens a residue with an insertion-code cell of another
    length than one stops the build. *)
Lemma ins_code_size_violation UnknownId aniso_map cur row seq_id auth_seq_id :
  as_int (cell row kSeqId) UnknownId = Ok seq_id →
  as_int (cell row kAuthSeqId) UnknownId = Ok auth_seq_id →
  starts_new_residue UnknownId
    (resi_at (select_chain (select_model cur row) row))
    seq_id auth_seq_id (ins_code_of row) row = true →
  String.length (cell row kInsCode) ≠ 1%nat →
  atom_site_row UnknownId false aniso_map cur row = Abort ins_code_size.
Proof.
  intros Hs Ha Hnew Hsize. unfold atom_site_row, select_residue.
  rewrite Hs, Ha. simpl. fold (ins_code_of row). rewrite Hnew.
  apply Nat.eqb_neq in Hsize. rewrite Hsize. reflexivity.
Qed.

(** C7. With assertions compiled in, a row that opens a residue must have
    an insertion-code cell of exactly one character: otherwise the
    assertion of line 127 fails, which is no exception. When every
    insertion-code cell has one character that assertion never fails; the
    only assertion that can then stop the pass is the one of line 131, on
    a row that continues a residue with another author number or insertion
    code. The alt-loc cell is not checked at all: its first character is
    taken, whatever its length. With NDEBUG no assertion stops the pass. *)
Theorem C7_one_character_fields (UnknownId : Z)
    (aniso_map : gmap string array6) :
  (∀ cur row seq_id auth_seq_id,
     as_int (cell row kSeqId) UnknownId = Ok seq_id →
     as_int (cell row kAuthSeqId) UnknownId = Ok auth_seq_id →
     starts_new_residue UnknownId
       (resi_at (select_chain (select_model cur row) row))
       seq_id auth_seq_id (ins_code_of row) row = true →
     String.length (cell row kInsCode) ≠ 1%nat →
     atom_site_row UnknownId false aniso_map cur row = Abort ins_code_size) ∧
  (∀ NDEBUG cur tab a,
     (∀ row, row ∈ tab → String.length (cell row kInsCode) = 1%nat) →
     atom_site_loop UnknownId NDEBUG aniso_map cur tab = Abort a →
     a = author_ids_consistent ∧
     ∃ cur' row seq_id auth_seq_id,
       row ∈ tab ∧
       as_int (cell row kSeqId) UnknownId = Ok seq_id ∧
       as_int (cell row kAuthSeqId) UnknownId = Ok auth_seq_id ∧
       starts_new_residue UnknownId (resi_at cur') seq_id auth_seq_id
         (ins_code_of row) row = false ∧
       author_ids_agree (resi_at cur') auth_seq_id (ins_code_of row) = false) ∧
  (∀ row atom,
     make_atom aniso_map row = Ok atom →
     Atom.altloc atom = char0 (as_string (cell row kAltId))) ∧
  (∀ cur tab, ¬ aborts (atom_site_loop UnknownId true aniso_map cur tab)).
Proof.
  split; [ | split; [ | split ] ].
  - intros. eapply ins_code_size_violation; eassumption.
  - intros NDEBUG cur tab a Hsize H.
    apply atom_site_loop_Abort in H as (cur' & row & Hin & H).
    apply atom_site_row_Abort in H as (_ & seq_id & auth_seq_id & Hs & Ha & H).
    simpl in H.
    destruct (starts_new_residue _ _ _ _ _ _) eqn:Hnew.
    + destruct H as [_ H]. exfalso. apply H, Hsize, Hin.
    + destruct H as [-> H]. split; [ reflexivity | ].
      exists (select_chain (select_model cur' row) row), row,
        seq_id, auth_seq_id. auto.
  - intros row atom H.
    apply make_atom_Ok in H
      as (charge & px & py & pz & occ & b_iso & _ & _ & _ & _ & _ & _ & ->).
    destruct (set_anisotropic_keeps aniso_map row
      (Atom.mk (as_string (cell row kAtomId))
         (char0 (as_string (cell row kAltId))) charge
         (mkElement (as_string (cell row kSymbol)))
         (mkPosition px py pz) occ b_iso
         unset_u unset_u unset_u unset_u unset_u unset_u)) as (_ & -> & _).
    reflexivity.
  - intros. apply atom_site_loop_no_abort.
Qed.

Lemma C7_one_character_fields_witness :
  atom_site_row Samples.unknown_id false ∅ (mkCursor [] None None None)
    Samples.ala_ins_AB = Abort ins_code_size.
Proof.
  destruct (C7_one_character_fields Samples.unknown_id ∅) as [H _].
  apply (H _ _ 1 1); [ reflexivity | reflexivity | reflexivity | ].
  vm_compute. discriminate.
Defined.

(** Against C7 as the specification words it, twice. A row whose alt-loc
    cell has two characters is built, with assertions compiled in, into an
    atom with the first of them. And two rows all of whose alt-loc and
    insertion-code cells have one character stop on the assertion of
    line 131. *)
Lemma C7_counterexample :
  (String.length (cell Samples.ala_alt_AB kAltId) = 2%nat ∧
   ∃ atom,
     build_models Samples.unknown_id false ∅ [Samples.ala_alt_AB]
     = Ok (one_chain Samples.ala_alt_AB
             [Residue.mk 1 1 "000" "ALA" [atom]]) ∧
     Atom.altloc atom = "A"%char) ∧
  (Forall (λ row, String.length (cell row kAltId) = 1%nat ∧
                  String.length (cell row kInsCode) = 1%nat)
     [Samples.ala_1; Samples.ala_1_auth_7] ∧
   build_models Samples.unknown_id false ∅
     [Samples.ala_1; Samples.ala_1_auth_7]
   = Abort author_ids_consistent).
Proof.
  split; [ split; [ reflexivity | ] | split ].
  - eexists. split; vm_compute; reflexivity.
  - repeat constructor.
  - vm_compute. reflexivity.
Qed.

(** ** The formatter *)

Lemma digit_char_is_digit n : is_digit (digit_char n) = true.
Proof.
  unfold digit_char.
  assert (0 <= n mod 10 < 10) as H by (apply Z.mod_pos_bound; lia).
  assert (n mod 10 = 0 ∨ n mod 10 = 1 ∨ n mod 10 = 2 ∨ n mod 10 = 3
          ∨ n mod 10 = 4 ∨ n mod 10 = 5 ∨ n mod 10 = 6 ∨ n mod 10 = 7
          ∨ n mod 10 = 8 ∨ n mod 10 = 9) as Hc by lia.
  repeat (destruct Hc as [-> | Hc]; [ reflexivity | ]). rewrite Hc. reflexivity.
Qed.

Lemma digits_w_length w : ∀ n acc,
  String.length (digits_w w n acc) = (w + String.length acc)%nat.
Proof.
  induction w as [|w IH]; intros n acc; simpl; [ reflexivity | ].
  rewrite IH. simpl. lia.
Qed.

Lemma digits_w_all_digits w : ∀ n acc,
  all_digits acc = true → all_digits (digits_w w n acc) = true.
Proof.
  induction w as [|w IH]; intros n acc Hacc; simpl; [ exact Hacc | ].
  apply IH. simpl. rewrite digit_char_is_digit. exact Hacc.
Qed.

Lemma uint_digits_all_digits fuel : ∀ n acc,
  all_digits acc = true → all_digits (uint_digits fuel n acc) = true.
Proof.
  induction fuel as [|f IH]; intros n acc Hacc; simpl.
  - rewrite digit_char_is_digit. exact Hacc.
  - destruct (n / 10 =? 0).
    + simpl. rewrite digit_char_is_digit. exact Hacc.
    + apply IH. simpl. rewrite digit_char_is_digit. exact Hacc.
Qed.

Lemma uint_digits_nonempty fuel : ∀ n acc, uint_digits fuel n acc ≠ "".
Proof.
  induction fuel as [|f IH]; intros n acc; simpl; [ discriminate | ].
  destruct (n / 10 =? 0); [ discriminate | apply IH ].
Qed.

(** A number below [10^(k+1)] has at most [k+1] digits. *)
Lemma uint_digits_length fuel : ∀ n acc k,
  0 <= n < 10 ^ (Z.of_nat k + 1) →
  (String.length (uint_digits fuel n acc) <= k + 1 + String.length acc)%nat.
Proof.
  induction fuel as [|f IH]; intros n acc k Hn; simpl; [ lia | ].
  destruct (Z.eqb_spec (n / 10) 0) as [Hz | Hnz]; simpl; [ lia | ].
  destruct k as [|k].
  - exfalso. apply Hnz. apply Z.div_small. simpl in Hn. lia.
  - specialize (IH (n / 10) (String (digit_char n) acc) k).
    simpl in IH. etrans; [ apply IH | lia ].
    replace (Z.of_nat (S k) + 1) with (Z.succ (Z.of_nat k + 1)) in Hn by lia.
    rewrite Z.pow_succ_r in Hn by lia.
    split; [ apply Z.div_pos; lia | ].
    apply Z.div_lt_upper_bound; lia.
Qed.

Lemma decimal_digits n : all_digits (decimal n) = true ∧ decimal n ≠ "".
Proof.
  unfold decimal. split;
    [ apply uint_digits_all_digits; reflexivity | apply uint_digits_nonempty ].
Qed.

Lemma decimal_length n k :
  0 <= n < 10 ^ (Z.of_nat k + 1) → (String.length (decimal n) <= k + 1)%nat.
Proof.
  intros H. unfold decimal.
  etrans; [ apply uint_digits_length; exact H | simpl; lia ].
Qed.

Lemma string_app_length (s1 s2 : string) :
  String.length (s1 ++ s2) = (String.length s1 + String.length s2)%nat.
Proof. induction s1 as [|c s1 IH]; simpl; [ reflexivity | rewrite IH; reflexivity ]. Qed.

Lemma string_app_nil_r (s : string) : s ++ "" = s.
Proof.
  induction s as [|c s IH]; [ reflexivity | ].
  change (String c (s ++ "") = String c s). f_equal. exact IH.
Qed.

(** [%.{prec}f] prints fixed notation with [prec] fractional digits. *)
Lemma fixed_text_notation dp prec neg num den :
  fixed_notation dp prec (sign_text neg ++ fixed_text dp prec num den).
Proof.
  unfold fixed_text.
  set (s := round_div (num * 10 ^ Z.of_nat prec) den).
  exists (sign_text neg), (decimal (s / 10 ^ Z.of_nat prec)),
    (digits_w prec (s mod 10 ^ Z.of_nat prec) "").
  destruct (decimal_digits (s / 10 ^ Z.of_nat prec)) as [Hd Hne].
  split; [ destruct prec; [ rewrite string_app_nil_r | ]; reflexivity | ].
  split; [ destruct neg; auto | ].
  split; [ exact Hne | ]. split; [ exact Hd | ].
  split; [ apply digits_w_all_digits; reflexivity | ].
  rewrite digits_w_length. simpl. lia.
Qed.

Lemma numerator_nonneg m e : 0 <= numerator m e.
Proof. unfold numerator. apply Z.mul_nonneg_nonneg; [ lia | apply Z.pow_nonneg; lia ]. Qed.

Lemma denominator_pos e : 0 < denominator e.
Proof. unfold denominator. apply Z.pow_pos_nonneg; lia. Qed.

(** The test of line 39 on a finite value: its magnitude is below 1e8. *)
Lemma in_fixed_range_finite neg m e :
  in_fixed_range (FFinite neg m e) = true
  ↔ numerator m e < 10 ^ 8 * denominator e.
Proof.
  unfold in_fixed_range, fgt, fneg, f1e8, flt, scaled, numerator, denominator.
  rewrite andb_true_iff, !Z.ltb_lt.
  destruct (Z.le_gt_cases 0 e) as [He | He].
  - rewrite (Z.min_r e 0), (Z.min_l 0 e), (Z.max_l e 0), (Z.max_r (- e) 0) by lia.
    rewrite !Z.sub_0_r. change (2 ^ 0) with 1.
    assert (0 <= Z.of_N m * 2 ^ e)
      by (apply Z.mul_nonneg_nonneg; [ lia | apply Z.pow_nonneg; lia ]).
    destruct neg; simpl negb; cbv iota; change (10 ^ 8) with 100000000; lia.
  - rewrite (Z.min_l e 0), (Z.min_r 0 e), (Z.max_r e 0), (Z.max_l (- e) 0) by lia.
    rewrite Z.sub_diag, Z.sub_0_l. change (2 ^ 0) with 1.
    assert (0 < 2 ^ (- e)) by (apply Z.pow_pos_nonneg; lia).
    destruct neg; simpl negb; cbv iota; change (10 ^ 8) with 100000000; lia.
Qed.

Lemma in_fixed_range_is_finite d :
  in_fixed_range d = true → ∃ neg m e, d = FFinite neg m e.
Proof.
  destruct d as [|n|neg m e]; [ discriminate | | eauto ].
  destruct n; discriminate.
Qed.

Lemma round_div_bounds a b :
  0 <= a → 0 < b → a / b <= round_div a b <= a / b + 1.
Proof.
  intros Ha Hb. unfold round_div.
  destruct (2 * (a mod b) <? b); [ lia | ].
  destruct (b <? 2 * (a mod b)); [ lia | ].
  destruct (Z.even (a / b)); lia.
Qed.

(** Below 1e8 the integer part has at most nine digits (nine when the
    value rounds up to 100000000). *)
Lemma fixed_text_length dp prec neg num den :
  0 <= num → 0 < den → num < 10 ^ 8 * den →
  (String.length (sign_text neg ++ fixed_text dp prec num den)
   <= 10 + match prec with O => 0 | _ => 1 + prec end)%nat.
Proof.
  intros Hnum Hden Hlt. unfold fixed_text.
  set (p := 10 ^ Z.of_nat prec).
  assert (0 < p) as Hp by (apply Z.pow_pos_nonneg; lia).
  set (s := round_div (num * p) den).
  assert (0 <= s <= 10 ^ 8 * p) as Hs.
  { destruct (round_div_bounds (num * p) den) as [Hlo Hhi]; [ nia | lia | ].
    fold s in Hlo, Hhi.
    assert (0 <= num * p / den) by (apply Z.div_pos; nia).
    assert (num * p / den < 10 ^ 8 * p)
      by (apply Z.div_lt_upper_bound; nia).
    lia. }
  assert (String.length (decimal (s / p)) <= 9)%nat as Hip.
  { apply (decimal_length _ 8). split; [ apply Z.div_pos; lia | ].
    assert (s / p <= 10 ^ 8) by (apply Z.div_le_upper_bound; lia).
    change (10 ^ (Z.of_nat 8 + 1)) with 1000000000.
    change (10 ^ 8) with 100000000 in *. lia. }
  assert (String.length (sign_text neg) <= 1)%nat
    by (destruct neg; simpl; lia).
  rewrite string_app_length. destruct prec as [|prec'].
  - lia.
  - rewrite string_app_length. simpl String.length.
    rewrite digits_w_length. simpl String.length. lia.
Qed.

(** Below [10^k] the integer part has at most [k + 1] digits ([k + 1] when
    the value rounds up to [10^k]). *)
Lemma fixed_text_length_below dp prec neg num den (k : nat) :
  0 <= num → 0 < den → num < 10 ^ Z.of_nat k * den →
  (String.length (sign_text neg ++ fixed_text dp prec num den)
   <= k + 2 + match prec with O => 0 | _ => 1 + prec end)%nat.
Proof.
  intros Hnum Hden Hlt. unfold fixed_text.
  set (p := 10 ^ Z.of_nat prec).
  assert (0 < p) as Hp by (apply Z.pow_pos_nonneg; lia).
  set (K := 10 ^ Z.of_nat k) in *.
  assert (0 < K) as HK by (apply Z.pow_pos_nonneg; lia).
  set (s := round_div (num * p) den).
  assert (0 <= s <= K * p) as Hs.
  { destruct (round_div_bounds (num * p) den) as [Hlo Hhi]; [ nia | lia | ].
    fold s in Hlo, Hhi.
    assert (0 <= num * p / den) by (apply Z.div_pos; nia).
    assert (num * p / den < K * p)
      by (apply Z.div_lt_upper_bound; nia).
    lia. }
  assert (String.length (decimal (s / p)) <= k + 1)%nat as Hip.
  { apply decimal_length. split; [ apply Z.div_pos; lia | ].
    assert (s / p <= K) by (apply Z.div_le_upper_bound; lia).
    rewrite Z.pow_add_r by lia. fold K. lia. }
  assert (String.length (sign_text neg) <= 1)%nat
    by (destruct neg; simpl; lia).
  rewrite string_app_length. destruct prec as [|prec'].
  - lia.
  - rewrite string_app_length. simpl String.length.
    rewrite digits_w_length. simpl String.length. lia.
Qed.

(** C8. For a precision from 0 to 6 and a double strictly between -1e8 and
    1e8, the text that [to_str_prec] has [sprintf] write is in fixed
    notation with exactly that many fractional digits, and [to_str_prec]
    returns this text, and no other, whenever the text and its terminating
    NUL fit the 16-byte buffer; they fit for every precision up to 4, and
    for any precision when the magnitude is below [10^(12 - Prec)]. The
    general notation is used exactly when the value is not strictly between
    -1e8 and 1e8: beyond, at -1e8 and 1e8 themselves, and for a NaN. A
    precision outside 0..6 does not compile. *)
Theorem C8_fixed_precision (USE_STD_SNPRINTF : bool) (rt : c_runtime)
    (Prec : Z) :
  (0 <= Prec <= 6 →
   ∃ f, to_str_prec USE_STD_SNPRINTF rt Prec = Some f ∧
        ∀ d,
          (in_fixed_range d = true →
             ∃ text,
               fixed_notation (point_of USE_STD_SNPRINTF rt)
                 (Z.to_nat Prec) text ∧
               ((String.length text + 1 <= 16)%nat → f d = Text text) ∧
               (∀ t, f d = Text t → t = text) ∧
               (Prec <= 4 → (String.length text + 1 <= 16)%nat) ∧
               (∀ neg m e,
                  d = FFinite neg m e →
                  numerator m e < 10 ^ (12 - Prec) * denominator e →
                  (String.length text + 1 <= 16)%nat)) ∧
          (in_fixed_range d = false →
             f d = via_buffer 16
                     (gstb_sprintf USE_STD_SNPRINTF rt (conv_g 6) d))) ∧
  (∀ neg m e, in_fixed_range (FFinite neg m e) = true
              ↔ numerator m e < 10 ^ 8 * denominator e) ∧
  in_fixed_range FNaN = false ∧
  in_fixed_range f1e8 = false ∧
  in_fixed_range (fneg f1e8) = false ∧
  (Prec < 0 ∨ 6 < Prec → to_str_prec USE_STD_SNPRINTF rt Prec = None).
Proof.
  split; [ | split; [ apply in_fixed_range_finite | ] ].
  - intros HPrec. unfold to_str_prec.
    destruct (Z.leb_spec 0 Prec); [ | lia ].
    destruct (Z.ltb_spec Prec 7); [ | lia ]. simpl.
    eexists. split; [ reflexivity | ]. intros d. split.
    + intros Hin. simpl. rewrite Hin.
      destruct (in_fixed_range_is_finite d Hin) as (neg & m & e & ->).
      assert (gstb_sprintf USE_STD_SNPRINTF rt (conv_f (Z.to_nat Prec))
                (FFinite neg m e)
              = sign_text neg ++ fixed_text (point_of USE_STD_SNPRINTF rt)
                                   (Z.to_nat Prec) (numerator m e)
                                   (denominator e)) as ->
        by (unfold gstb_sprintf, point_of; destruct USE_STD_SNPRINTF;
            reflexivity).
      set (text := sign_text neg ++ fixed_text (point_of USE_STD_SNPRINTF rt)
                                      (Z.to_nat Prec) (numerator m e)
                                      (denominator e)).
      assert (∀ k : nat,
                numerator m e < 10 ^ Z.of_nat k * denominator e →
                (k + Z.to_nat Prec <= 12)%nat →
                (String.length text + 1 <= 16)%nat) as Hfits.
      { intros k Hk Hsum.
        pose proof (fixed_text_length_below (point_of USE_STD_SNPRINTF rt)
                      (Z.to_nat Prec) neg (numerator m e) (denominator e) k
                      (numerator_nonneg m e) (denominator_pos e) Hk) as Hlen.
        fold text in Hlen. destruct (Z.to_nat Prec); lia. }
      exists text. split; [ apply fixed_text_notation | ].
      split; [ | split; [ | split ] ].
      * intros Hfit. unfold via_buffer.
        destruct (Nat.leb_spec (String.length text + 1) 16);
          [ reflexivity | lia ].
      * intros t. unfold via_buffer.
        destruct (_ <=? 16)%nat; [ | discriminate ].
        intros [= <-]. reflexivity.
      * intros Hle. apply (Hfits 8%nat); [ | lia ].
        exact (proj1 (in_fixed_range_finite neg m e) Hin).
      * intros neg' m' e' [= <- <- <-] Hbelow.
        apply (Hfits (Z.to_nat (12 - Prec))); [ | lia ].
        rewrite Z2Nat.id by lia. exact Hbelow.
    + intros Hout. simpl. rewrite Hout. reflexivity.
  - repeat split.
    intros HPrec. unfold to_str_prec.
    destruct (Z.leb_spec 0 Prec); [ | reflexivity ].
    destruct (Z.ltb_spec Prec 7); [ lia | reflexivity ].
Qed.

(** The double 1.5 with three and with six fractional digits. *)
Lemma C8_fixed_precision_witness :
  (∃ f, to_str_prec false (mkRuntime "." 2) 3 = Some f ∧
        f (FFinite false 3 (-1)) = Text "1.500" ∧
        fixed_notation "." 3 "1.500") ∧
  (∃ f, to_str_prec false (mkRuntime "." 2) 6 = Some f ∧
        f (FFinite false 3 (-1)) = Text "1.500000" ∧
        fixed_notation "." 6 "1.500000").
Proof.
  split.
  - destruct (C8_fixed_precision false (mkRuntime "." 2) 3) as [H _].
    destruct H as (f & Hf & Hd); [ lia | ].
    exists f. split; [ exact Hf | ].
    destruct (Hd (FFinite false 3 (-1))) as [Hin _].
    destruct (Hin eq_refl) as (text & Hnot & Hfit & Hone & H4 & _).
    injection Hf as <-.
    rewrite <- (Hone "1.500" eq_refl) in Hnot.
    split; [ reflexivity | exact Hnot ].
  - destruct (C8_fixed_precision false (mkRuntime "." 2) 6) as [H _].
    destruct H as (f & Hf & Hd); [ lia | ].
    exists f. split; [ exact Hf | ].
    destruct (Hd (FFinite false 3 (-1))) as [Hin _].
    destruct (Hin eq_refl) as (text & Hnot & Hfit & Hone & _ & Hbelow).
    pose proof (Hbelow false 3%N (-1) eq_refl) as Hlen.
    specialize (Hfit (Hlen ltac:(vm_compute; reflexivity))).
    injection Hf as <-.
    rewrite <- (Hone "1.500000" eq_refl) in Hnot.
    split; [ reflexivity | exact Hnot ].
Defined.

(** Against C8 as the specification words it, at 1e8: the magnitude does
    not exceed 1e8, yet the test of line 39 fails and the text is in
    general notation, without the three fractional digits asked for. *)
Lemma C8_counterexample :
  is_double f1e8 = true ∧
  flt f1e8 (fabs f1e8) = false ∧
  in_fixed_range f1e8 = false ∧
  ∃ f, to_str_prec false (mkRuntime "." 2) 3 = Some f ∧
       f f1e8 = Text "1e+08" ∧
       ¬ fixed_notation "." 3 "1e+08".
Proof.
  split; [ reflexivity | ]. split; [ reflexivity | ]. split; [ reflexivity | ].
  eexists. split; [ reflexivity | ]. split; [ reflexivity | ].
  intros (sign & ip & fp & Heq & Hsign & Hne & Hip & Hfp & Hlen).
  destruct Hsign as [-> | ->]; simpl in Heq; [ | discriminate ].
  destruct ip as [|c1 ip]; [ contradiction | ].
  simpl in Heq. injection Heq as <- Heq.
  destruct ip as [|c2 ip]; simpl in Heq; [ discriminate | ].
  injection Heq as <- Heq. simpl in Hip. discriminate.
Qed.

(** Where the 16-byte buffer is too small: [-12345678.5] with six
    fractional digits needs 16 characters and the NUL. *)
Example to_str_prec_overrun :
  is_double (FFinite true 24691357 (-1)) = true ∧
  in_fixed_range (FFinite true 24691357 (-1)) = true ∧
  gstb_sprintf false (mkRuntime "." 2) (conv_f 6) (FFinite true 24691357 (-1))
    = "-12345678.500000" ∧
  (λ f, f (FFinite true 24691357 (-1))) <$> to_str_prec false (mkRuntime "." 2) 6
    = Some (Overrun 17).
Proof. repeat split; vm_compute; reflexivity. Qed.

(** Under USE_STD_SNPRINTF ("for benchmarking and testing only", line 8)
    the text comes from [std::sprintf], which prints the decimal point of
    the current locale: the same double 1.5 gives two texts. In the default
    build the text is what third_party/stb_sprintf.h writes, which is not
    among the sources. *)
Example to_str_under_std_sprintf :
  is_double (FFinite false 3 (-1)) = true ∧
  to_str_double true (mkRuntime "." 2) (FFinite false 3 (-1)) = Text "1.5" ∧
  to_str_double true (mkRuntime "," 2) (FFinite false 3 (-1)) = Text "1,5" ∧
  to_str_double true (mkRuntime "." 2) (FFinite false 3 (-1))
  ≠ to_str_double true (mkRuntime "," 2) (FFinite false 3 (-1)).
Proof. repeat split; try reflexivity. vm_compute. discriminate. Qed.

(* ===================================================================== *)
(** * Further properties of the code *)
(* ===================================================================== *)

#[local] Set Warnings "-clear-no-such-hyp".

(** ** The metadata map (mmcif.hh lines 50-68) *)

Lemma add_info_first_value block tag info :
  add_info block tag info =
  match first_value block tag with
  | Some v => <[tag := v]> info
  | None => info
  end.
Proof. unfold add_info, first_value. destruct (rows _); reflexivity. Qed.

Lemma add_info_lookup_ne block tag info k :
  tag ≠ k → add_info block tag info !! k = info !! k.
Proof.
  intros Hne. rewrite add_info_first_value.
  destruct (first_value block tag); [ apply lookup_insert_ne, Hne | reflexivity ].
Qed.

Lemma add_info_lookup_eq block tag info :
  add_info block tag info !! tag =
  match first_value block tag with
  | Some v => Some v
  | None => info !! tag
  end.
Proof.
  rewrite add_info_first_value.
  destruct (first_value block tag); [ apply lookup_insert_eq | reflexivity ].
Qed.

(** The map before the date rule of lines 65-66 is applied. *)
Lemma info_before_date_rule block :
  let info :=
    add_info block new_date_tag
      (add_info block old_date_tag
         (add_info block "_struct.title"
            (add_info block "_exptl.method"
               (add_info block "_cell.Z_PDB"
                  (add_info block "_entry.id" ∅))))) in
  info !! old_date_tag = first_value block old_date_tag ∧
  info !! new_date_tag = first_value block new_date_tag.
Proof.
  simpl. split.
  - rewrite add_info_lookup_ne by discriminate. rewrite add_info_lookup_eq.
    destruct (first_value block old_date_tag); [ reflexivity | ].
    rewrite !add_info_lookup_ne by discriminate. apply lookup_empty.
  - rewrite add_info_lookup_eq.
    destruct (first_value block new_date_tag); [ reflexivity | ].
    rewrite !add_info_lookup_ne by discriminate. apply lookup_empty.
Qed.

(** X1. The deposition date: the metadata map holds under the current date
    tag the block's value for that tag when it has one, and otherwise the
    value of the legacy date tag (absent when the block has neither); the
    legacy tag keeps its own value. *)
Theorem X1_deposition_date_fallback (block : Block) :
  read_info block !! new_date_tag =
    match first_value block new_date_tag with
    | Some v => Some v
    | None => first_value block old_date_tag
    end ∧
  read_info block !! old_date_tag = first_value block old_date_tag.
Proof.
  unfold read_info. cbv zeta.
  fold old_date_tag. fold new_date_tag.
  destruct (info_before_date_rule block) as [Hold Hnew]. cbv zeta in Hold, Hnew.
  rewrite !(add_info_lookup_ne _ "_struct_keywords.text") by discriminate.
  rewrite !(add_info_lookup_ne _ "_struct_keywords.pdbx_keywords")
    by discriminate.
  rewrite Hold, Hnew.
  destruct (first_value block old_date_tag) as [old|],
           (first_value block new_date_tag) as [new|]; split;
    try assumption.
  - rewrite lookup_insert_eq. reflexivity.
  - rewrite lookup_insert_ne by discriminate. exact Hold.
Qed.

(** Outside the current date tag, the metadata map is what the calls of
    [add_info] leave: the date rule writes under that tag only. *)
Lemma read_info_lookup_ne block k :
  k ≠ new_date_tag →
  read_info block !! k =
  add_info block "_struct_keywords.text"
    (add_info block "_struct_keywords.pdbx_keywords"
       (add_info block old_date_tag
          (add_info block "_struct.title"
             (add_info block "_exptl.method"
                (add_info block "_cell.Z_PDB"
                   (add_info block "_entry.id" ∅)))))) !! k.
Proof.
  intros Hk. unfold read_info. cbv zeta.
  fold old_date_tag. fold new_date_tag.
  set (info4 := add_info block "_struct.title" _).
  assert (∀ info : gmap string string,
            info !! k = add_info block old_date_tag info4 !! k →
            add_info block "_struct_keywords.text"
              (add_info block "_struct_keywords.pdbx_keywords" info) !! k
            = add_info block "_struct_keywords.text"
                (add_info block "_struct_keywords.pdbx_keywords"
                   (add_info block old_date_tag info4)) !! k) as Hcong.
  { intros info Hinfo.
    destruct (decide ("_struct_keywords.text" = k)) as [<- | Hne1].
    - rewrite !add_info_lookup_eq.
      destruct (first_value block "_struct_keywords.text"); [ reflexivity | ].
      rewrite !(add_info_lookup_ne _ "_struct_keywords.pdbx_keywords")
        by discriminate.
      exact Hinfo.
    - rewrite !(add_info_lookup_ne _ "_struct_keywords.text") by exact Hne1.
      destruct (decide ("_struct_keywords.pdbx_keywords" = k)) as [<- | Hne2].
      + rewrite !add_info_lookup_eq.
        destruct (first_value block "_struct_keywords.pdbx_keywords");
          [ reflexivity | exact Hinfo ].
      + rewrite !(add_info_lookup_ne _ "_struct_keywords.pdbx_keywords")
          by exact Hne2.
        exact Hinfo. }
  apply Hcong.
  assert (add_info block new_date_tag (add_info block old_date_tag info4) !! k
          = add_info block old_date_tag info4 !! k) as Hnew
    by (apply add_info_lookup_ne; congruence).
  destruct (_ !! old_date_tag) as [old|]; [ | exact Hnew ].
  destruct (_ !! new_date_tag); [ exact Hnew | ].
  rewrite lookup_insert_ne by congruence. exact Hnew.
Qed.

(** X2. The metadata map has an entry for each of the single-value tags
    (entry id, Z, method, title, the two keyword tags) that the block has,
    holding the tag's first value, and no entry under any tag that
    [add_info] is not called with. *)
Theorem X2_info_entries (block : Block) (tag : string) :
  (tag ∈ plain_info_tags → read_info block !! tag = first_value block tag) ∧
  (tag ∉ plain_info_tags → tag ≠ old_date_tag → tag ≠ new_date_tag →
   read_info block !! tag = None).
Proof.
  split.
  - unfold plain_info_tags. rewrite !elem_of_cons, elem_of_nil.
    intros [-> | [-> | [-> | [-> | [-> | [-> | []]]]]]];
      rewrite read_info_lookup_ne by discriminate;
      repeat first
        [ rewrite add_info_lookup_ne by discriminate
        | rewrite add_info_lookup_eq;
          (destruct (first_value block _); [ reflexivity | ]) ];
      apply lookup_empty.
  - unfold plain_info_tags. rewrite !not_elem_of_cons.
    intros (H1 & H2 & H3 & H4 & H5 & H6 & _) Hold Hnew.
    rewrite read_info_lookup_ne by exact Hnew.
    rewrite !add_info_lookup_ne by congruence. apply lookup_empty.
Qed.

Lemma X2_info_entries_witness :
  read_info (mkBlock "1ABC"
               [mkTable ["_entry.id"] [["1ABC"]];
                mkTable ["_struct.title"] [["?"]]])
  !! "_entry.id" = Some "1ABC" ∧
  read_info (mkBlock "1ABC"
               [mkTable ["_entry.id"] [["1ABC"]];
                mkTable ["_struct.title"] [["?"]]])
  !! "_struct.title" = Some "" ∧
  read_info (mkBlock "1ABC"
               [mkTable ["_entry.id"] [["1ABC"]];
                mkTable ["_struct.title"] [["?"]]])
  !! "_cell.length_a" = None.
Proof.
  split; [ | split ].
  - rewrite (proj1 (X2_info_entries _ "_entry.id")); [ reflexivity | ].
    unfold plain_info_tags. set_solver.
  - rewrite (proj1 (X2_info_entries _ "_struct.title")); [ reflexivity | ].
    unfold plain_info_tags. set_solver.
  - apply (proj2 (X2_info_entries _ "_cell.length_a"));
      [ unfold plain_info_tags; set_solver | discriminate | discriminate ].
Defined.

(** ** The anisotropic-U map (mmcif.hh lines 19-33) *)

Lemma fill_aniso_map_dom tab : ∀ m0 m,
  fill_aniso_map m0 tab = Ok m →
  dom m = dom m0 ∪ list_to_set ((λ ani, cell ani 0) <$> tab).
Proof.
  induction tab as [|ani rest IH]; intros m0 m H; simpl in H.
  - injection H as <-. simpl. set_solver.
  - inv_bind H. rewrite (IH _ _ H), dom_insert_L. simpl. set_solver.
Qed.

(** X3. The keys of the anisotropic-U map are exactly the ids of the rows
    of the anisotropic table: no row is dropped and no other key appears;
    in particular the map is empty exactly when the table has no row. *)
Theorem X3_anisotropic_keys (block : Block) (aniso_map : gmap string array6) :
  get_anisotropic_u block = Ok aniso_map →
  dom aniso_map
  = list_to_set ((λ ani, cell ani 0)
                   <$> rows (find block "_atom_site_anisotrop."
                               anisotrop_fields)) ∧
  (aniso_map = ∅
   ↔ rows (find block "_atom_site_anisotrop." anisotrop_fields) = []).
Proof.
  unfold get_anisotropic_u. intros H.
  pose proof (fill_aniso_map_dom _ _ _ H) as Hdom.
  rewrite dom_empty_L, (left_id_L ∅ (∪)) in Hdom.
  split; [ exact Hdom | ]. split.
  - intros ->. rewrite dom_empty_L in Hdom.
    destruct (rows _) as [|ani rest]; [ reflexivity | ].
    simpl in Hdom. set_solver.
  - intros Hrows. rewrite Hrows in H. simpl in H. congruence.
Qed.

Lemma X3_anisotropic_keys_witness :
  ∃ m, get_anisotropic_u
         (Samples.block_of
            [Samples.aniso_table
               [Samples.aniso_1;
                ["2"; "1"; "1"; "1"; "0"; "0"; "0"];
                ["1"; "2"; "2"; "2"; "0"; "0"; "0"]]]) = Ok m ∧
       dom m = ({[ "1"; "2" ]} : gset string).
Proof.
  assert (∃ m, get_anisotropic_u
                 (Samples.block_of
                    [Samples.aniso_table
                       [Samples.aniso_1;
                        ["2"; "1"; "1"; "1"; "0"; "0"; "0"];
                        ["1"; "2"; "2"; "2"; "0"; "0"; "0"]]]) = Ok m)
    as [m Hm] by (eexists; reflexivity).
  exists m. split; [ exact Hm | ].
  rewrite (proj1 (X3_anisotropic_keys _ _ Hm)). vm_compute. reflexivity.
Defined.

(** ** Assertions and the result (mmcif.hh lines 107-156) *)

Lemma select_residue_agree UnknownId cur row :
  (∀ a, select_residue UnknownId false cur row ≠ Abort a) →
  select_residue UnknownId true cur row
  = select_residue UnknownId false cur row.
Proof.
  unfold select_residue.
  destruct (as_int (cell row kSeqId) UnknownId) as [seq_id| |]; simpl;
    [ | reflexivity | reflexivity ].
  destruct (as_int (cell row kAuthSeqId) UnknownId) as [auth_seq_id| |]; simpl;
    [ | reflexivity | reflexivity ].
  destruct (starts_new_residue _ _ _ _ _ _); unfold c_assert.
  - destruct (String.length (cell row kInsCode) =? 1)%nat; simpl;
      [ reflexivity | ].
    intros H. exfalso. eapply H. reflexivity.
  - destruct (author_ids_agree _ _ _); simpl; [ reflexivity | ].
    intros H. exfalso. eapply H. reflexivity.
Qed.

Lemma atom_site_row_agree UnknownId aniso_map cur row :
  (∀ a, atom_site_row UnknownId false aniso_map cur row ≠ Abort a) →
  atom_site_row UnknownId true aniso_map cur row
  = atom_site_row UnknownId false aniso_map cur row.
Proof.
  unfold atom_site_row. intros H.
  rewrite select_residue_agree; [ reflexivity | ].
  intros a Ha. apply (H a). rewrite Ha. reflexivity.
Qed.

Lemma atom_site_loop_agree UnknownId aniso_map tab : ∀ cur,
  (∀ a, atom_site_loop UnknownId false aniso_map cur tab ≠ Abort a) →
  atom_site_loop UnknownId true aniso_map cur tab
  = atom_site_loop UnknownId false aniso_map cur tab.
Proof.
  induction tab as [|row rest IH]; intros cur H; simpl; [ reflexivity | ].
  simpl in H. rewrite atom_site_row_agree.
  - destruct (atom_site_row UnknownId false aniso_map cur row) as [cur'| |];
      simpl in *; [ apply IH, H | reflexivity | reflexivity ].
  - intros a Ha. apply (H a). rewrite Ha. reflexivity.
Qed.

(** X4. Assertions do not change what is built: whenever the build with
    assertions compiled in does not stop on an assertion, the build with
    NDEBUG gives the very same outcome, the same Structure or the same
    exception. *)
Theorem X4_assertions_do_not_change_the_result (UnknownId : Z)
    (block : Block) :
  (∀ a, structure_from_cif_block UnknownId false block ≠ Abort a) →
  structure_from_cif_block UnknownId true block
  = structure_from_cif_block UnknownId false block.
Proof.
  unfold structure_from_cif_block. intros H.
  destruct (read_cell block) as [cell| |]; simpl in *; try reflexivity.
  destruct (ncs_oper_loop _ _) as [ncs| |]; simpl in *; try reflexivity.
  destruct (get_anisotropic_u block) as [aniso_map| |]; simpl in *;
    try reflexivity.
  unfold build_models in *.
  rewrite atom_site_loop_agree; [ reflexivity | ].
  intros a Ha. apply (H a). rewrite Ha. reflexivity.
Qed.

Lemma X4_assertions_do_not_change_the_result_witness :
  structure_from_cif_block Samples.unknown_id true
    (Samples.block_of
       [Samples.atom_site_table [Samples.hoh_ins_A; Samples.hoh_ins_B]])
  = structure_from_cif_block Samples.unknown_id false
      (Samples.block_of
         [Samples.atom_site_table [Samples.hoh_ins_A; Samples.hoh_ins_B]]).
Proof.
  apply X4_assertions_do_not_change_the_result.
  intros a. vm_compute. discriminate.
Defined.

(** ** Atoms are neither lost nor duplicated (mmcif.hh lines 107-156) *)

Lemma atom_site_row_atoms UnknownId NDEBUG aniso_map cur row cur' :
  atom_site_row UnknownId NDEBUG aniso_map cur row = Ok cur' →
  ∃ atom, make_atom aniso_map row = Ok atom ∧
          all_atoms (models cur') ≡ₚ atom :: all_atoms (models cur).
Proof.
  intros H.
  apply atom_site_row_tree in H
    as (mb & mi & m & cb & ci & ch & auth_name & rb & ri & r & atom &
        Hmb & Hcb & Hrb & Hatom & _ & ->).
  exists atom. split; [ exact Hatom | ].
  unfold row_tree, all_atoms.
  apply (based_insert_bind _ atoms_of_model _ _ _ m _ [atom] Hmb).
  { intros Hnil. unfold atoms_of_model. rewrite Hnil. reflexivity. }
  unfold atoms_of_model at 1. simpl.
  apply (based_insert_bind _ atoms_of_chain _ _ _ ch _ [atom] Hcb).
  { intros Hnil. unfold atoms_of_chain. rewrite Hnil. reflexivity. }
  unfold atoms_of_chain at 1. simpl.
  apply (based_insert_bind _ Residue.atoms _ _ _ r _ [atom] Hrb).
  { auto. }
  simpl. symmetry. apply Permutation_cons_append.
Qed.

Lemma atom_site_loop_atoms UnknownId NDEBUG aniso_map tab : ∀ cur cur',
  atom_site_loop UnknownId NDEBUG aniso_map cur tab = Ok cur' →
  ∃ atoms, Forall2 (λ row atom, make_atom aniso_map row = Ok atom) tab atoms ∧
           all_atoms (models cur') ≡ₚ all_atoms (models cur) ++ atoms.
Proof.
  induction tab as [|row rest IH]; intros cur cur' H; simpl in H.
  - injection H as <-. exists []. split; [ constructor | ].
    rewrite app_nil_r. reflexivity.
  - inv_bind H. destruct (atom_site_row_atoms _ _ _ _ _ _ Hv) as (atom & Ha & Hp).
    destruct (IH _ _ H) as (atoms & Hall & Hp').
    exists (atom :: atoms). split; [ constructor; assumption | ].
    rewrite Hp', Hp. simpl. apply Permutation_middle.
Qed.

(** The linkage leaves the atoms where they are. *)
Lemma linked_models_atoms tab es ms ms' :
  Forall2 (linked_model tab es) ms ms' → all_atoms ms' = all_atoms ms.
Proof.
  induction 1 as [|m m' ms ms' (_ & Hchs) _ IH]; [ reflexivity | ].
  unfold all_atoms in *. rewrite !bind_cons, IH. f_equal.
  unfold atoms_of_model. clear IH.
  induction Hchs as [|ch ch' chs chs' (_ & _ & Hr & _) _ IH]; [ reflexivity | ].
  rewrite !bind_cons, IH. unfold atoms_of_chain. rewrite Hr. reflexivity.
Qed.

(** X5. The returned Structure holds exactly the atoms of the rows of the
    atom table, one per row: no atom is lost, none is stored twice, and
    none comes from elsewhere. In particular their number is the number of
    rows. *)
Theorem X5_one_atom_per_row (UnknownId : Z) (NDEBUG : bool) (block : Block)
    (st : Structure.t) :
  structure_from_cif_block UnknownId NDEBUG block = Ok st →
  ∃ aniso_map atoms,
    get_anisotropic_u block = Ok aniso_map ∧
    Forall2 (λ row atom, make_atom aniso_map row = Ok atom)
      (rows (find block "_atom_site." atom_site_fields)) atoms ∧
    all_atoms (Structure.models st) ≡ₚ atoms ∧
    List.length (all_atoms (Structure.models st))
    = List.length (rows (find block "_atom_site." atom_site_fields)).
Proof.
  intros H.
  apply structure_from_cif_block_Ok in H
    as (cell & ncs & aniso_map & ms & es & es' & ms' &
        _ & _ & Haniso & Hb & _ & Hl & ->).
  unfold build_models in Hb. inv_bind Hb. injection Hb as <-.
  destruct (atom_site_loop_atoms _ _ _ _ _ _ Hv) as (atoms & Hall & Hp).
  simpl in Hp.
  destruct (link_models_spec (find block "_struct_asym." ["id"; "entity_id"])
              (models v) es) as (es2 & ms2 & Hl2 & _ & Hlinked).
  rewrite Hl in Hl2. injection Hl2 as <- <-.
  exists aniso_map, atoms. simpl.
  rewrite (linked_models_atoms _ _ _ _ Hlinked).
  repeat split; try assumption.
  rewrite Hp. symmetry. eapply Forall2_length. exact Hall.
Qed.

Lemma X5_one_atom_per_row_witness :
  ∃ st, structure_from_cif_block Samples.unknown_id false
          (Samples.block_of
             [Samples.atom_site_table
                [Samples.ala_1; Samples.hoh_ins_A; Samples.hoh_ins_B]]) = Ok st ∧
        List.length (all_atoms (Structure.models st)) = 3%nat.
Proof.
  assert (∃ st, structure_from_cif_block Samples.unknown_id false
                  (Samples.block_of
                     [Samples.atom_site_table
                        [Samples.ala_1; Samples.hoh_ins_A; Samples.hoh_ins_B]])
                = Ok st) as [st Hst] by (eexists; vm_compute; reflexivity).
  exists st. split; [ exact Hst | ].
  destruct (X5_one_atom_per_row _ _ _ _ Hst) as (_ & _ & _ & _ & _ & ->).
  reflexivity.
Defined.

(** ** Nothing is left empty (mmcif.hh lines 107-156) *)

Lemma with_atom_full r atom : full_residue (with_atom r atom).
Proof.
  unfold full_residue, with_atom. simpl. intros H.
  apply (f_equal List.length) in H. rewrite length_app in H. simpl in H. lia.
Qed.

Lemma atom_site_row_full UnknownId NDEBUG aniso_map cur row cur' :
  atom_site_row UnknownId NDEBUG aniso_map cur row = Ok cur' →
  Forall full_model (models cur) → Forall full_model (models cur').
Proof.
  intros H Hfull.
  apply atom_site_row_tree in H
    as (mb & mi & m & cb & ci & ch & auth_name & rb & ri & r & atom &
        Hmb & Hcb & Hrb & _ & _ & ->).
  unfold row_tree.
  assert (Forall full_chain (Model.chains m)) as Hchains.
  { destruct (based_element _ full_model _ _ _ _ Hmb Hfull) as [[_ H] | ->];
      [ exact H | constructor ]. }
  assert (Forall full_residue (Chain.residues ch)) as Hres.
  { destruct (based_element _ full_chain _ _ _ _ Hcb Hchains) as [[_ H] | ->];
      [ exact H | constructor ]. }
  apply (based_insert_Forall _ _ _ _ _ _ _ Hmb Hfull).
  split; simpl; [ eapply insert_nonempty, Hcb | ].
  apply (based_insert_Forall _ _ _ _ _ _ _ Hcb Hchains).
  split; simpl; [ eapply insert_nonempty, Hrb | ].
  apply (based_insert_Forall _ _ _ _ _ _ _ Hrb Hres).
  apply with_atom_full.
Qed.

Lemma atom_site_loop_full UnknownId NDEBUG aniso_map tab : ∀ cur cur',
  atom_site_loop UnknownId NDEBUG aniso_map cur tab = Ok cur' →
  Forall full_model (models cur) → Forall full_model (models cur').
Proof.
  induction tab as [|row rest IH]; intros cur cur' H Hfull; simpl in H.
  - injection H as <-. exact Hfull.
  - inv_bind H. eapply IH; [ exact H | ].
    eapply atom_site_row_full; eassumption.
Qed.

Lemma linked_models_full tab es ms ms' :
  Forall2 (linked_model tab es) ms ms' →
  Forall full_model ms → Forall full_model ms'.
Proof.
  induction 1 as [|m m' ms ms' (_ & Hchs) _ IH]; intros Hfull;
    [ constructor | ].
  apply Forall_cons in Hfull as [[Hne Hm] Hms].
  constructor; [ | apply IH, Hms ].
  split.
  - intros Hnil. rewrite Hnil in Hchs. apply Hne.
    destruct (Model.chains m); [ reflexivity | inversion Hchs ].
  - clear Hne. induction Hchs as [|ch ch' chs chs' (_ & _ & Hr & _) _ IHc];
      [ constructor | ].
    apply Forall_cons in Hm as [Hch Hm].
    constructor; [ | apply IHc, Hm ].
    unfold full_chain in *. rewrite Hr. exact Hch.
Qed.

(** X6. Nothing in the returned Structure is empty: every model has a
    chain, every chain a residue and every residue an atom. *)
Theorem X6_no_empty_container (UnknownId : Z) (NDEBUG : bool) (block : Block)
    (st : Structure.t) :
  structure_from_cif_block UnknownId NDEBUG block = Ok st →
  Forall full_model (Structure.models st).
Proof.
  intros H.
  apply structure_from_cif_block_Ok in H
    as (cell & ncs & aniso_map & ms & es & es' & ms' &
        _ & _ & _ & Hb & _ & Hl & ->).
  unfold build_models in Hb. inv_bind Hb. injection Hb as <-.
  destruct (link_models_spec (find block "_struct_asym." ["id"; "entity_id"])
              (models v) es) as (es2 & ms2 & Hl2 & _ & Hlinked).
  rewrite Hl in Hl2. injection Hl2 as <- <-. simpl.
  eapply linked_models_full; [ exact Hlinked | ].
  eapply atom_site_loop_full; [ exact Hv | constructor ].
Qed.

Lemma X6_no_empty_container_witness :
  ∃ st, structure_from_cif_block Samples.unknown_id true
          (Samples.block_of
             [Samples.atom_site_table
                [Samples.ala_1; Samples.hoh_ins_A; Samples.ala_1_auth_7]]) = Ok st ∧
        Forall full_model (Structure.models st).
Proof.
  assert (∃ st, structure_from_cif_block Samples.unknown_id true
                  (Samples.block_of
                     [Samples.atom_site_table
                        [Samples.ala_1; Samples.hoh_ins_A;
                         Samples.ala_1_auth_7]])
                = Ok st) as [st Hst] by (eexists; vm_compute; reflexivity).
  exists st. split; [ exact Hst | ].
  exact (X6_no_empty_container _ _ _ _ Hst).
Defined.

(** ** Entities and their sequences (mmcif.hh lines 158-178) *)

Lemma same_identity_all es : Forall2 same_identity es es.
Proof. induction es; constructor; [ split; reflexivity | assumption ]. Qed.

Lemma continues_refl es : continues es es.
Proof.
  exists es, []. rewrite app_nil_r. split; [ reflexivity | ].
  apply same_identity_all.
Qed.

Lemma continues_trans es1 es2 es3 :
  continues es1 es2 → continues es2 es3 → continues es1 es3.
Proof.
  intros (f1 & r1 & -> & H1) (f2 & r2 & -> & H2).
  apply Forall2_app_inv_l in H2 as (a & b & Ha & _ & ->).
  exists a, (b ++ r2)%list. rewrite app_assoc. split; [ reflexivity | ].
  clear b r1 r2. revert a Ha.
  induction H1 as [|e e' es f1 (Hi & Ht) _ IH]; intros a Ha.
  - inversion Ha. constructor.
  - inversion Ha as [|? e'' ? a' (Hi' & Ht') Ha']; subst.
    constructor; [ split; congruence | apply IH, Ha' ].
Qed.

Lemma continues_prefix es es' : es `prefix_of` es' → continues es es'.
Proof.
  intros [rest ->]. exists es, rest. split; [ reflexivity | ].
  apply same_identity_all.
Qed.

Lemma continues_alter (f : Entity.t → Entity.t) i es :
  (∀ e, same_identity e (f e)) → continues es (alter f i es).
Proof.
  intros Hf. exists (alter f i es), []. rewrite app_nil_r.
  split; [ reflexivity | ]. revert i.
  induction es as [|e es IH]; intros [|i]; simpl; constructor;
    first [ apply Hf | apply same_identity_all | apply IH
          | split; reflexivity ].
Qed.

Lemma find_or_add_entity_based id es :
  ∃ eb ei e, find_or_add_entity id es = (eb, ei) ∧
             based (λ e, Entity.sequence e = []) es eb ei e ∧
             Entity.id e = id.
Proof.
  unfold find_or_add_entity.
  destruct (list_find _ es) as [[i e]|] eqn:Hf.
  - apply list_find_Some in Hf as (Hi & Hn & _).
    exists es, i, e. repeat split; auto.
  - eexists _, _, (Entity.mk id Unknown []). split; [ reflexivity | ].
    split; [ split | reflexivity ].
    + rewrite lookup_app_r by lia. rewrite Nat.sub_diag. reflexivity.
    + right. auto.
Qed.

Lemma based_prefix {A} (E : A → Prop) l lb i x :
  based E l lb i x → l `prefix_of` lb.
Proof.
  intros [_ [-> | (_ & -> & _)]]; [ reflexivity | ].
  apply prefix_app_r. reflexivity.
Qed.

Lemma based_bind {A B} (E : A → Prop) (g : A → list B) l lb i x :
  based E l lb i x → (E x → g x = []) → lb ≫= g = l ≫= g.
Proof.
  intros [_ [-> | (Hx & -> & _)]] HE; [ reflexivity | ].
  rewrite bind_app. simpl. rewrite (HE Hx), !app_nil_r. reflexivity.
Qed.

(** The sequence pass keeps the entities it is given and stores one entry
    per row. *)
Lemma poly_seq_loop_spec tab : ∀ es es',
  poly_seq_loop es tab = Ok es' →
  continues es es' ∧
  ∃ entries,
    Forall2 (λ row entry, as_int (cell row 1) (-1) = Ok (fst entry)
                          ∧ snd entry = as_str row 2) tab entries ∧
    all_sequence es' ≡ₚ all_sequence es ++ entries.
Proof.
  induction tab as [|row rest IH]; intros es es' H; simpl in H.
  - injection H as <-. split; [ apply continues_refl | ].
    exists []. split; [ constructor | ]. rewrite app_nil_r. reflexivity.
  - destruct (find_or_add_entity_based (as_str row 0) es)
      as (eb & ei & e & Hfind & Hb & _).
    rewrite Hfind in H. inv_bind H.
    destruct (IH _ _ H) as (Hc & entries & Hall & Hp). split.
    + eapply continues_trans; [ | exact Hc ].
      eapply continues_trans;
        [ apply continues_prefix, (based_prefix _ _ _ _ _ Hb) | ].
      apply continues_alter. intros ?. split; reflexivity.
    + exists ((v, as_str row 2) :: entries).
      split; [ constructor; [ split; [ exact Hv | reflexivity ] | exact Hall ] | ].
      rewrite Hp. rewrite (alter_as_insert _ _ _ e (proj1 Hb)).
      unfold all_sequence.
      rewrite (based_insert_bind _ Entity.sequence _ _ _ e _
                 [(v, as_str row 2)] Hb); [ | auto | ].
      * simpl. apply Permutation_middle.
      * simpl. symmetry. apply Permutation_cons_append.
Qed.

(** The linkage may append entities, without sequence. *)
Lemma link_chain_sequence tab es ch es' ch' :
  link_chain tab es ch = Ok (es', ch') → all_sequence es' = all_sequence es.
Proof.
  unfold link_chain.
  destruct (find_row tab (Chain.name ch)) as [row|[|]|]; simpl;
    try discriminate.
  - destruct (find_or_add_entity_based (as_str row 1) es)
      as (eb & ei & e & -> & Hb & _).
    simpl. intros [= <- <-]. unfold all_sequence.
    apply (based_bind _ _ _ _ _ _ Hb). auto.
  - intros [= <- <-]. reflexivity.
Qed.

Lemma link_chains_sequence tab chs : ∀ es es' chs',
  link_chains tab es chs = Ok (es', chs') → all_sequence es' = all_sequence es.
Proof.
  induction chs as [|ch rest IH]; intros es es' chs' H; simpl in H.
  - injection H as <- <-. reflexivity.
  - inv_bind H. destruct v as [es1 ch']. inv_bind H. destruct v as [es2 r'].
    injection H as <- <-.
    rewrite (IH _ _ _ Hv0). eapply link_chain_sequence, Hv.
Qed.

Lemma link_models_sequence tab ms : ∀ es es' ms',
  link_models tab es ms = Ok (es', ms') → all_sequence es' = all_sequence es.
Proof.
  induction ms as [|m rest IH]; intros es es' ms' H; simpl in H.
  - injection H as <- <-. reflexivity.
  - inv_bind H. destruct v as [es1 chs]. inv_bind H. destruct v as [es2 r'].
    injection H as <- <-.
    rewrite (IH _ _ _ Hv0). eapply link_chains_sequence, Hv.
Qed.

Lemma read_entities_rows block :
  Forall2 (λ row e, Entity.id e = as_str row 0 ∧
                    Entity.type e = entity_type_from_string (as_str row 1))
    (rows (find block "_entity." ["id"; "type"])) (read_entities block)
  ∧ all_sequence (read_entities block) = [].
Proof.
  unfold read_entities.
  induction (rows (find block "_entity." ["id"; "type"])) as [|row rest [IH1 IH2]];
    simpl; split; try constructor; auto.
Qed.

Lemma rows_same_identity (tab : list (list string)) es front :
  Forall2 (λ row e, Entity.id e = as_str row 0 ∧
                    Entity.type e = entity_type_from_string (as_str row 1))
    tab es →
  Forall2 same_identity es front →
  Forall2 (λ row e, Entity.id e = as_str row 0 ∧
                    Entity.type e = entity_type_from_string (as_str row 1))
    tab front.
Proof.
  intros Hrows. revert front.
  induction Hrows as [|row e tab es (Hi & Ht) _ IH]; intros front Hall;
    inversion Hall as [|? e' ? front' (Hi' & Ht') Hall']; subst;
    constructor; [ split; congruence | apply IH, Hall' ].
Qed.

(** X7. Every row of the entity table is an entity of the returned
    Structure, at the row's position and with the row's id and the type
    its type text maps to; the sequence pass and the chain linkage only
    append entities after them. *)
Theorem X7_entities_of_the_table (UnknownId : Z) (NDEBUG : bool)
    (block : Block) (st : Structure.t) :
  structure_from_cif_block UnknownId NDEBUG block = Ok st →
  ∃ front rest,
    Structure.entities st = (front ++ rest)%list ∧
    Forall2 (λ row e, Entity.id e = as_str row 0 ∧
                      Entity.type e = entity_type_from_string (as_str row 1))
      (rows (find block "_entity." ["id"; "type"])) front.
Proof.
  intros H.
  apply structure_from_cif_block_Ok in H
    as (cell & ncs & aniso_map & ms & es & es' & ms' &
        _ & _ & _ & _ & Hseq & Hl & ->).
  simpl.
  destruct (poly_seq_loop_spec _ _ _ Hseq) as [Hc1 _].
  destruct (link_models_spec (find block "_struct_asym." ["id"; "entity_id"])
              ms es) as (es2 & ms2 & Hl2 & Hp & _).
  rewrite Hl in Hl2. injection Hl2 as <- <-.
  destruct (continues_trans _ _ _ Hc1 (continues_prefix _ _ Hp))
    as (front & rest & -> & Hall).
  exists front, rest. split; [ reflexivity | ].
  destruct (read_entities_rows block) as [Hrows _].
  eapply rows_same_identity; eassumption.
Qed.

Lemma X7_entities_of_the_table_witness :
  ∃ st, structure_from_cif_block Samples.unknown_id false
          (Samples.block_of
             [mkTable ["_entity.id"; "_entity.type"]
                [["1"; "polymer"]; ["2"; "water"]];
              mkTable ["_entity_poly_seq.entity_id"; "_entity_poly_seq.num";
                       "_entity_poly_seq.mon_id"]
                [["1"; "1"; "ALA"]; ["3"; "1"; "GLY"]; ["1"; "2"; "SER"]]])
        = Ok st ∧
        List.map (λ e, (Entity.id e, Entity.type e)) (Structure.entities st)
        = [("1", Polymer); ("2", Water); ("3", Unknown)].
Proof.
  assert (∃ st, structure_from_cif_block Samples.unknown_id false
                  (Samples.block_of
                     [mkTable ["_entity.id"; "_entity.type"]
                        [["1"; "polymer"]; ["2"; "water"]];
                      mkTable ["_entity_poly_seq.entity_id";
                               "_entity_poly_seq.num";
                               "_entity_poly_seq.mon_id"]
                        [["1"; "1"; "ALA"]; ["3"; "1"; "GLY"];
                         ["1"; "2"; "SER"]]]) = Ok st) as [st Hst]
    by (eexists; vm_compute; reflexivity).
  exists st. split; [ exact Hst | ].
  destruct (X7_entities_of_the_table _ _ _ _ Hst) as (front & rest & _ & _).
  vm_compute in Hst. injection Hst as <-. reflexivity.
Defined.

(** X8. The sequences of the entities of the returned Structure hold
    exactly one entry per row of the sequence table, the row's position
    (or -1) with its monomer id: no entry is lost and none is stored
    twice. *)
Theorem X8_one_sequence_entry_per_row (UnknownId : Z) (NDEBUG : bool)
    (block : Block) (st : Structure.t) :
  structure_from_cif_block UnknownId NDEBUG block = Ok st →
  ∃ entries,
    Forall2 (λ row entry, as_int (cell row 1) (-1) = Ok (fst entry)
                          ∧ snd entry = as_str row 2)
      (rows (find block "_entity_poly_seq." ["entity_id"; "num"; "mon_id"]))
      entries ∧
    all_sequence (Structure.entities st) ≡ₚ entries.
Proof.
  intros H.
  apply structure_from_cif_block_Ok in H
    as (cell & ncs & aniso_map & ms & es & es' & ms' &
        _ & _ & _ & _ & Hseq & Hl & ->).
  simpl.
  destruct (poly_seq_loop_spec _ _ _ Hseq) as (_ & entries & Hall & Hp).
  exists entries. split; [ exact Hall | ].
  rewrite (link_models_sequence _ _ _ _ _ Hl), Hp.
  rewrite (proj2 (read_entities_rows block)). reflexivity.
Qed.

Lemma X8_one_sequence_entry_per_row_witness :
  ∃ st, structure_from_cif_block Samples.unknown_id false
          (Samples.block_of
             [mkTable ["_entity_poly_seq.entity_id"; "_entity_poly_seq.num";
                       "_entity_poly_seq.mon_id"]
                [["1"; "1"; "ALA"]; ["3"; "?"; "GLY"]; ["1"; "2"; "SER"]]])
        = Ok st ∧
        all_sequence (Structure.entities st)
        = [(1, "ALA"); (2, "SER"); (-1, "GLY")] ∧
        ∃ entries,
          Forall2 (λ row entry, as_int (cell row 1) (-1) = Ok (fst entry)
                                ∧ snd entry = as_str row 2)
            [["1"; "1"; "ALA"]; ["3"; "?"; "GLY"]; ["1"; "2"; "SER"]]
            entries ∧
          all_sequence (Structure.entities st) ≡ₚ entries.
Proof.
  assert (∃ st, structure_from_cif_block Samples.unknown_id false
                  (Samples.block_of
                     [mkTable ["_entity_poly_seq.entity_id";
                               "_entity_poly_seq.num";
                               "_entity_poly_seq.mon_id"]
                        [["1"; "1"; "ALA"]; ["3"; "?"; "GLY"];
                         ["1"; "2"; "SER"]]]) = Ok st) as [st Hst]
    by (eexists; vm_compute; reflexivity).
  exists st. split; [ exact Hst | ]. split.
  - vm_compute in Hst. injection Hst as <-. reflexivity.
  - exact (X8_one_sequence_entry_per_row _ _ _ _ Hst).
Defined.

(** ** Where the atoms are filed (mmcif.hh lines 107-156) *)

Lemma atom_site_row_filed UnknownId NDEBUG aniso_map cur row cur' :
  atom_site_row UnknownId NDEBUG aniso_map cur row = Ok cur' →
  ∃ p, filed_by UnknownId aniso_map row p ∧
       all_filed (models cur') ≡ₚ p :: all_filed (models cur).
Proof.
  intros H.
  apply atom_site_row_tree in H
    as (mb & mi & m & cb & ci & ch & auth_name & rb & ri & r & atom &
        Hmb & Hcb & Hrb & Hatom & (Hm & Hch & Hseq & Hr) & ->).
  set (p := mkFiled (Model.name m) (Chain.name ch) (Residue.seq_id r)
              (Residue.name r) atom).
  exists p. split; [ unfold filed_by; simpl; auto | ].
  unfold row_tree, all_filed.
  apply (based_insert_bind _ filed_in_model _ _ _ m _ [p] Hmb).
  { intros Hnil. unfold filed_in_model. rewrite Hnil. reflexivity. }
  unfold filed_in_model at 1. simpl.
  apply (based_insert_bind _ (filed_in_chain (Model.name m)) _ _ _ ch _ [p] Hcb).
  { intros Hnil. unfold filed_in_chain. rewrite Hnil. reflexivity. }
  unfold filed_in_chain at 1. simpl.
  apply (based_insert_bind _ (filed_in_residue (Model.name m) (Chain.name ch))
           _ _ _ r _ [p] Hrb).
  { intros Hnil. unfold filed_in_residue. rewrite Hnil. reflexivity. }
  unfold filed_in_residue, with_atom. simpl. rewrite fmap_app. simpl.
  symmetry. apply Permutation_cons_append.
Qed.

Lemma atom_site_loop_filed UnknownId NDEBUG aniso_map tab : ∀ cur cur',
  atom_site_loop UnknownId NDEBUG aniso_map cur tab = Ok cur' →
  ∃ places, Forall2 (filed_by UnknownId aniso_map) tab places ∧
            all_filed (models cur') ≡ₚ all_filed (models cur) ++ places.
Proof.
  induction tab as [|row rest IH]; intros cur cur' H; simpl in H.
  - injection H as <-. exists []. split; [ constructor | ].
    rewrite app_nil_r. reflexivity.
  - inv_bind H. destruct (atom_site_row_filed _ _ _ _ _ _ Hv) as (p & Hp & Hperm).
    destruct (IH _ _ H) as (places & Hall & Hperm').
    exists (p :: places). split; [ constructor; assumption | ].
    rewrite Hperm', Hperm. simpl. apply Permutation_middle.
Qed.

(** The linkage changes no name and moves no atom. *)
Lemma linked_models_filed tab es ms ms' :
  Forall2 (linked_model tab es) ms ms' → all_filed ms' = all_filed ms.
Proof.
  induction 1 as [|m m' ms ms' (Hn & Hchs) _ IH]; [ reflexivity | ].
  unfold all_filed in *. rewrite !bind_cons, IH. f_equal.
  unfold filed_in_model. rewrite Hn. clear IH.
  induction Hchs as [|ch ch' chs chs' (Hcn & _ & Hr & _) _ IH]; [ reflexivity | ].
  rewrite !bind_cons, IH. unfold filed_in_chain. rewrite Hr, Hcn. reflexivity.
Qed.

(** X9. Every atom is filed where its
    row says: the atoms of the returned Structure, each taken with the
    names of its model and chain and the sequence number and name of its
    residue, are exactly the atoms of the rows of the atom table, each
    with the row's model number, chain label, sequence number and residue
    name. A label or residue name is the cell as it stands or the cell read
    as a string, for the code compares the one and stores the other. *)
Theorem X9_atoms_filed_as_their_rows_say (UnknownId : Z) (NDEBUG : bool)
    (block : Block) (st : Structure.t) :
  structure_from_cif_block UnknownId NDEBUG block = Ok st →
  ∃ aniso_map places,
    get_anisotropic_u block = Ok aniso_map ∧
    Forall2 (filed_by UnknownId aniso_map)
      (rows (find block "_atom_site." atom_site_fields)) places ∧
    all_filed (Structure.models st) ≡ₚ places.
Proof.
  intros H.
  apply structure_from_cif_block_Ok in H
    as (cell & ncs & aniso_map & ms & es & es' & ms' &
        _ & _ & Haniso & Hb & _ & Hl & ->).
  unfold build_models in Hb. inv_bind Hb. injection Hb as <-.
  destruct (atom_site_loop_filed _ _ _ _ _ _ Hv) as (places & Hall & Hp).
  simpl in Hp.
  destruct (link_models_spec (find block "_struct_asym." ["id"; "entity_id"])
              (models v) es) as (es2 & ms2 & Hl2 & _ & Hlinked).
  rewrite Hl in Hl2. injection Hl2 as <- <-.
  exists aniso_map, places. simpl.
  rewrite (linked_models_filed _ _ _ _ Hlinked).
  repeat split; assumption.
Qed.

Lemma X9_atoms_filed_as_their_rows_say_witness :
  ∃ st, structure_from_cif_block Samples.unknown_id false
          (Samples.block_of
             [Samples.atom_site_table
                [Samples.ala_1; Samples.hoh_ins_A; Samples.hoh_ins_B]]) = Ok st ∧
        ∃ places,
          Forall2 (filed_by Samples.unknown_id ∅)
            [Samples.ala_1; Samples.hoh_ins_A; Samples.hoh_ins_B] places ∧
          all_filed (Structure.models st) ≡ₚ places.
Proof.
  assert (∃ st, structure_from_cif_block Samples.unknown_id false
                  (Samples.block_of
                     [Samples.atom_site_table
                        [Samples.ala_1; Samples.hoh_ins_A; Samples.hoh_ins_B]])
                = Ok st) as [st Hst] by (eexists; vm_compute; reflexivity).
  exists st. split; [ exact Hst | ].
  destruct (X9_atoms_filed_as_their_rows_say _ _ _ _ Hst)
    as (aniso_map & places & Ha & Hf & Hp).
  vm_compute in Ha. injection Ha as <-.
  exists places. split; [ exact Hf | exact Hp ].
Defined.

(** ** Atoms keep the order of their rows (mmcif.hh lines 107-156) *)

Lemma in_order_of_more atoms extra m :
  in_order_of atoms m → in_order_of (atoms ++ extra) m.
Proof.
  unfold in_order_of. intros H.
  eapply Forall_impl; [ exact H | ]. intros ch Hch. simpl in Hch.
  eapply Forall_impl; [ exact Hch | ]. intros r Hr. simpl in Hr.
  apply sublist_inserts_r, Hr.
Qed.

Lemma atom_site_row_order UnknownId NDEBUG aniso_map cur row cur' atoms :
  atom_site_row UnknownId NDEBUG aniso_map cur row = Ok cur' →
  Forall (in_order_of atoms) (models cur) →
  ∃ atom, make_atom aniso_map row = Ok atom ∧
          Forall (in_order_of (atoms ++ [atom])) (models cur').
Proof.
  intros H Hord.
  apply atom_site_row_tree in H
    as (mb & mi & m & cb & ci & ch & auth_name & rb & ri & r & atom &
        Hmb & Hcb & Hrb & Hatom & _ & ->).
  exists atom. split; [ exact Hatom | ].
  assert (in_order_of atoms m) as Hm.
  { destruct (based_element _ (in_order_of atoms) _ _ _ _ Hmb Hord)
      as [H | Hnil]; [ exact H | ].
    unfold in_order_of. rewrite Hnil. constructor. }
  assert (Forall (λ r, sublist (Residue.atoms r) atoms) (Chain.residues ch))
    as Hch.
  { destruct (based_element _ (λ ch, Forall (λ r, sublist (Residue.atoms r) atoms)
                                       (Chain.residues ch)) _ _ _ _ Hcb Hm)
      as [H | Hnil]; [ exact H | ].
    rewrite Hnil. constructor. }
  assert (sublist (Residue.atoms r) atoms) as Hr.
  { destruct (based_element _ (λ r, sublist (Residue.atoms r) atoms)
                _ _ _ _ Hrb Hch) as [H | Hnil]; [ exact H | ].
    rewrite Hnil. apply sublist_nil_l. }
  unfold row_tree.
  apply (based_insert_Forall _ _ _ _ _ _ _ Hmb).
  { eapply Forall_impl; [ exact Hord | ].
    intros m0. apply in_order_of_more. }
  unfold in_order_of. simpl.
  apply (based_insert_Forall _ _ _ _ _ _ _ Hcb).
  { apply (in_order_of_more atoms [atom] m Hm). }
  simpl.
  apply (based_insert_Forall _ _ _ _ _ _ _ Hrb).
  { eapply Forall_impl; [ exact Hch | ]. intros r0 Hr0. simpl in Hr0.
    apply sublist_inserts_r, Hr0. }
  simpl. apply sublist_app; [ exact Hr | reflexivity ].
Qed.

Lemma atom_site_loop_order UnknownId NDEBUG aniso_map tab : ∀ cur cur' done,
  atom_site_loop UnknownId NDEBUG aniso_map cur tab = Ok cur' →
  Forall (in_order_of done) (models cur) →
  ∃ atoms, Forall2 (λ row atom, make_atom aniso_map row = Ok atom) tab atoms ∧
           Forall (in_order_of (done ++ atoms)) (models cur').
Proof.
  induction tab as [|row rest IH]; intros cur cur' done H Hord; simpl in H.
  - injection H as <-. exists []. split; [ constructor | ].
    rewrite app_nil_r. exact Hord.
  - inv_bind H.
    destruct (atom_site_row_order _ _ _ _ _ _ _ Hv Hord) as (atom & Ha & Hord').
    destruct (IH _ _ _ H Hord') as (atoms & Hall & Hfin).
    exists (atom :: atoms). split; [ constructor; assumption | ].
    rewrite <- app_assoc in Hfin. exact Hfin.
Qed.

Lemma linked_models_order tab es atoms ms ms' :
  Forall2 (linked_model tab es) ms ms' →
  Forall (in_order_of atoms) ms → Forall (in_order_of atoms) ms'.
Proof.
  induction 1 as [|m m' ms ms' (_ & Hchs) _ IH]; intros Hord;
    [ constructor | ].
  apply Forall_cons in Hord as [Hm Hms].
  constructor; [ | apply IH, Hms ].
  unfold in_order_of in *. clear IH Hms.
  induction Hchs as [|ch ch' chs chs' (_ & _ & Hr & _) _ IH];
    [ constructor | ].
  apply Forall_cons in Hm as [Hch Hchs'].
  constructor; [ rewrite Hr; exact Hch | apply IH, Hchs' ].
Qed.

(** X10. Atoms keep the order of their rows:
    the atoms of every residue of the returned Structure occur, in the
    order in which the residue holds them, among the atoms of the rows
    taken in the order of the atom table. *)
Theorem X10_atoms_in_row_order (UnknownId : Z) (NDEBUG : bool)
    (block : Block) (st : Structure.t) :
  structure_from_cif_block UnknownId NDEBUG block = Ok st →
  ∃ aniso_map atoms,
    get_anisotropic_u block = Ok aniso_map ∧
    Forall2 (λ row atom, make_atom aniso_map row = Ok atom)
      (rows (find block "_atom_site." atom_site_fields)) atoms ∧
    ∀ m ch r, m ∈ Structure.models st → ch ∈ Model.chains m →
              r ∈ Chain.residues ch → sublist (Residue.atoms r) atoms.
Proof.
  intros H.
  apply structure_from_cif_block_Ok in H
    as (cell & ncs & aniso_map & ms & es & es' & ms' &
        _ & _ & Haniso & Hb & _ & Hl & ->).
  unfold build_models in Hb. inv_bind Hb. injection Hb as <-.
  destruct (atom_site_loop_order _ _ _ _ _ _ [] Hv) as (atoms & Hall & Hord);
    [ constructor | ].
  simpl in Hord.
  destruct (link_models_spec (find block "_struct_asym." ["id"; "entity_id"])
              (models v) es) as (es2 & ms2 & Hl2 & _ & Hlinked).
  rewrite Hl in Hl2. injection Hl2 as <- <-.
  apply (linked_models_order _ _ _ _ _ Hlinked) in Hord.
  exists aniso_map, atoms. simpl.
  split; [ exact Haniso | ]. split; [ exact Hall | ].
  intros m ch r Hm Hch Hr.
  rewrite Forall_forall in Hord. specialize (Hord m Hm).
  unfold in_order_of in Hord. rewrite Forall_forall in Hord.
  specialize (Hord ch Hch). rewrite Forall_forall in Hord.
  exact (Hord r Hr).
Qed.

Lemma X10_atoms_in_row_order_witness :
  ∃ st, structure_from_cif_block Samples.unknown_id false
          (Samples.block_of
             [Samples.atom_site_table
                [Samples.ala_1; Samples.hoh_ins_A; Samples.hoh_ins_B]]) = Ok st ∧
        ∃ atoms,
          Forall2 (λ row atom, make_atom ∅ row = Ok atom)
            [Samples.ala_1; Samples.hoh_ins_A; Samples.hoh_ins_B] atoms ∧
          ∀ m ch r, m ∈ Structure.models st → ch ∈ Model.chains m →
                    r ∈ Chain.residues ch → sublist (Residue.atoms r) atoms.
Proof.
  assert (∃ st, structure_from_cif_block Samples.unknown_id false
                  (Samples.block_of
                     [Samples.atom_site_table
                        [Samples.ala_1; Samples.hoh_ins_A; Samples.hoh_ins_B]])
                = Ok st) as [st Hst] by (eexists; vm_compute; reflexivity).
  exists st. split; [ exact Hst | ].
  destruct (X10_atoms_in_row_order _ _ _ _ Hst)
    as (aniso_map & atoms & Ha & Hf & Hord).
  vm_compute in Ha. injection Ha as <-.
  exists atoms. split; [ exact Hf | exact Hord ].
Defined.

(** ** The buffers of the formatter (sprintf.hpp lines 23-42) *)

(** The digits printed for [n] are enough to write it. *)
Lemma uint_digits_enough fuel : ∀ n acc,
  0 <= n < 10 ^ (Z.of_nat fuel + 1) →
  ∃ k, String.length (uint_digits fuel n acc) = (k + String.length acc)%nat ∧
       (1 <= k)%nat ∧ n < 10 ^ Z.of_nat k.
Proof.
  induction fuel as [|f IH]; intros n acc Hn; simpl uint_digits.
  - exists 1%nat. simpl. split; [ reflexivity | split; [ lia | ] ].
    simpl in Hn. exact (proj2 Hn).
  - destruct (Z.eqb_spec (n / 10) 0) as [Hz | Hnz].
    + exists 1%nat. simpl. split; [ reflexivity | split; [ lia | ] ].
      apply Z.div_small_iff in Hz; lia.
    + destruct (IH (n / 10) (String (digit_char n) acc)) as (k & Hlen & Hk & Hlt).
      { split; [ apply Z.div_pos; lia | ].
        apply Z.div_lt_upper_bound; [ lia | ].
        replace (Z.of_nat (S f) + 1) with (Z.succ (Z.of_nat f + 1)) in Hn by lia.
        rewrite Z.pow_succ_r in Hn by lia. lia. }
      exists (S k). simpl in Hlen. split; [ rewrite Hlen; lia | split; [ lia | ] ].
      rewrite Nat2Z.inj_succ, Z.pow_succ_r by lia.
      pose proof (Z.div_mod n 10 ltac:(lia)) as Hdm.
      pose proof (Z.mod_pos_bound n 10 ltac:(lia)). lia.
Qed.

Lemma decimal_enough n :
  0 <= n → n < 10 ^ Z.of_nat (String.length (decimal n)).
Proof.
  intros Hn. unfold decimal.
  destruct (uint_digits_enough (Z.to_nat (Z.log2 n)) n "") as (k & Hlen & _ & Hlt).
  - split; [ exact Hn | ].
    rewrite Z2Nat.id by apply Z.log2_nonneg.
    destruct (Z.eq_dec n 0) as [-> | Hpos]; [ reflexivity | ].
    apply Z.lt_le_trans with (2 ^ (Z.log2 n + 1)).
    + apply Z.log2_spec. lia.
    + apply Z.pow_le_mono_l. pose proof (Z.log2_nonneg n). lia.
  - rewrite Hlen. simpl. rewrite Nat.add_0_r. exact Hlt.
Qed.

(** The search of [first_digit_pos] goes upwards from [k] and stops at the
    first exponent that is large enough. *)
Lemma first_digit_pos_spec fuel : ∀ k num den,
  0 < num → 0 <= k →
  let r := first_digit_pos fuel k num den in
  k <= r ∧
  (num * 10 ^ (k - 1) < den → num * 10 ^ (r - 1) < den) ∧
  ∀ K, k <= K → den <= num * 10 ^ K → r <= K.
Proof.
  induction fuel as [|f IH]; intros k num den Hnum Hk; simpl.
  - split; [ lia | ]. split; [ auto | ]. intros K HK _. exact HK.
  - destruct (Z.leb_spec den (num * 10 ^ k)) as [Hle | Hgt].
    + split; [ lia | ]. split; [ auto | ]. intros K HK _. exact HK.
    + destruct (IH (k + 1) num den Hnum ltac:(lia)) as (Hr & Hlow & Hup).
      split; [ lia | ]. split.
      * intros _. apply Hlow. replace (k + 1 - 1) with k by lia. exact Hgt.
      * intros K HK HKle. apply Hup; [ | exact HKle ].
        destruct (Z.eq_dec k K) as [-> | Hne]; lia.
Qed.

Lemma decimal_length_pos n : (1 <= String.length (decimal n))%nat.
Proof.
  destruct (decimal_digits n) as [_ Hne].
  destruct (decimal n); [ contradiction | simpl; lia ].
Qed.

(** [floor_log10] is an exponent that the value stays below. *)
Lemma floor_log10_spec num den :
  0 < num → 0 < den →
  (den <= num →
   0 <= floor_log10 num den ∧ num < 10 ^ (floor_log10 num den + 1) * den) ∧
  (num < den →
   floor_log10 num den <= -1 ∧ num * 10 ^ (- floor_log10 num den - 1) < den).
Proof.
  intros Hnum Hden. unfold floor_log10.
  destruct (Z.leb_spec den num) as [Hle | Hlt]; split; intros H; try lia.
  - pose proof (decimal_length_pos (num / den)) as Hpos.
    split; [ lia | ].
    replace (Z.of_nat (String.length (decimal (num / den))) - 1 + 1)
      with (Z.of_nat (String.length (decimal (num / den)))) by lia.
    pose proof (decimal_enough (num / den) ltac:(apply Z.div_pos; lia)) as He.
    pose proof (Z.div_mod num den ltac:(lia)) as Hdm.
    pose proof (Z.mod_pos_bound num den Hden). nia.
  - destruct (first_digit_pos_spec (Z.to_nat (Z.log2 den)) 1 num den Hnum
                ltac:(lia)) as (Hr & Hlow & _).
    split; [ lia | ].
    replace (- - first_digit_pos (Z.to_nat (Z.log2 den)) 1 num den - 1)
      with (first_digit_pos (Z.to_nat (Z.log2 den)) 1 num den - 1) by lia.
    apply Hlow. simpl. lia.
Qed.

Lemma floor_log10_bounds num den (lo hi : nat) :
  0 < num → 0 < den →
  num < 10 ^ (Z.of_nat hi + 1) * den → den <= num * 10 ^ Z.of_nat lo →
  (1 <= lo)%nat →
  - Z.of_nat lo <= floor_log10 num den <= Z.of_nat hi.
Proof.
  intros Hnum Hden Hhi Hlo Hlo1. unfold floor_log10.
  destruct (Z.leb_spec den num) as [Hle | Hlt].
  - pose proof (decimal_length_pos (num / den)).
    assert (String.length (decimal (num / den)) <= hi + 1)%nat; [ | lia ].
    apply decimal_length. split; [ apply Z.div_pos; lia | ].
    apply Z.div_lt_upper_bound; [ lia | ]. lia.
  - destruct (first_digit_pos_spec (Z.to_nat (Z.log2 den)) 1 num den Hnum
                ltac:(lia)) as (Hr & _ & Hup).
    specialize (Hup (Z.of_nat lo) ltac:(lia) Hlo). lia.
Qed.

(** With [x] at or above [floor_log10] and [q = P - 1 - x] fractional
    digits, the value scaled by [10^q] stays below [10^P]. *)
Lemma value_below P num den x :
  0 <= num → 0 < den → 1 <= P →
  (0 < num → floor_log10 num den <= x) →
  0 <= P - 1 - x →
  num * 10 ^ (P - 1 - x) < 10 ^ P * den.
Proof.
  intros Hnum Hden HP Hx Hq.
  assert (0 < 10 ^ P) as HpP by (apply Z.pow_pos_nonneg; lia).
  destruct (Z.eq_dec num 0) as [-> | Hne]; [ nia | ].
  specialize (Hx ltac:(lia)).
  set (q := P - 1 - x) in *.
  assert (0 < 10 ^ q) as Hpq by (apply Z.pow_pos_nonneg; lia).
  destruct (floor_log10_spec num den ltac:(lia) Hden) as [Hge Hlt].
  destruct (Z.le_gt_cases den num) as [Hle | Hgt].
  - destruct (Hge Hle) as [Hx0 Hb].
    assert (10 ^ P = 10 ^ q * 10 ^ (x + 1)) as ->
      by (rewrite <- Z.pow_add_r by lia; f_equal; lia).
    assert (10 ^ (floor_log10 num den + 1) <= 10 ^ (x + 1)) as Hmono
      by (apply Z.pow_le_mono_r; lia).
    revert Hb Hmono Hpq.
    generalize (10 ^ (floor_log10 num den + 1)) (10 ^ (x + 1)) (10 ^ q).
    intros A B Q Hb Hmono HQ.
    assert (num < B * den) by nia.
    rewrite <- Z.mul_assoc, (Z.mul_comm Q). apply Z.mul_lt_mono_pos_r; lia.
  - destruct (Hlt Hgt) as [Hx0 Hb].
    destruct (Z.le_gt_cases 0 (x + 1)) as [Hxp | Hxn].
    + assert (10 ^ P = 10 ^ q * 10 ^ (x + 1)) as ->
        by (rewrite <- Z.pow_add_r by lia; f_equal; lia).
      assert (0 < 10 ^ (x + 1)) as Hpx by (apply Z.pow_pos_nonneg; lia).
      revert Hpq Hpx. generalize (10 ^ (x + 1)) (10 ^ q). intros B Q HQ HB.
      assert (num * Q < den * Q) by (apply Z.mul_lt_mono_pos_r; lia).
      assert (den * Q <= Q * B * den) by nia. lia.
    + assert (10 ^ q = 10 ^ P * 10 ^ (- (x + 1))) as ->
        by (rewrite <- Z.pow_add_r by lia; f_equal; lia).
      assert (10 ^ (- (x + 1)) <= 10 ^ (- floor_log10 num den - 1)) as Hmono
        by (apply Z.pow_le_mono_r; lia).
      revert Hb Hmono HpP.
      generalize (10 ^ (- floor_log10 num den - 1)) (10 ^ (- (x + 1))) (10 ^ P).
      intros A B PP Hb Hmono HPP.
      assert (num * B < den) by nia.
      rewrite (Z.mul_comm PP B), Z.mul_assoc, (Z.mul_comm _ PP), (Z.mul_comm PP den).
      rewrite (Z.mul_comm PP (num * B)).
      apply Z.mul_lt_mono_pos_r; lia.
Qed.

Lemma strip_zeros_length s :
  (String.length (strip_zeros s) <= String.length s)%nat.
Proof.
  induction s as [|c s IH]; simpl; [ lia | ].
  destruct (strip_zeros s); [ destruct (Ascii.eqb c "0") | ]; simpl in *; lia.
Qed.

Lemma with_fraction_length dp ip fp :
  (String.length (with_fraction dp ip fp)
   <= String.length ip + 1 + String.length fp)%nat.
Proof.
  unfold with_fraction. destruct fp; [ lia | ].
  rewrite string_app_length. simpl. lia.
Qed.

Lemma exponent_text_length ed x :
  (ed <= 3)%nat → -1000 < x < 1000 →
  (String.length (exponent_text ed x) <= 5)%nat.
Proof.
  intros Hed Hx. unfold exponent_text.
  assert (String.length (decimal (Z.abs x)) <= 3)%nat as Hds
    by (apply (decimal_length _ 2); simpl; lia).
  simpl String.length. rewrite string_app_length, string_app_length.
  rewrite digits_w_length. simpl String.length.
  destruct (x <? 0); simpl; lia.
Qed.

Lemma significand_exponent sig num den d x :
  significand sig num den = (d, x) →
  (num = 0 ∧ x = 0)
  ∨ (num ≠ 0 ∧ (x = floor_log10 num den ∨ x = floor_log10 num den + 1)).
Proof.
  unfold significand. destruct (Z.eqb_spec num 0) as [-> | Hne].
  - intros [= <- <-]. left. auto.
  - right. split; [ exact Hne | ].
    destruct (_ <=? _); injection H as _ <-; auto.
Qed.

(** The fixed-notation text that [%g] chooses when the exponent [x] is
    between -4 and the precision: at most [P + 5] characters. *)
Lemma general_fixed_length dp (P : nat) num den x :
  0 <= num → 0 < den → (1 <= P)%nat →
  (0 < num → floor_log10 num den <= x) →
  -4 <= x < Z.of_nat P →
  let q := Z.to_nat (Z.of_nat P - 1 - x) in
  let s := round_div (num * 10 ^ Z.of_nat q) den in
  (String.length
     (with_fraction dp (decimal (s / 10 ^ Z.of_nat q))
        (strip_zeros (digits_w q (s mod 10 ^ Z.of_nat q) "")))
   <= P + 5)%nat.
Proof.
  intros Hnum Hden HP Hx0 Hx q s.
  assert (Z.of_nat q = Z.of_nat P - 1 - x) as Hq by (unfold q; lia).
  assert (0 < 10 ^ Z.of_nat q) as Hpq by (apply Z.pow_pos_nonneg; lia).
  assert (0 < 10 ^ Z.of_nat P) as HpP by (apply Z.pow_pos_nonneg; lia).
  pose proof (value_below (Z.of_nat P) num den x Hnum Hden ltac:(lia) Hx0
                ltac:(lia)) as Hbelow.
  rewrite <- Hq in Hbelow.
  assert (0 <= s <= 10 ^ Z.of_nat P) as Hs.
  { destruct (round_div_bounds (num * 10 ^ Z.of_nat q) den) as [Hlo Hhi];
      [ nia | lia | ].
    fold s in Hlo, Hhi.
    assert (0 <= num * 10 ^ Z.of_nat q / den) by (apply Z.div_pos; nia).
    assert (num * 10 ^ Z.of_nat q / den < 10 ^ Z.of_nat P)
      by (apply Z.div_lt_upper_bound; lia).
    lia. }
  etrans; [ apply with_fraction_length | ].
  pose proof (strip_zeros_length (digits_w q (s mod 10 ^ Z.of_nat q) "")) as Hf.
  rewrite digits_w_length in Hf. simpl in Hf. rewrite Nat.add_0_r in Hf.
  assert (0 <= s / 10 ^ Z.of_nat q) as Hip0 by (apply Z.div_pos; lia).
  destruct (Z.le_gt_cases 0 x) as [Hxp | Hxn].
  - assert (String.length (decimal (s / 10 ^ Z.of_nat q)) <= Z.to_nat x + 2)%nat.
    { replace (Z.to_nat x + 2)%nat with (Z.to_nat (x + 1) + 1)%nat by lia.
      apply decimal_length. split; [ exact Hip0 | ].
      rewrite Z2Nat.id by lia.
      assert (10 ^ Z.of_nat P = 10 ^ Z.of_nat q * 10 ^ (x + 1)) as HPq
        by (rewrite <- Z.pow_add_r by lia; f_equal; lia).
      assert (s / 10 ^ Z.of_nat q <= 10 ^ (x + 1))
        by (apply Z.div_le_upper_bound; lia).
      replace (x + 1 + 1) with (Z.succ (x + 1)) by lia.
      rewrite Z.pow_succ_r by lia.
      assert (0 < 10 ^ (x + 1)) by (apply Z.pow_pos_nonneg; lia). lia. }
    lia.
  - assert (String.length (decimal (s / 10 ^ Z.of_nat q)) <= 1)%nat.
    { apply (decimal_length _ 0). split; [ exact Hip0 | ].
      assert (10 ^ Z.of_nat P <= 10 ^ Z.of_nat q)
        by (apply Z.pow_le_mono_r; lia).
      assert (s / 10 ^ Z.of_nat q <= 1)
        by (apply Z.div_le_upper_bound; lia).
      simpl. lia. }
    lia.
Qed.

(** The text of [%.{prec}g] for a magnitude whose decimal exponent has at
    most three digits: at most [max prec 1 + 6] characters. *)
Lemma general_text_length dp ed prec num den :
  0 <= num → 0 < den → (ed <= 3)%nat →
  (0 < num → -998 <= floor_log10 num den <= 998) →
  (String.length (general_text dp ed prec num den) <= Nat.max prec 1 + 6)%nat.
Proof.
  intros Hnum Hden Hed Hfl. unfold general_text.
  set (P := Nat.max prec 1).
  assert (1 <= P)%nat as HP by (unfold P; lia).
  destruct (significand P num den) as [d x] eqn:Hsig.
  apply significand_exponent in Hsig.
  assert (-1000 < x < 1000 ∧ (0 < num → floor_log10 num den <= x)) as [Hx Hx0].
  { destruct Hsig as [[-> ->] | [Hne Hsig]]; [ lia | ].
    assert (0 < num) as Hpos by lia. specialize (Hfl Hpos).
    destruct Hsig as [-> | ->]; lia. }
  destruct ((x <? -4) || (Z.of_nat P <=? x)) eqn:Hstyle.
  - pose proof (digits_w_length P d "") as Hall. simpl in Hall.
    destruct (digits_w P d "") as [|c r]; [ simpl; lia | ].
    simpl in Hall. rewrite string_app_length.
    pose proof (with_fraction_length dp (String c "") (strip_zeros r)).
    pose proof (strip_zeros_length r).
    pose proof (exponent_text_length ed x Hed Hx).
    simpl in *. lia.
  - apply orb_false_iff in Hstyle as [H4 HPx].
    apply Z.ltb_ge in H4. apply Z.leb_gt in HPx.
    pose proof (general_fixed_length dp P num den x Hnum Hden HP Hx0
                  (conj H4 HPx)) as Hlen.
    simpl in Hlen. lia.
Qed.

(** The decimal exponent of a finite [double] lies between -324 and 308. *)
Lemma double_exponent_range neg m e :
  is_double (FFinite neg m e) = true →
  0 <= numerator m e ∧ 0 < denominator e ∧
  (0 < numerator m e →
   -324 <= floor_log10 (numerator m e) (denominator e) <= 308).
Proof.
  unfold is_double, numerator, denominator.
  rewrite !andb_true_iff, N.ltb_lt, !Z.leb_le. intros [[Hm He1] He2].
  assert (0 <= Z.of_N m < 2 ^ 53) as Hmz.
  { split; [ lia | ]. change (2 ^ 53) with (Z.of_N (2 ^ 53)). lia. }
  assert (0 < 2 ^ Z.max e 0) as Hn by (apply Z.pow_pos_nonneg; lia).
  assert (0 < 2 ^ Z.max (- e) 0) as Hd by (apply Z.pow_pos_nonneg; lia).
  split; [ nia | ]. split; [ exact Hd | ]. intros Hpos.
  assert (2 ^ Z.max e 0 <= 2 ^ 971) as Hn' by (apply Z.pow_le_mono_r; lia).
  assert (2 ^ Z.max (- e) 0 <= 2 ^ 1074) as Hd' by (apply Z.pow_le_mono_r; lia).
  assert (2 ^ 53 * 2 ^ 971 < 10 ^ 309) as H309 by (vm_compute; reflexivity).
  assert (2 ^ 1074 <= 10 ^ 324) as H324 by (vm_compute; discriminate).
  pose proof (floor_log10_bounds (Z.of_N m * 2 ^ Z.max e 0)
                (2 ^ Z.max (- e) 0) 324 308 Hpos Hd) as Hb.
  change (Z.of_nat 308 + 1) with 309 in Hb.
  change (Z.of_nat 324) with 324 in Hb.
  change (Z.of_nat 308) with 308 in Hb.
  set (A := 2 ^ Z.max e 0) in *. set (B := 2 ^ Z.max (- e) 0) in *.
  set (p53 := 2 ^ 53) in *. set (p971 := 2 ^ 971) in *.
  set (p1074 := 2 ^ 1074) in *. set (q324 := 10 ^ 324) in *.
  set (q309 := 10 ^ 309) in *.
  clearbody A B p53 p971 p1074 q324 q309.
  assert (Z.of_N m * A < p53 * A) by (apply Z.mul_lt_mono_pos_r; lia).
  assert (p53 * A <= p53 * p971) by (apply Z.mul_le_mono_nonneg_l; lia).
  assert (q309 * 1 <= q309 * B) by (apply Z.mul_le_mono_nonneg_l; lia).
  assert (1 * q324 <= Z.of_N m * A * q324)
    by (apply Z.mul_le_mono_nonneg_r; lia).
  apply Hb; lia.
Qed.

Lemma is_float_is_double d : is_float d = true → is_double d = true.
Proof.
  destruct d as [| |neg m e]; try reflexivity. unfold is_float, is_double.
  rewrite !andb_true_iff, !N.ltb_lt, !Z.leb_le. intros [[Hm He1] He2].
  repeat split; [ | lia | lia ].
  eapply N.lt_trans; [ exact Hm | reflexivity ].
Qed.

(** The text of [%.{prec}g] for any [double], sign included. *)
Lemma format_general_length dp ed prec d :
  is_double d = true → (ed <= 3)%nat →
  (String.length (format dp ed (conv_g prec) d) <= Nat.max prec 1 + 7)%nat.
Proof.
  intros Hd Hed. destruct d as [|neg|neg m e]; simpl.
  - lia.
  - destruct neg; simpl; lia.
  - destruct (double_exponent_range neg m e Hd) as (Hn & Hden & Hfl).
    rewrite string_app_length.
    assert (0 < numerator m e →
            -998 <= floor_log10 (numerator m e) (denominator e) <= 998)
      as Hfl' by (intros Hpos; specialize (Hfl Hpos); lia).
    pose proof (general_text_length dp ed prec _ _ Hn Hden Hed Hfl').
    destruct neg; simpl in *; lia.
Qed.

Lemma gstb_sprintf_general_length USE rt prec d :
  is_double d = true → USE = false ∨ (exponent_digits rt <= 3)%nat →
  (String.length (gstb_sprintf USE rt (conv_g prec) d) <= Nat.max prec 1 + 7)%nat.
Proof.
  intros Hd Hrt. unfold gstb_sprintf. destruct USE.
  - destruct Hrt as [? | Hed]; [ discriminate | ].
    apply format_general_length; assumption.
  - apply format_general_length; [ assumption | lia ].
Qed.

(** X11. Neither [to_str] overruns its
    buffer: for every [double], not-a-number and the infinities included,
    the text of ["%.9g"] has at most 16 characters and fits [buf[24]] with
    its terminating NUL; for every [float] the text of ["%.6g"] has at most
    13 characters and fits [buf[16]]. Under USE_STD_SNPRINTF this needs a C
    library that pads exponents to at most three digits. *)
Theorem X11_to_str_fits_its_buffer (USE_STD_SNPRINTF : bool) (rt : c_runtime)
    (d : binary) :
  USE_STD_SNPRINTF = false ∨ (exponent_digits rt <= 3)%nat →
  (is_double d = true →
   to_str_double USE_STD_SNPRINTF rt d
   = Text (gstb_sprintf USE_STD_SNPRINTF rt (conv_g 9) d) ∧
   (String.length (gstb_sprintf USE_STD_SNPRINTF rt (conv_g 9) d) <= 16)%nat) ∧
  (is_float d = true →
   to_str_float USE_STD_SNPRINTF rt d
   = Text (gstb_sprintf USE_STD_SNPRINTF rt (conv_g 6) d) ∧
   (String.length (gstb_sprintf USE_STD_SNPRINTF rt (conv_g 6) d) <= 13)%nat).
Proof.
  intros Hrt. split; intros Hd.
  - pose proof (gstb_sprintf_general_length USE_STD_SNPRINTF rt 9 d Hd Hrt) as H.
    change (Nat.max 9 1 + 7)%nat with 16%nat in H.
    split; [ | exact H ]. unfold to_str_double, via_buffer.
    destruct (Nat.leb_spec (String.length
                (gstb_sprintf USE_STD_SNPRINTF rt (conv_g 9) d) + 1) 24);
      [ reflexivity | lia ].
  - apply is_float_is_double in Hd.
    pose proof (gstb_sprintf_general_length USE_STD_SNPRINTF rt 6 d Hd Hrt) as H.
    change (Nat.max 6 1 + 7)%nat with 13%nat in H.
    split; [ | exact H ]. unfold to_str_float, via_buffer.
    destruct (Nat.leb_spec (String.length
                (gstb_sprintf USE_STD_SNPRINTF rt (conv_g 6) d) + 1) 16);
      [ reflexivity | lia ].
Qed.

(** The largest finite double, negated: sixteen characters, the bound of
    X11 is reached. *)
Lemma X11_to_str_fits_its_buffer_witness :
  is_double (FFinite true (2 ^ 53 - 1) 971) = true ∧
  to_str_double true (mkRuntime "." 3) (FFinite true (2 ^ 53 - 1) 971)
  = Text "-1.79769313e+308" ∧
  (String.length (gstb_sprintf true (mkRuntime "." 3) (conv_g 9)
                    (FFinite true (2 ^ 53 - 1) 971)) <= 16)%nat.
Proof.
  split; [ vm_compute; reflexivity | ].
  destruct (X11_to_str_fits_its_buffer true (mkRuntime "." 3)
              (FFinite true (2 ^ 53 - 1) 971)) as [Hd _];
    [ right; simpl; lia | ].
  destruct Hd as [Heq Hlen]; [ vm_compute; reflexivity | ].
  split; [ rewrite Heq; vm_compute; reflexivity | exact Hlen ].
Defined.

(** X12. The general-notation
    branch of [to_str_prec] never overruns [buf[16]]: a double that is not
    strictly between -1e8 and 1e8 (a NaN and the infinities included) is
    printed by ["%g"] in at most 13 characters. Hence with a precision of
    at most 4 [to_str_prec] returns a text for every double. *)
Theorem X12_to_str_prec_general_fits (USE_STD_SNPRINTF : bool)
    (rt : c_runtime) (Prec : Z) (f : binary → written) (d : binary) :
  to_str_prec USE_STD_SNPRINTF rt Prec = Some f →
  is_double d = true →
  USE_STD_SNPRINTF = false ∨ (exponent_digits rt <= 3)%nat →
  (in_fixed_range d = false →
   f d = Text (gstb_sprintf USE_STD_SNPRINTF rt (conv_g 6) d) ∧
   (String.length (gstb_sprintf USE_STD_SNPRINTF rt (conv_g 6) d) <= 13)%nat) ∧
  (Prec <= 4 → ∃ text, f d = Text text).
Proof.
  unfold to_str_prec. intros Hf Hd Hrt.
  destruct (Z.leb_spec 0 Prec) as [H0 | ]; [ | discriminate ].
  destruct (Z.ltb_spec Prec 7) as [H7 | ]; [ | discriminate ].
  simpl in Hf. injection Hf as <-.
  pose proof (gstb_sprintf_general_length USE_STD_SNPRINTF rt 6 d Hd Hrt) as Hg.
  change (Nat.max 6 1 + 7)%nat with 13%nat in Hg.
  assert (in_fixed_range d = false →
          via_buffer 16
            (if in_fixed_range d
             then gstb_sprintf USE_STD_SNPRINTF rt (conv_f (Z.to_nat Prec)) d
             else gstb_sprintf USE_STD_SNPRINTF rt (conv_g 6) d)
          = Text (gstb_sprintf USE_STD_SNPRINTF rt (conv_g 6) d)) as Hgen.
  { intros ->. unfold via_buffer.
    destruct (Nat.leb_spec (String.length
                (gstb_sprintf USE_STD_SNPRINTF rt (conv_g 6) d) + 1) 16);
      [ reflexivity | lia ]. }
  split; [ intros Hout; split; [ exact (Hgen Hout) | exact Hg ] | ].
  intros H4. destruct (in_fixed_range d) eqn:Hin;
    [ | eexists; apply Hgen; reflexivity ].
  destruct (in_fixed_range_is_finite d Hin) as (neg & m & e & ->).
  apply in_fixed_range_finite in Hin.
  destruct (double_exponent_range neg m e Hd) as (Hn & Hden & _).
  assert (∃ dp, gstb_sprintf USE_STD_SNPRINTF rt (conv_f (Z.to_nat Prec))
                  (FFinite neg m e)
                = sign_text neg ++ fixed_text dp (Z.to_nat Prec)
                                     (numerator m e) (denominator e))
    as [dp ->]
    by (unfold gstb_sprintf; destruct USE_STD_SNPRINTF; eexists; reflexivity).
  pose proof (fixed_text_length dp (Z.to_nat Prec) neg _ _ Hn Hden Hin) as Hlen.
  unfold via_buffer.
  destruct (Nat.leb_spec
              (String.length (sign_text neg ++ fixed_text dp (Z.to_nat Prec)
                                (numerator m e) (denominator e)) + 1) 16)
    as [ | Hover ]; [ eexists; reflexivity | ].
  exfalso. destruct (Z.to_nat Prec) as [|p] eqn:Hp; [ lia | ].
  assert (S p <= 4)%nat by lia. lia.
Qed.

(** The double 1e8 itself with three fractional digits asked for: the
    general notation, five characters. *)
Lemma X12_to_str_prec_general_fits_witness :
  ∃ f, to_str_prec false (mkRuntime "." 2) 3 = Some f ∧
       is_double f1e8 = true ∧ in_fixed_range f1e8 = false ∧
       f f1e8 = Text "1e+08".
Proof.
  eexists. split; [ reflexivity | ].
  split; [ reflexivity | ]. split; [ reflexivity | ].
  destruct (X12_to_str_prec_general_fits false (mkRuntime "." 2) 3 _ f1e8
              eq_refl eq_refl (or_introl eq_refl)) as [Hgen _].
  destruct (Hgen eq_refl) as [Heq _].
  etrans; [ exact Heq | vm_compute; reflexivity ].
Defined.
